(** * MechaSense: diagnosis engine, alert dispatcher, messaging session
      and prediction endpoint

    A shallow embedding of the TypeScript sources
    - [lib/expert-system/fuzzyMembership.ts] and [app/ai-center/page.tsx]
      (certainty-factor diagnosis and aggregate conclusion),
    - [hooks/useAlertMqtt.ts] (critical-condition detection and the
      automatic ON/OFF dispatcher),
    - [lib/mqtt.ts] (singleton MQTT session and PLC commands),
    - [app/api/ml/predict/route.ts] (health score plus remote predictor).

    A JavaScript number is modelled by the rational [Q] it stands for;
    where the program computes with numbers (the certainty factors and
    the conclusion of the diagnosis, the width of a temperature bar),
    every operand and every result is
    rounded to IEEE 754 binary64 ([JsNumber.binary64]), so that a literal
    such as 0.29 reads as the double nearest to it. Infinities and NaN
    are not modelled. Wall-clock instants ([Date.now()], milliseconds)
    are modelled by [Z]. *)

From Stdlib Require Import ZArith QArith Qround Qabs Qpower Lia Lqa.
From stdpp Require Import base option list gmap strings.

Local Open Scope Z_scope.

(* ===================================================================== *)
(** ** JavaScript number helpers *)
(* ===================================================================== *)

Module JsNumber.

(** *** Binary64 *)

(** For [0 < x], the integer [k] with [2^k <= x < 2^(k+1)]. *)
Definition ilog2 (x : Q) : Z :=
  let k := Z.log2 (Qnum x) - Z.log2 (Z.pos (Qden x)) in
  if Qle_bool (2 ^ k) x then k else k - 1.

(** The integer nearest to [y], the even one on a tie. *)
Definition roundHalfEven (y : Q) : Z :=
  let f := Qfloor y in
  match ((y - inject_Z f) ?= 1 # 2)%Q with
  | Lt => f
  | Gt => f + 1
  | Eq => if Z.even f then f else f + 1
  end.

(** The exponent of the unit in the last place of a double near [x]:
    53 significant bits, and never below the subnormal exponent. *)
Definition ulpExponent (x : Q) : Z := Z.max (-1074) (ilog2 (Qabs x) - 52).

(** The binary64 number nearest to [x], ties to the even significand:
    the number a literal denotes and the result of an arithmetic
    operation on its exact value. (Beyond the largest double the
    program would get Infinity, which is not modelled.) *)
Definition binary64 (x : Q) : Q :=
  if Qeq_bool x 0 then 0%Q
  else (inject_Z (roundHalfEven (x / 2 ^ ulpExponent x))
        * 2 ^ ulpExponent x)%Q.

(** [x + y], [x * y] and [x / y] on numbers. *)
Definition add (x y : Q) : Q := binary64 (binary64 x + binary64 y).
Definition mul (x y : Q) : Q := binary64 (binary64 x * binary64 y).
Definition div (x y : Q) : Q := binary64 (binary64 x / binary64 y).

(** *** Library functions *)

(** [Math.max(...xs)] and [Math.min(...xs)]: a left-to-right scan that
    starts from -Infinity (resp. +Infinity), here [None]. *)
Definition Math_max (xs : list Q) : option Q :=
  fold_left (fun highest x =>
               match highest with
               | None => Some x
               | Some h => if Qlt_le_dec h x then Some x else Some h
               end) xs None.

Definition Math_min (xs : list Q) : option Q :=
  fold_left (fun lowest x =>
               match lowest with
               | None => Some x
               | Some l => if Qlt_le_dec x l then Some x else Some l
               end) xs None.

(** The decimal numeral [x.toFixed(digits)] as a rational: [n /
    10^digits] for the integer [n] for which [n / 10^digits - x] is
    closest to zero, the larger [n] on a tie; a negative [x] is rounded
    through its absolute value. [x] is the exact value of the number. *)
Definition toFixedDecimal (digits : nat) (x : Q) : Q :=
  let scale := Z.to_pos (10 ^ Z.of_nat digits) in
  let pick (y : Q) : Z := Qfloor (y * inject_Z (Z.pos scale) + (1 # 2)) in
  if Qlt_le_dec x 0 then Qopp (pick (Qopp x) # scale) else pick x # scale.

(** [Number(x.toFixed(digits))]: the double nearest to that numeral. *)
Definition toFixed (digits : nat) (x : Q) : Q :=
  binary64 (toFixedDecimal digits (binary64 x)).

End JsNumber.

(* ===================================================================== *)
(** ** Diagnosis engine ([app/ai-center/page.tsx]) *)
(* ===================================================================== *)

Module Diagnosis.
Import JsNumber.

(** [type FuzzyLevel = "No" | "Sometimes" | "Yes"] *)
Inductive FuzzyLevel := No | Sometimes | Yes.

Definition fuzzyLevelToValue (level : FuzzyLevel) : Q :=
  match level with
  | No => 0
  | Sometimes => 1 # 2
  | Yes => 1
  end.

(** The catalogs [symptoms] and [rules] are imported data; only the
    fields the page reads are kept. [cfExpert] is the factor as the
    catalog writes it; the program multiplies the double it denotes. *)
Record Symptom := { s_id : nat; cfExpert : Q }.

Inductive Operator := AND | OR.
Inductive Level := A | B | C.

Record Rule := {
  r_id : string;
  r_symptoms : list nat;
  operator : Operator;
  level : Level;
  damage : string;
  solution : string;
}.

Record DiagnosisResult := {
  id : string;
  d_level : Level;
  d_damage : string;
  d_solution : string;
  cfRule : Q;
}.

Record Conclusion := { percent : Q; label : string }.

Definition levelScore (l : Level) : Q :=
  match l with A => 40 | B => 70 | C => 100 end.

Section Catalog.
Variable symptoms : list Symptom.
Variable rules : list Rule.
(** [answers : Record<number, UserAnswer>] *)
Variable answers : gmap nat FuzzyLevel.

(** [symptoms.find((s) => s.id === sid)?.cfExpert] *)
Definition expertCF (sid : nat) : option Q :=
  cfExpert <$> List.find (fun s => Nat.eqb (s_id s) sid) symptoms.

(** The inner [rule.symptoms.forEach] loop: [cfValues.push] in order. *)
Definition cfValues (sids : list nat) : list Q :=
  fold_left (fun acc sid =>
               match answers !! sid, expertCF sid with
               | Some userAnswer, Some e =>
                   acc ++ [mul (fuzzyLevelToValue userAnswer) e]
               | _, _ => acc
               end) sids [].

(** The [const cfRule] of the loop body; [None] when the body returns
    early on [cfValues.length === 0]. *)
Definition computedCF (rule : Rule) : option Q :=
  let cfs := cfValues (r_symptoms rule) in
  if Nat.eqb (length cfs) 0 then None
  else match operator rule with
       | OR => Math_max cfs
       | AND => Math_min cfs
       end.

(** One iteration of [rules.forEach]: the record pushed on [output],
    if any. *)
Definition ruleResult (rule : Rule) : option DiagnosisResult :=
  match computedCF rule with
  | None => None
  | Some cf =>
      if Qlt_le_dec 0 cf then
        Some {| id := r_id rule; d_level := level rule;
                d_damage := damage rule; d_solution := solution rule;
                cfRule := toFixed 2 cf |}
      else None
  end.

Definition diagnosisOutput : list DiagnosisResult :=
  fold_left (fun output rule =>
               match ruleResult rule with
               | Some r => output ++ [r]
               | None => output
               end) rules [].
End Catalog.

(** [calculateConclusion]: the value handed to [setConclusion]. *)
Definition calculateConclusion (data : list DiagnosisResult)
  : option Conclusion :=
  if Nat.eqb (length data) 0 then None
  else
    let totalScore :=
      fold_left (fun sum r => add sum (levelScore (d_level r))) data 0%Q in
    let percent :=
      mul (div totalScore (mul (inject_Z (Z.of_nat (length data))) 100))
          100 in
    let label :=
      if Qle_bool percent 40 then "Minor"
      else if Qle_bool percent 70 then "Moderate"
      else "Severe" in
    Some {| percent := toFixed 1 percent; label := label |}.

(** [runDiagnosis]: the pair ([setResults], [setConclusion]). *)
Definition runDiagnosis (symptoms : list Symptom) (rules : list Rule)
    (answers : gmap nat FuzzyLevel)
  : list DiagnosisResult * option Conclusion :=
  let output := diagnosisOutput symptoms rules answers in
  (output, calculateConclusion output).

End Diagnosis.

(* ===================================================================== *)
(** ** Alert dispatcher ([hooks/useAlertMqtt.ts]) *)
(* ===================================================================== *)

Module AlertMqtt.

Record SensorReading := {
  gridVoltage : option Q;
  motorCurrent : option Q;
  powerFactor : option Q;
  gridFrequency : option Q;
  motorSurfaceTemp : option Q;
  bearingTemp : option Q;
  vibrationRms : option Q;
  dustDensity : option Q;
  healthIndex : option Q;
}.

(** The [ParameterType] values the hook passes to [getStatusColor]. *)
Inductive ParameterType :=
| PVibrationRms | PMotorSurfaceTemp | PBearingTemp | PMotorCurrent
| PGridVoltage | PPowerFactor | PDustDensity.

Definition typeName (t : ParameterType) : string :=
  match t with
  | PVibrationRms => "vibrationRms"
  | PMotorSurfaceTemp => "motorSurfaceTemp"
  | PBearingTemp => "bearingTemp"
  | PMotorCurrent => "motorCurrent"
  | PGridVoltage => "gridVoltage"
  | PPowerFactor => "powerFactor"
  | PDustDensity => "dustDensity"
  end.

(** [data[param.key]] *)
Definition field (data : SensorReading) (key : ParameterType) : option Q :=
  match key with
  | PVibrationRms => vibrationRms data
  | PMotorSurfaceTemp => motorSurfaceTemp data
  | PBearingTemp => bearingTemp data
  | PMotorCurrent => motorCurrent data
  | PGridVoltage => gridVoltage data
  | PPowerFactor => powerFactor data
  | PDustDensity => dustDensity data
  end.

Inductive StatusLevel := normal | warning | critical.

Definition isCriticalLevel (l : StatusLevel) : bool :=
  match l with critical => true | _ => false end.

Definition parametersToCheck : list ParameterType :=
  [PVibrationRms; PMotorSurfaceTemp; PBearingTemp; PMotorCurrent;
   PGridVoltage; PPowerFactor; PDustDensity].

(** One entry of [reasons]; the source formats these as text. *)
Inductive Reason :=
| HealthIndexReason (value : Q)
| ParameterReason (type : ParameterType) (value : Q).

Record CriticalConditionResult := {
  hasCritical : bool;
  reasons : list Reason;
  mostSevereParameter : option string;
  mostSevereValue : option Q;
}.

(** [!mostSevereParameter || mostSevereParameter === "healthIndex"] *)
Definition replaceable (p : option string) : bool :=
  match p with
  | None => true
  | Some s => String.eqb s "" || String.eqb s "healthIndex"
  end.

Section Detect.
(** [getStatusColor(value, type).level], imported from
    [lib/thresholds]. *)
Variable getStatusColor : Q -> ParameterType -> StatusLevel.

(** The three mutable locals of [detectCriticalConditions]. *)
Definition Locals : Type := list Reason * option string * option Q.

Definition checkHealthIndex (data : SensorReading) (healthThreshold : Q)
  : Locals :=
  match healthIndex data with
  | Some h =>
      if Qlt_le_dec h healthThreshold
      then ([HealthIndexReason h], Some "healthIndex"%string, Some h)
      else ([], None, None)
  | None => ([], None, None)
  end.

(** Body of the [for (const param of parametersToCheck)] loop. *)
Definition checkParameter (data : SensorReading) (acc : Locals)
    (param : ParameterType) : Locals :=
  let '(rs, msp, msv) := acc in
  match field data param with
  | None => acc
  | Some value =>
      if isCriticalLevel (getStatusColor value param) then
        let rs' := rs ++ [ParameterReason param value] in
        if replaceable msp
        then (rs', Some (typeName param), Some value)
        else (rs', msp, msv)
      else acc
  end.

Definition detectCriticalConditions (data : SensorReading)
    (healthThreshold : Q) : CriticalConditionResult :=
  let '(rs, msp, msv) :=
    fold_left (checkParameter data) parametersToCheck
              (checkHealthIndex data healthThreshold) in
  {| hasCritical := Nat.ltb 0 (length rs);
     reasons := rs;
     mostSevereParameter := msp;
     mostSevereValue := msv |}.

(** The refs the dispatcher reads and writes. *)
Record AlertState := {
  lastAlertTimeRef : Z;
  wasInCriticalRef : bool;
}.

Definition initialAlertState : AlertState :=
  {| lastAlertTimeRef := 0; wasInCriticalRef := false |}.

(** What one run of [checkAndSendAlert] asks of the messaging layer,
    with the value the awaited promise resolved to. *)
Inductive SideEffect :=
| NoEffect
| SendOn (parameter : option string) (value : option Q) (success : bool)
| SendOff (success : bool).

Record AlertMqttConfig := {
  enabled : bool;
  alertCooldown : Z;
  criticalHealthThreshold : Q;
}.

Definition DEFAULT_CONFIG : AlertMqttConfig :=
  {| enabled := true; alertCooldown := 30000;
     criticalHealthThreshold := 60 |}.

(** [checkAndSendAlert] when nothing else happens between its [await]
    and the writes that follow it: [now] is [Date.now()] and [success]
    what [sendAlertToPLC] / [sendOffSignalToPLC] resolves to when the
    run reaches one of them. The display state [lastAlertInfo] is left
    out. ([beginEvaluation] and [resumeEvaluation] below are its two
    halves.) *)
Definition checkAndSendAlert (config : AlertMqttConfig)
    (sensorData : SensorReading) (now : Z) (success : bool)
    (st : AlertState) : SideEffect * AlertState :=
  let criticalConditions :=
    detectCriticalConditions sensorData (criticalHealthThreshold config) in
  if hasCritical criticalConditions then
    let timeSinceLastAlert := now - lastAlertTimeRef st in
    if timeSinceLastAlert <? alertCooldown config then (NoEffect, st)
    else
      (SendOn (mostSevereParameter criticalConditions)
              (mostSevereValue criticalConditions) success,
       if success
       then {| lastAlertTimeRef := now; wasInCriticalRef := true |}
       else st)
  else if wasInCriticalRef st then
    (SendOff success,
     if success
     then {| lastAlertTimeRef := lastAlertTimeRef st;
             wasInCriticalRef := false |}
     else st)
  else (NoEffect, st).

(** The effect hook around it: [if (!enabled || !sensorData) return]. *)
Definition alertEffect (config : AlertMqttConfig)
    (sensorData : option SensorReading) (now : Z) (success : bool)
    (st : AlertState) : SideEffect * AlertState :=
  match sensorData with
  | Some data =>
      if enabled config then checkAndSendAlert config data now success st
      else (NoEffect, st)
  | None => (NoEffect, st)
  end.

(** A sequence of evaluations in which every send has settled, and the
    references are written, before the next reading is evaluated: the
    sequential schedules of [hookRun] below. *)
Record Evaluation := {
  ev_data : SensorReading;
  ev_now : Z;
  ev_success : bool;
}.

Fixpoint runEvaluations (config : AlertMqttConfig)
    (evs : list Evaluation) (st : AlertState)
  : list (Z * SideEffect) * AlertState :=
  match evs with
  | [] => ([], st)
  | e :: rest =>
      let '(eff, st1) :=
        checkAndSendAlert config (ev_data e) (ev_now e) (ev_success e) st in
      let '(effs, st2) := runEvaluations config rest st1 in
      ((ev_now e, eff) :: effs, st2)
  end.

(** *** The evaluations as the hook runs them

    [checkAndSendAlert] is an async function that the effect calls
    without awaiting it. It runs up to its [await]; the send settles
    later, and only then, and only if it succeeded, the references are
    written. Other readings can be evaluated in between. *)

(** The command an evaluation hands to the messaging layer. *)
Inductive Command :=
| CommandOn (parameter : option string) (value : option Q)
| CommandOff.

(** An evaluation suspended at its [await], with what it captured. *)
Inductive Pending :=
| AwaitOn (now : Z)
| AwaitOff.

(** [checkAndSendAlert] up to its [await]; [None] when it returns
    without sending. *)
Definition beginEvaluation (config : AlertMqttConfig)
    (sensorData : SensorReading) (now : Z) (st : AlertState)
  : option (Command * Pending) :=
  let criticalConditions :=
    detectCriticalConditions sensorData (criticalHealthThreshold config) in
  if hasCritical criticalConditions then
    let timeSinceLastAlert := now - lastAlertTimeRef st in
    if timeSinceLastAlert <? alertCooldown config then None
    else Some (CommandOn (mostSevereParameter criticalConditions)
                         (mostSevereValue criticalConditions),
               AwaitOn now)
  else if wasInCriticalRef st then Some (CommandOff, AwaitOff)
  else None.

(** [checkAndSendAlert] after its [await]: the writes under
    [if (success)], on the references as they are by then. *)
Definition resumeEvaluation (p : Pending) (success : bool)
    (st : AlertState) : AlertState :=
  if success then
    match p with
    | AwaitOn now => {| lastAlertTimeRef := now; wasInCriticalRef := true |}
    | AwaitOff => {| lastAlertTimeRef := lastAlertTimeRef st;
                     wasInCriticalRef := false |}
    end
  else st.

(** The references and the evaluations waiting for their send, oldest
    first. *)
Record HookState := {
  refs : AlertState;
  waiting : list Pending;
}.

(** What happens to the hook: the effect runs for a reading, or the
    send of the [k]-th waiting evaluation settles. *)
Inductive HookEvent :=
| Reading (data : SensorReading) (now : Z)
| Settled (k : nat) (success : bool).

Inductive Observation :=
| Sent (now : Z) (c : Command)
| Quiet (now : Z)
| Confirmed (p : Pending) (success : bool).

Definition hookStep (config : AlertMqttConfig) (ev : HookEvent)
    (h : HookState) : list Observation * HookState :=
  match ev with
  | Reading data now =>
      match beginEvaluation config data now (refs h) with
      | Some (c, p) =>
          ([Sent now c], {| refs := refs h; waiting := waiting h ++ [p] |})
      | None => ([Quiet now], h)
      end
  | Settled k success =>
      match waiting h !! k with
      | Some p =>
          ([Confirmed p success],
           {| refs := resumeEvaluation p success (refs h);
              waiting := delete k (waiting h) |})
      | None => ([], h)
      end
  end.

Fixpoint hookRun (config : AlertMqttConfig) (events : list HookEvent)
    (h : HookState) : list Observation * HookState :=
  match events with
  | [] => ([], h)
  | ev :: rest =>
      let '(o, h1) := hookStep config ev h in
      let '(os, h2) := hookRun config rest h1 in
      (o ++ os, h2)
  end.

(** The schedule in which each send settles before the next reading. *)
Definition sequentialSchedule (evs : list Evaluation) : list HookEvent :=
  flat_map (fun e => [Reading (ev_data e) (ev_now e);
                      Settled 0 (ev_success e)]) evs.

(** What a finished evaluation shows of itself in the log. *)
Definition observe (te : Z * SideEffect) : list Observation :=
  match te with
  | (now, NoEffect) => [Quiet now]
  | (now, SendOn parameter value ok) =>
      [Sent now (CommandOn parameter value); Confirmed (AwaitOn now) ok]
  | (now, SendOff ok) => [Sent now CommandOff; Confirmed AwaitOff ok]
  end.
End Detect.

(** *** Properties of logs of the hook *)

Definition isSentOn (o : Observation) : bool :=
  match o with Sent _ (CommandOn _ _) => true | _ => false end.

Definition countSentOn (log : list Observation) : nat :=
  length (filter (fun o => isSentOn o = true) log).



(** The latch as the confirmed commands of a log leave it: set by a
    confirmed ON, cleared by a confirmed OFF. *)
Fixpoint latchObserved (latched : bool) (log : list Observation) : bool :=
  match log with
  | [] => latched
  | Confirmed (AwaitOn _) true :: rest => latchObserved true rest
  | Confirmed AwaitOff true :: rest => latchObserved false rest
  | _ :: rest => latchObserved latched rest
  end.

(** Every OFF is sent while the latch, as the confirmed commands before
    it leave it, is set. *)
Fixpoint offWhenLatched (latched : bool) (log : list Observation) : bool :=
  match log with
  | [] => true
  | Sent _ CommandOff :: rest => latched && offWhenLatched latched rest
  | Confirmed (AwaitOn _) true :: rest => offWhenLatched true rest
  | Confirmed AwaitOff true :: rest => offWhenLatched false rest
  | _ :: rest => offWhenLatched latched rest
  end.

(** The threshold table of the specification: per parameter a normal
    bound, a warning bound and the side on which values are bad. *)
Inductive Direction := HighIsBad | LowIsBad.

Record Bounds := {
  normalBound : Q;
  warningBound : Q;
  direction : Direction;
}.

(** Modelled from the spec: the default threshold table of
    [lib/thresholds], which is not among the sources. Section 6 gives
    bounds for vibration, surface temperature, bearing temperature and
    power factor only. *)
Definition defaultTable (p : ParameterType) : option Bounds :=
  match p with
  | PVibrationRms => Some {| normalBound := 28 # 10; warningBound := 45 # 10;
                             direction := HighIsBad |}
  | PMotorSurfaceTemp => Some {| normalBound := 70; warningBound := 85;
                                 direction := HighIsBad |}
  | PBearingTemp => Some {| normalBound := 65; warningBound := 80;
                            direction := HighIsBad |}
  | PPowerFactor => Some {| normalBound := 85 # 100; warningBound := 70 # 100;
                            direction := LowIsBad |}
  | _ => None
  end.

(** Modelled from the spec: [getStatusColor] of [lib/thresholds], which
    is not among the sources, as the threshold evaluator of section 4.1
    over the default table. A boundary value belongs to the worse band;
    a parameter without an entry in the table raises no status. *)
Definition specStatus (value : Q) (p : ParameterType) : StatusLevel :=
  match defaultTable p with
  | None => normal
  | Some b =>
      match direction b with
      | HighIsBad =>
          if Qlt_le_dec value (normalBound b) then normal
          else if Qlt_le_dec value (warningBound b) then warning
          else critical
      | LowIsBad =>
          if Qlt_le_dec (normalBound b) value then normal
          else if Qlt_le_dec (warningBound b) value then warning
          else critical
      end
  end.

End AlertMqtt.

(* ===================================================================== *)
(** ** Messaging session ([lib/mqtt.ts]) *)
(* ===================================================================== *)

Module Mqtt.

Definition MAX_RECONNECT_ATTEMPTS : nat := 10.

(** The text logged when a connect request is turned down at the
    ceiling. *)
Definition maxAttemptsMessage : string :=
  "[MQTT] Max reconnection attempts reached. Please refresh the page.".

Inductive Topic := PLC_CONTROL | PLC_STATUS.

(** The [mqtt.MqttClient] object: [handle] names the client, by the
    number of the [mqtt.connect] call that made it; [connected] is the
    library's flag, [listening] says whether the handlers installed by
    [connectMqtt] are still attached, [ending] whether [end] was
    requested. A client opens its first transport connection when it is
    made and, being configured with [reconnectPeriod], a new one at each
    reconnection it begins by itself (event [EvReconnect]). *)
Record MqttClient := {
  handle : nat;
  connected : bool;
  listening : bool;
  ending : bool;
}.

Inductive Payload :=
| AlertPayload (timestamp : Z) (alertType : string) (alertValue : option Q)
| OffPayload (timestamp : Z).

(** What the module does to the outside world. *)
Inductive Output :=
| ConnectionChange (callback : nat) (isConnected : bool)
| MessageReceived (callback : nat) (topic : string)
| Subscribe (topic : Topic)
| Publish (transport : nat) (topic : Topic) (payload : Payload)
| ConsoleError (message : string).

(** The module-level variables; [connectCalls] counts the calls of
    [mqtt.connect] made so far, that is the clients made, and names the
    next one. It does not count the transport connections a client
    opens by itself when it reconnects. *)
Record State := {
  client : option MqttClient;
  isConnecting : bool;
  isCleaningUp : bool;
  connectionAttempts : nat;
  onConnectionChange : option nat;
  onMessageReceived : option nat;
  connectCalls : nat;
}.

Definition initialState : State :=
  {| client := None; isConnecting := false; isCleaningUp := false;
     connectionAttempts := 0; onConnectionChange := None;
     onMessageReceived := None; connectCalls := 0 |}.

Definition setClient (c : option MqttClient) (s : State) : State :=
  {| client := c; isConnecting := isConnecting s;
     isCleaningUp := isCleaningUp s;
     connectionAttempts := connectionAttempts s;
     onConnectionChange := onConnectionChange s;
     onMessageReceived := onMessageReceived s;
     connectCalls := connectCalls s |}.

Definition setIsConnecting (b : bool) (s : State) : State :=
  {| client := client s; isConnecting := b;
     isCleaningUp := isCleaningUp s;
     connectionAttempts := connectionAttempts s;
     onConnectionChange := onConnectionChange s;
     onMessageReceived := onMessageReceived s;
     connectCalls := connectCalls s |}.

Definition setIsCleaningUp (b : bool) (s : State) : State :=
  {| client := client s; isConnecting := isConnecting s;
     isCleaningUp := b;
     connectionAttempts := connectionAttempts s;
     onConnectionChange := onConnectionChange s;
     onMessageReceived := onMessageReceived s;
     connectCalls := connectCalls s |}.

Definition setConnectionAttempts (n : nat) (s : State) : State :=
  {| client := client s; isConnecting := isConnecting s;
     isCleaningUp := isCleaningUp s;
     connectionAttempts := n;
     onConnectionChange := onConnectionChange s;
     onMessageReceived := onMessageReceived s;
     connectCalls := connectCalls s |}.

Definition setCallbacks (onConnect onMessage : option nat) (s : State)
  : State :=
  {| client := client s; isConnecting := isConnecting s;
     isCleaningUp := isCleaningUp s;
     connectionAttempts := connectionAttempts s;
     onConnectionChange :=
       match onConnect with
       | Some cb => Some cb
       | None => onConnectionChange s
       end;
     onMessageReceived :=
       match onMessage with
       | Some cb => Some cb
       | None => onMessageReceived s
       end;
     connectCalls := connectCalls s |}.

Definition setConnectCalls (n : nat) (s : State) : State :=
  {| client := client s; isConnecting := isConnecting s;
     isCleaningUp := isCleaningUp s;
     connectionAttempts := connectionAttempts s;
     onConnectionChange := onConnectionChange s;
     onMessageReceived := onMessageReceived s;
     connectCalls := n |}.

(** State and output threading. *)
Definition M (A : Type) : Type := State -> A * State * list Output.

#[export] Instance M_ret : MRet M := fun A a s => (a, s, []).

#[export] Instance M_bind : MBind M := fun A B f m s =>
  let '(a, s1, o1) := m s in
  let '(b, s2, o2) := f a s1 in
  (b, s2, o1 ++ o2).

Definition get : M State := fun s => (s, s, []).
Definition modify (f : State -> State) : M unit := fun s => (tt, f s, []).
Definition emit (o : Output) : M unit := fun s => (tt, s, [o]).
Definition skip : M unit := mret tt.

Definition result {A} (r : A * State * list Output) : A := fst (fst r).
Definition final {A} (r : A * State * list Output) : State := snd (fst r).
Definition outputs {A} (r : A * State * list Output) : list Output := snd r.

(** [onConnectionChange?.(b)] *)
Definition notifyConnection (b : bool) : M unit :=
  s ← get;
  match onConnectionChange s with
  | Some cb => emit (ConnectionChange cb b)
  | None => skip
  end.

(** [client?.connected ?? false] *)
Definition isMqttConnected (s : State) : bool :=
  match client s with
  | Some c => connected c
  | None => false
  end.

Definition getMqttClient (s : State) : option nat := handle <$> client s.

(** [connectMqtt(onConnect, onMessage)]; [throws] says whether
    [mqtt.connect] raises. The handle it returns is the transport's name. *)
Definition connectMqtt (onConnect onMessage : option nat) (throws : bool)
  : M (option nat) :=
  modify (setCallbacks onConnect onMessage);;
  s ← get;
  if isCleaningUp s then mret None
  else
    match client s with
    | Some c =>
        if connected c
        then notifyConnection true;; mret (Some (handle c))
        else mret (Some (handle c))
    | None =>
        if isConnecting s then mret None
        else if Nat.leb MAX_RECONNECT_ATTEMPTS (connectionAttempts s) then
          emit (ConsoleError maxAttemptsMessage);;
          mret None
        else
          modify (setIsConnecting true);;
          modify (setConnectionAttempts (S (connectionAttempts s)));;
          modify (setConnectCalls (S (connectCalls s)));;
          if throws then
            emit (ConsoleError "[MQTT] Failed to create client:");;
            modify (setIsConnecting false);;
            mret None
          else
            let c := {| handle := connectCalls s; connected := false;
                        listening := true; ending := false |} in
            modify (setClient (Some c));;
            mret (Some (handle c))
    end.

(** [disconnectMqtt()]: the teardown completes in the callback of [end],
    event [EvEnd] below. *)
Definition disconnectMqtt : M unit :=
  s ← get;
  match client s with
  | Some c =>
      modify (setIsCleaningUp true);;
      modify (setClient (Some {| handle := handle c; connected := connected c;
                                 listening := false; ending := true |}))
  | None => skip
  end.

(** What the transport library reports on the current client. The
    library updates [connected] itself on [connect] and [close]. *)
Inductive ClientEvent :=
| EvConnect
| EvMessage (topic : string) (parses : bool)
| EvError
| EvClose
| EvReconnect
| EvOffline
| EvEnd.

Definition setConnected (b : bool) (c : MqttClient) : MqttClient :=
  {| handle := handle c; connected := b; listening := listening c;
     ending := ending c |}.

(** The handlers registered by [connectMqtt] with [client.on]. *)
Definition onEvent (e : ClientEvent) : M unit :=
  match e with
  | EvConnect =>
      modify (setIsConnecting false);;
      modify (setConnectionAttempts 0);;
      notifyConnection true;;
      emit (Subscribe PLC_STATUS)
  | EvMessage topic parses =>
      if parses then
        s ← get;
        match onMessageReceived s with
        | Some cb => emit (MessageReceived cb topic)
        | None => skip
        end
      else emit (ConsoleError "[MQTT] Error parsing message:")
  | EvError =>
      emit (ConsoleError "[MQTT] Connection error:");;
      modify (setIsConnecting false)
  | EvClose =>
      modify (setIsConnecting false);;
      s ← get;
      if isCleaningUp s then skip else notifyConnection false
  | EvReconnect =>
      s ← get;
      modify (setConnectionAttempts (S (connectionAttempts s)))
  | EvOffline =>
      s ← get;
      if isCleaningUp s then skip else notifyConnection false
  | EvEnd => skip
  end.

(** The callback passed to [client.end] by [disconnectMqtt]. *)
Definition onEnd : M unit :=
  modify (setClient None);;
  modify (setIsConnecting false);;
  modify (setIsCleaningUp false);;
  notifyConnection false.

Definition clientEvent (e : ClientEvent) : M unit :=
  s ← get;
  match client s with
  | None => skip
  | Some c =>
      match e with
      | EvEnd => if ending c then onEnd else skip
      | _ =>
          (match e with
           | EvConnect =>
               if ending c then skip
               else modify (setClient (Some (setConnected true c)))
           | EvClose => modify (setClient (Some (setConnected false c)))
           | _ => skip
           end);;
          if listening c then onEvent e else skip
      end
  end.

(** [client?.publish(TOPICS.PLC_CONTROL, payloadStr, { qos: 1 }, cb)]:
    [Some err] tells whether the callback is handed an error, [None] that
    there is no client and the callback is never called. *)
Definition publish (payload : Payload) (publishError : bool)
  : M (option bool) :=
  s ← get;
  match client s with
  | Some c =>
      emit (Publish (handle c) PLC_CONTROL payload);;
      mret (Some publishError)
  | None => mret None
  end.

(** [alertType || "CRITICAL"] *)
Definition alertTypeOrDefault (alertType : option string) : string :=
  match alertType with
  | Some t => if String.eqb t "" then "CRITICAL" else t
  | None => "CRITICAL"
  end.

(** [sendAlertPayload]: what it hands to [callback], if it calls it. *)
Definition sendAlertPayload (alertType : option string)
    (alertValue : option Q) (now : Z) (publishError : bool)
  : M (option bool) :=
  err ← publish (AlertPayload (now / 1000) (alertTypeOrDefault alertType)
                   alertValue) publishError;
  match err with
  | Some true =>
      emit (ConsoleError "[MQTT] Failed to publish alert:");;
      mret (Some false)
  | Some false => mret (Some true)
  | None => mret None
  end.

(** One thing that can happen to the session: a call of its interface or
    a report of the transport. *)
Inductive Action :=
| ActConnect (onConnect onMessage : option nat) (throws : bool)
| ActDisconnect
| ActEvent (e : ClientEvent).

Definition perform (a : Action) : M unit :=
  match a with
  | ActConnect onConnect onMessage throws =>
      connectMqtt onConnect onMessage throws;; skip
  | ActDisconnect => disconnectMqtt
  | ActEvent e => clientEvent e
  end.

Fixpoint performAll (acts : list Action) : M unit :=
  match acts with
  | [] => skip
  | a :: rest => perform a;; performAll rest
  end.

(** Several callers asking for the connection one after the other; the
    handles they get. *)
Fixpoint connectAll (calls : list (option nat * option nat))
  : M (list (option nat)) :=
  match calls with
  | [] => mret []
  | (onConnect, onMessage) :: rest =>
      h ← connectMqtt onConnect onMessage false;
      hs ← connectAll rest;
      mret (h :: hs)
  end.

(** What surrounds one call of [sendAlertToPLC]: whether [mqtt.connect]
    raises, what happens during the three-second wait, the clock when
    the timer fires and whether the broker refuses the publish. *)
Record SendEnv := {
  connectThrows : bool;
  during : list Action;
  timerNow : Z;
  publishError : bool;
}.

(** [sendAlertToPLC(alertType, alertValue)]: the value the promise
    resolves to ([None]: it never settles). *)
Definition sendAlertToPLC (alertType : option string)
    (alertValue : option Q) (now : Z) (env : SendEnv) : M (option bool) :=
  s ← get;
  if negb (isMqttConnected s) then
    connectMqtt None None (connectThrows env);;
    performAll (during env);;
    s' ← get;
    if negb (isMqttConnected s') then
      emit (ConsoleError "[MQTT] Failed to connect. Cannot send alert.");;
      mret (Some false)
    else sendAlertPayload alertType alertValue (timerNow env) (publishError env)
  else sendAlertPayload alertType alertValue now (publishError env).

(** [sendOffSignalToPLC()]; past the check [client] is not null, so the
    callback of [publish] is always called. *)
Definition sendOffSignalToPLC (now : Z) (publishErr : bool) : M bool :=
  s ← get;
  if negb (isMqttConnected s) then
    emit (ConsoleError "[MQTT] Not connected. Cannot send OFF signal.");;
    mret false
  else
    err ← publish (OffPayload (now / 1000)) publishErr;
    match err with
    | Some false => mret true
    | _ =>
        emit (ConsoleError "[MQTT] Failed to publish OFF signal:");;
        mret false
    end.

(** The session is Connected when the transport reports so and no
    teardown is under way. *)
Definition sessionConnected (s : State) : Prop :=
  isMqttConnected s = true /\ isCleaningUp s = false.

(** The state of a session that has given up: no client object, and the
    attempt counter at or above the ceiling. *)
Definition gaveUp (s : State) : Prop :=
  client s = None /\ isConnecting s = false /\ isCleaningUp s = false
  /\ (MAX_RECONNECT_ATTEMPTS <= connectionAttempts s)%nat.

Definition isPublish (o : Output) : bool :=
  match o with Publish _ _ _ => true | _ => false end.

Definition isStatus (o : Output) : bool :=
  match o with ConnectionChange _ _ => true | _ => false end.

End Mqtt.

(* ===================================================================== *)
(** ** Prediction endpoint ([app/api/ml/predict/route.ts]) *)
(* ===================================================================== *)

Module Predict.

(** A parsed JSON document. *)
#[local] Unset Elimination Schemes.
Inductive Json :=
| JNull
| JBool (b : bool)
| JNum (n : Q)
| JStr (s : string)
| JArr (items : list Json)
| JObj (fields : list (string * Json)).
#[local] Set Elimination Schemes.

(** A JavaScript value read out of one: [None] is [undefined]. *)
Definition JsValue : Type := option Json.

Definition truthy (v : JsValue) : bool :=
  match v with
  | None => false
  | Some JNull => false
  | Some (JBool b) => b
  | Some (JNum n) => negb (Qeq_bool n 0)
  | Some (JStr s) => negb (String.eqb s "")
  | Some (JArr _) => true
  | Some (JObj _) => true
  end.

Fixpoint lookupField (key : string) (fields : list (string * Json))
  : JsValue :=
  match fields with
  | [] => None
  | (k, v) :: rest =>
      (* a later duplicate of a key overrides an earlier one *)
      match lookupField key rest with
      | Some v' => Some v'
      | None => if String.eqb k key then Some v else None
      end
  end.

(** Computations that may throw; the payload is [error.message]. *)
Definition Throws (A : Type) : Type := string + A.

#[export] Instance Throws_ret : MRet Throws := fun A a => inr a.

#[export] Instance Throws_bind : MBind Throws := fun A B f m =>
  match m with
  | inl message => inl message
  | inr a => f a
  end.

(** [v.key]: a [TypeError] on [undefined] and [null], [undefined] on a
    value without that property. *)
Definition getProp (v : JsValue) (key : string) : Throws JsValue :=
  match v with
  | None => inl "Cannot read properties of undefined"
  | Some JNull => inl "Cannot read properties of null"
  | Some (JObj fields) => inr (lookupField key fields)
  | Some _ => inr None
  end.

Record VibrationReading := {
  vibration_rms : Q;
  timestamp : option Z;
}.

Record SensorData := {
  gridVoltage : option Q;
  motorCurrent : option Q;
  power : option Q;
  powerFactor : option Q;
  gridFrequency : option Q;
  vibrationRms : option Q;
  motorSurfaceTemp : option Q;
  bearingTemp : option Q;
  dustDensity : option Q;
}.

(** A well-typed request body. *)
Record Body := {
  vibrationReadings : option (list VibrationReading);
  sensorData : option SensorData;
}.

(** [sensorData?.field] for every field. *)
Definition sensorFields (sd : option SensorData) : SensorData :=
  {| gridVoltage := sd ≫= gridVoltage;
     motorCurrent := sd ≫= motorCurrent;
     power := sd ≫= power;
     powerFactor := sd ≫= powerFactor;
     gridFrequency := sd ≫= gridFrequency;
     vibrationRms := sd ≫= vibrationRms;
     motorSurfaceTemp := sd ≫= motorSurfaceTemp;
     bearingTemp := sd ≫= bearingTemp;
     dustDensity := sd ≫= dustDensity |}.

(** What [fetch] to the predictor service does: it rejects (unreachable,
    timeout), or it answers with a status and a body that is a JSON
    document or not. *)
Inductive MlService :=
| FetchRejects (message : option string)
| FetchAnswers (ok : bool) (status : Z) (body : Throws Json).

(** The value of [mlServiceError]. *)
Inductive ServiceError :=
| ErrorDetail (detail : Json)
| ErrorStatus (status : Z)
| ErrorMessage (message : string)
| ErrorNotEnoughReadings.

Record Classification := {
  willFailSoon : JsValue;
  failureProbability : JsValue;
  confidence : JsValue;
  thresholdMinutes : JsValue;
}.

Record Regression := {
  minutesToFailure : JsValue;
  hoursToFailure : JsValue;
  status : JsValue;
}.

Record MlPrediction := {
  classification : Classification;
  regression : Regression;
  readingsUsed : JsValue;
}.

Section Endpoint.
(** The result type and the function of [lib/calculateHealthScore], not
    among the sources. *)
Variable HealthScore : Type.
Variable calculateHealthScore : SensorData -> HealthScore.

Inductive Response :=
| Success (healthScore : HealthScore) (mlPrediction : option MlPrediction)
          (mlServiceStatus : string) (mlServiceError : option ServiceError)
| InternalServerError (details : string).

(** The [try] block around the call of the predictor: the values of
    [mlPrediction] and [mlServiceError] after it. *)
Definition callMlService (ml : MlService) : JsValue * option ServiceError :=
  match ml with
  | FetchRejects (Some message) => (None, Some (ErrorMessage message))
  | FetchRejects None => (None, Some (ErrorMessage "ML service unavailable"))
  | FetchAnswers true _ (inr doc) => (Some doc, None)
  | FetchAnswers true _ (inl message) => (None, Some (ErrorMessage message))
  | FetchAnswers false status body =>
      (* [await mlResponse.json().catch(() => ({}))] *)
      let errorData := match body with inr doc => doc | inl _ => JObj [] end in
      match getProp (Some errorData) "detail" with
      | inl message => (None, Some (ErrorMessage message))
      | inr detail =>
          match detail with
          | Some d => if truthy detail
                      then (None, Some (ErrorDetail d))
                      else (None, Some (ErrorStatus status))
          | None => (None, Some (ErrorStatus status))
          end
      end
  end.

(** The [mlPrediction ? { ... } : null] argument of the response. *)
Definition convertPrediction (mlPrediction : JsValue)
  : Throws (option MlPrediction) :=
  if truthy mlPrediction then
    c ← getProp mlPrediction "classification";
    c1 ← getProp c "will_fail_soon";
    c2 ← getProp c "failure_probability";
    c3 ← getProp c "confidence";
    c4 ← getProp c "threshold_minutes";
    r ← getProp mlPrediction "regression";
    r1 ← getProp r "minutes_to_failure";
    r2 ← getProp r "hours_to_failure";
    r3 ← getProp r "status";
    u ← getProp mlPrediction "readings_used";
    mret (Some {| classification :=
                   {| willFailSoon := c1; failureProbability := c2;
                      confidence := c3; thresholdMinutes := c4 |};
                 regression :=
                   {| minutesToFailure := r1; hoursToFailure := r2;
                      status := r3 |};
                 readingsUsed := u |})
  else mret None.

(** [POST]: [request] is what [request.json()] gives. [Success] stands
    for the body with [success: true] (its [timestamp] is left out),
    [InternalServerError] for the answer with status 500. *)
Definition POST (request : Throws Body) (ml : MlService) : Response :=
  match request with
  | inl message => InternalServerError message
  | inr body =>
      let healthResult := calculateHealthScore (sensorFields (sensorData body)) in
      let readings := default [] (vibrationReadings body) in
      let '(mlPrediction, mlServiceError) :=
        if Nat.leb 1 (length readings) then callMlService ml
        else (None, Some ErrorNotEnoughReadings) in
      match convertPrediction mlPrediction with
      | inl message => InternalServerError message
      | inr prediction =>
          Success healthResult prediction
                  (if truthy mlPrediction then "available" else "unavailable")
                  mlServiceError
      end
  end.
End Endpoint.

End Predict.

(* ===================================================================== *)
(** ** Reference definitions, in the words of the specification *)
(* ===================================================================== *)

Module Reference.
Import Diagnosis.

(** Per-symptom contribution: fuzzy value of the answer times the expert
    certainty factor, for a symptom that was answered; the product is
    the one of JavaScript numbers. *)
Definition contribution (symptoms : list Symptom)
    (answers : gmap nat FuzzyLevel) (sid : nat) : option Q :=
  match answers !! sid, expertCF symptoms sid with
  | Some a, Some e => Some (JsNumber.mul (fuzzyLevelToValue a) e)
  | _, _ => None
  end.

(** The same with an unanswered symptom read as the answer "No". *)
Definition contributionNoDefault (symptoms : list Symptom)
    (answers : gmap nat FuzzyLevel) (sid : nat) : option Q :=
  match expertCF symptoms sid with
  | Some e =>
      Some (JsNumber.mul (fuzzyLevelToValue (default No (answers !! sid))) e)
  | None => None
  end.

Definition isMaximum (m : Q) (xs : list Q) : Prop :=
  m ∈ xs /\ forall x, x ∈ xs -> (x <= m)%Q.

Definition isMinimum (m : Q) (xs : list Q) : Prop :=
  m ∈ xs /\ forall x, x ∈ xs -> (m <= x)%Q.

Definition sumQ (xs : list Q) : Q := fold_right Qplus 0%Q xs.

Definition average (xs : list Q) : Q :=
  (sumQ xs / inject_Z (Z.of_nat (length xs)))%Q.

(** [x] rounded to [digits] decimals: a multiple [n / 10^digits] within
    half a unit of the last place, the upper one on a tie. *)
Definition roundedTo (digits : nat) (x r : Q) : Prop :=
  exists n : Z,
    (r == n # Z.to_pos (10 ^ Z.of_nat digits))%Q /\
    (x * inject_Z (10 ^ Z.of_nat digits) - (1 # 2) < inject_Z n)%Q /\
    (inject_Z n <= x * inject_Z (10 ^ Z.of_nat digits) + (1 # 2))%Q.

(** [r] is [x] to [digits] decimals, to the nearest: a multiple
    [n / 10^digits] within half a unit of the last place; on a tie
    either neighbour. *)
Definition nearestTo (digits : nat) (x r : Q) : Prop :=
  exists n : Z,
    (r == n # Z.to_pos (10 ^ Z.of_nat digits))%Q /\
    (Qabs (x * inject_Z (10 ^ Z.of_nat digits) - inject_Z n) <= 1 # 2)%Q.

Definition severityScores (data : list DiagnosisResult) : list Q :=
  map (fun r => levelScore (d_level r)) data.

(** The individual parameters of a reading that are present and
    Critical, in the evaluation order. *)
Definition criticalParameters
    (getStatusColor : Q -> AlertMqtt.ParameterType -> AlertMqtt.StatusLevel)
    (data : AlertMqtt.SensorReading) : list (AlertMqtt.ParameterType * Q) :=
  omap (fun p =>
          match AlertMqtt.field data p with
          | Some v =>
              if AlertMqtt.isCriticalLevel (getStatusColor v p)
              then Some (p, v) else None
          | None => None
          end) AlertMqtt.parametersToCheck.

End Reference.

(* ===================================================================== *)
(** ** Concrete scenarios *)
(* ===================================================================== *)

Module Scenarios.

(** *** Diagnosis: two symptoms with expert factors 0.8 and 0.6 *)
Definition exampleSymptoms : list Diagnosis.Symptom :=
  [ {| Diagnosis.s_id := 1; Diagnosis.cfExpert := 8 # 10 |};
    {| Diagnosis.s_id := 2; Diagnosis.cfExpert := 6 # 10 |} ].

Definition exampleAnswers : gmap nat Diagnosis.FuzzyLevel :=
  <[1%nat := Diagnosis.Yes]> (<[2%nat := Diagnosis.Yes]> ∅).

Definition exampleRule (op : Diagnosis.Operator) : Diagnosis.Rule :=
  {| Diagnosis.r_id := "R1";
     Diagnosis.r_symptoms := [1%nat; 2%nat];
     Diagnosis.operator := op;
     Diagnosis.level := Diagnosis.B;
     Diagnosis.damage := "bearing wear";
     Diagnosis.solution := "replace the bearing" |}.

(** Only symptom 1 is answered. *)
Definition partialAnswers : gmap nat Diagnosis.FuzzyLevel :=
  <[1%nat := Diagnosis.Yes]> ∅.

Definition resultOfLevel (l : Diagnosis.Level) : Diagnosis.DiagnosisResult :=
  {| Diagnosis.id := "R"; Diagnosis.d_level := l;
     Diagnosis.d_damage := "damage"; Diagnosis.d_solution := "solution";
     Diagnosis.cfRule := 1 |}.

(** Six Minor results and one Moderate result: average 310/7. *)
Definition sevenResults : list Diagnosis.DiagnosisResult :=
  replicate 6 (resultOfLevel Diagnosis.A) ++ [resultOfLevel Diagnosis.B].

(** *** Alert dispatcher: vibration 5.0 mm/s and health index 50 *)
Definition vibratingReading : AlertMqtt.SensorReading :=
  {| AlertMqtt.gridVoltage := None; AlertMqtt.motorCurrent := None;
     AlertMqtt.powerFactor := None; AlertMqtt.gridFrequency := None;
     AlertMqtt.motorSurfaceTemp := Some 60%Q; AlertMqtt.bearingTemp := None;
     AlertMqtt.vibrationRms := Some 5%Q; AlertMqtt.dustDensity := None;
     AlertMqtt.healthIndex := Some 50%Q |}.

Definition criticalAt (now : Z) : AlertMqtt.Evaluation :=
  {| AlertMqtt.ev_data := vibratingReading; AlertMqtt.ev_now := now;
     AlertMqtt.ev_success := true |}.

(** *** Messaging session *)

(** A session whose broker acknowledged the connection. *)
Definition connectedSession : Mqtt.State :=
  Mqtt.final (Mqtt.performAll
                [Mqtt.ActConnect (Some 1%nat) (Some 2%nat) false;
                 Mqtt.ActEvent Mqtt.EvConnect] Mqtt.initialState).

(** A session whose broker never answers: the client exists and has
    begun ten reconnections. *)
Definition retryingSession : Mqtt.State :=
  Mqtt.final (Mqtt.performAll
                (Mqtt.ActConnect (Some 1%nat) (Some 2%nat) false
                 :: replicate 10 (Mqtt.ActEvent Mqtt.EvReconnect))
                Mqtt.initialState).

(** The same after a manual teardown: no client is left. *)
Definition tornDownSession : Mqtt.State :=
  Mqtt.final (Mqtt.performAll
                [Mqtt.ActDisconnect; Mqtt.ActEvent Mqtt.EvEnd]
                retryingSession).

(** The broker answers during the three-second wait of an alert. *)
Definition brokerAnswersInTime : Mqtt.SendEnv :=
  {| Mqtt.connectThrows := false;
     Mqtt.during := [Mqtt.ActEvent Mqtt.EvConnect];
     Mqtt.timerNow := 1003000;
     Mqtt.publishError := false |}.

Definition brokerSilent : Mqtt.SendEnv :=
  {| Mqtt.connectThrows := false;
     Mqtt.during := [];
     Mqtt.timerNow := 1003000;
     Mqtt.publishError := false |}.

(** *** Prediction endpoint *)

(** A request with one vibration reading and no sensor data. *)
Definition oneReading : Predict.Body :=
  {| Predict.vibrationReadings :=
       Some [ {| Predict.vibration_rms := 5; Predict.timestamp := None |} ];
     Predict.sensorData := None |}.

(** The predictor answers 200 with a document of the wrong shape. *)
Definition emptyDocument : Predict.MlService :=
  Predict.FetchAnswers true 200 (inr (Predict.JObj [])).

Definition unreachable : Predict.MlService :=
  Predict.FetchRejects (Some "fetch failed"%string).

End Scenarios.

(* ===================================================================== *)
(** ** Further parts of the sources *)
(* ===================================================================== *)

(** *** Effect traces of the dispatcher *)

Module AlertTrace.
Import AlertMqtt.

(** [data.healthIndex !== undefined && data.healthIndex < healthThreshold]
    as a proposition. *)
Definition healthCritical (data : SensorReading) (healthThreshold : Q)
  : Prop :=
  exists h, healthIndex data = Some h /\ (h < healthThreshold)%Q.

End AlertTrace.

(** *** The AI center page: vibration history and prediction request
    ([app/ai-center/page.tsx]) *)

Module AiCenter.

(** What the page reads of [snapshot.val()]. *)
Record Snapshot := {
  vibration_rms_mm_s : option Q;
  snapshotTimestamp : option Z;
}.

Record VibrationHistory := {
  vibration_rms : Q;
  timestamp : Z;
}.

(** [xs.slice(-n)] *)
Definition sliceLast {A : Type} (n : nat) (xs : list A) : list A :=
  drop (length xs - n) xs.

(** [data.timestamp || Date.now()] *)
Definition timestampOrNow (t : option Z) (now : Z) : Z :=
  match t with
  | Some t => if Z.eqb t 0 then now else t
  | None => now
  end.

(** The [onValue] listener's update of [vibrationHistory]. *)
Definition onSensorValue (data : option Snapshot) (now : Z)
    (prev : list VibrationHistory) : list VibrationHistory :=
  match data with
  | Some d =>
      match vibration_rms_mm_s d with
      | Some v =>
          let newReading :=
            {| vibration_rms := v;
               timestamp := timestampOrNow (snapshotTimestamp d) now |} in
          sliceLast 50 (prev ++ [newReading])
      | None => prev
      end
  | None => prev
  end.

(** The listener over a sequence of snapshots, each with its clock. *)
Definition onSensorValues (events : list (option Snapshot * Z))
    (history : list VibrationHistory) : list VibrationHistory :=
  fold_left (fun h e => onSensorValue (fst e) (snd e) h) events history.

Definition toReading (h : VibrationHistory) : Predict.VibrationReading :=
  {| Predict.vibration_rms := vibration_rms h;
     Predict.timestamp := Some (timestamp h) |}.

(** The body [runPrediction] posts to [/api/ml/predict]. *)
Definition requestBody (vibrationHistory : list VibrationHistory)
    (latestSensorData : option Predict.SensorData) : Predict.Body :=
  {| Predict.vibrationReadings :=
       if Nat.ltb 0 (length vibrationHistory)
       then Some (map toReading vibrationHistory)
       else None;
     Predict.sensorData := latestSensorData |}.

(** [runPrediction]: the new value of [predictionResult]. [apiReachable]
    says whether the request to the endpoint itself goes through. *)
Definition runPrediction (HealthScore : Type)
    (calculateHealthScore : Predict.SensorData -> HealthScore)
    (apiReachable : bool) (ml : Predict.MlService)
    (vibrationHistory : list VibrationHistory)
    (latestSensorData : option Predict.SensorData)
    (predictionResult : option (Predict.Response HealthScore))
  : option (Predict.Response HealthScore) :=
  if apiReachable then
    match Predict.POST HealthScore calculateHealthScore
            (inr (requestBody vibrationHistory latestSensorData)) ml with
    | Predict.Success _ _ _ _ _ as result => Some result
    | Predict.InternalServerError _ _ => predictionResult
    end
  else predictionResult.

(** The entry a snapshot adds to the history, if any. *)
Definition newReadingOf (event : option Snapshot * Z)
  : option VibrationHistory :=
  match fst event with
  | Some d =>
      match vibration_rms_mm_s d with
      | Some v =>
          Some {| vibration_rms := v;
                  timestamp := timestampOrNow (snapshotTimestamp d)
                                 (snd event) |}
      | None => None
      end
  | None => None
  end.

End AiCenter.

(** *** Shapes of predictor answers *)

Module PredictShape.
Import Predict.

(** [v === undefined || v === null] *)
Definition nullish (v : JsValue) : bool :=
  match v with
  | None => true
  | Some JNull => true
  | Some _ => false
  end.

(** [v.key] for a value that is neither [undefined] nor [null]. *)
Definition member (v : JsValue) (key : string) : JsValue :=
  match v with
  | Some (JObj fields) => lookupField key fields
  | _ => None
  end.

(** The prediction the endpoint builds from a document whose
    [classification] and [regression] members can be read. *)
Definition predictionOf (doc : Json) : MlPrediction :=
  let c := member (Some doc) "classification" in
  let r := member (Some doc) "regression" in
  {| classification :=
       {| willFailSoon := member c "will_fail_soon";
          failureProbability := member c "failure_probability";
          confidence := member c "confidence";
          thresholdMinutes := member c "threshold_minutes" |};
     regression :=
       {| minutesToFailure := member r "minutes_to_failure";
          hoursToFailure := member r "hours_to_failure";
          status := member r "status" |};
     readingsUsed := member (Some doc) "readings_used" |}.

End PredictShape.

(** *** The stable client identifier ([lib/mqtt.ts]) *)

Module ClientId.

Definition storageKey : string := "mqtt_client_id".

(** [getStableClientId()]: [storage] is [sessionStorage] ([None] where
    there is no [window]), [clock] and [random] the base-36 texts of
    [Date.now()] and of the random suffix. *)
Definition getStableClientId (storage : option (gmap string string))
    (clock random : string) : string * option (gmap string string) :=
  match storage with
  | Some items =>
      let fresh := ("mechasense-web-" ++ clock ++ "-" ++ random)%string in
      match items !! storageKey with
      | Some clientId =>
          if String.eqb clientId ""
          then (fresh, Some (<[storageKey := fresh]> items))
          else (clientId, Some items)
      | None => (fresh, Some (<[storageKey := fresh]> items))
      end
  | None => (("mechasense-server-" ++ clock)%string, None)
  end.

(** [sessionStorage.removeItem('mqtt_client_id')] of the hook's
    [reconnect]. *)
Definition removeClientId (storage : option (gmap string string))
  : option (gmap string string) :=
  delete storageKey <$> storage.

End ClientId.

(** *** The hook's connection management ([hooks/useAlertMqtt.ts]) *)

Module Hook.
Import Mqtt.

(** The two callbacks the hook hands to [connectMqtt]. *)
Definition connectionCallback : nat := 1.
Definition messageCallback : nat := 2.

(** The mount effect: the new value of [isInitializedRef]. The display
    state [mqttConnected] is left out. *)
Definition mountEffect (enabled throws : bool) (isInitializedRef : bool)
  : M bool :=
  if negb enabled then mret isInitializedRef
  else if isInitializedRef then mret true
  else
    connectMqtt (Some connectionCallback) (Some messageCallback) throws;;
    mret true.

Fixpoint mountEffects (runs : list (bool * bool)) (isInitializedRef : bool)
  : M bool :=
  match runs with
  | [] => mret isInitializedRef
  | (enabled, throws) :: rest =>
      i ← mountEffect enabled throws isInitializedRef;
      mountEffects rest i
  end.

(** [reconnect]: [disconnectMqtt()], then after one second
    [connectMqtt(callback)]; [during] is what happens to the session in
    that second. The handle the connect request returns. *)
Definition reconnect (during : list Action) (throws : bool)
  : M (option nat) :=
  disconnectMqtt;;
  performAll during;;
  connectMqtt (Some connectionCallback) None throws.

End Hook.

(** *** Consistency of the session's variables *)

Module SessionState.
Import Mqtt.

(** The cleanup flag is set exactly while a client awaits the end of its
    teardown; a client's handlers are attached exactly while it is not
    being torn down, and its transport is one that was opened; an attempt
    is in progress only while a client exists. *)
Definition consistent (s : State) : Prop :=
  (isCleaningUp s = true <-> exists c, client s = Some c /\ ending c = true)
  /\ (forall c, client s = Some c ->
        (handle c < connectCalls s)%nat /\ listening c = negb (ending c))
  /\ (isConnecting s = true -> exists c, client s = Some c).

(** A session whose transport keeps failing: one connect request and [k]
    reconnections begun by the library. *)
Definition afterRetries (k : nat) : State :=
  final (performAll (ActConnect (Some Hook.connectionCallback)
                       (Some Hook.messageCallback) false
                     :: replicate k (ActEvent EvReconnect)) initialState).

(** The reconnections the transport library begins among its reports. *)
Definition isReconnect (e : ClientEvent) : bool :=
  match e with EvReconnect => true | _ => false end.

Definition reconnections (evs : list ClientEvent) : nat :=
  length (filter (fun e => isReconnect e = true) evs).

(** The report that the ceiling of attempts is reached. *)
Definition isMaxAttemptsError (o : Output) : bool :=
  match o with
  | ConsoleError message => String.eqb message maxAttemptsMessage
  | _ => false
  end.

(** A session whose client exists and is kept: its handlers are
    attached and no teardown was asked for. *)
Definition keepsClient (n : nat) (s : State) : Prop :=
  isCleaningUp s = false
  /\ exists c, client s = Some c /\ handle c = n
               /\ listening c = true /\ ending c = false.

End SessionState.

(** *** Dashboard ([app/dashboard/page.tsx],
    [components/TemperaturePanel.tsx]) *)

Module Dashboard.

(** [getMotorStatus(healthScore)] *)
Definition getMotorStatus (healthScore : option Q) : string :=
  match healthScore with
  | None => "Normal"
  | Some h =>
      if Qeq_bool h 0 then "Normal"
      else if Qle_bool 80 h then "Normal"
      else if Qle_bool 60 h then "Perlu Inspeksi"
      else "Kritikal"
  end.

(** [Math.max(a, b)] and [Math.min(a, b)] *)
Definition Math_max2 (a b : Q) : Q := if Qlt_le_dec a b then b else a.
Definition Math_min2 (a b : Q) : Q := if Qlt_le_dec b a then b else a.

(** [typeof t === 'number' && !isNaN(t) ? t : 0]; [None] stands for a
    value that is not a number. *)
Definition safeTemp (t : option Q) : Q := default 0%Q t.

(** The width of the progress bar, in percent:
    [Math.min(Math.max((t / 100) * 100, 0), 100)]. *)
Definition progressWidth (t : option Q) : Q :=
  Math_min2
    (Math_max2 (JsNumber.mul (JsNumber.div (safeTemp t) 100) 100) 0) 100.

End Dashboard.

(** *** Scenarios for the parts above *)

Module MoreScenarios.

Definition normalReading : AlertMqtt.SensorReading :=
  {| AlertMqtt.gridVoltage := None; AlertMqtt.motorCurrent := None;
     AlertMqtt.powerFactor := None; AlertMqtt.gridFrequency := None;
     AlertMqtt.motorSurfaceTemp := Some 60%Q; AlertMqtt.bearingTemp := None;
     AlertMqtt.vibrationRms := Some 1%Q; AlertMqtt.dustDensity := None;
     AlertMqtt.healthIndex := Some 90%Q |}.

Definition evaluation (data : AlertMqtt.SensorReading) (now : Z)
    (success : bool) : AlertMqtt.Evaluation :=
  {| AlertMqtt.ev_data := data; AlertMqtt.ev_now := now;
     AlertMqtt.ev_success := success |}.

Definition latchedAt (t : Z) : AlertMqtt.AlertState :=
  {| AlertMqtt.lastAlertTimeRef := t; AlertMqtt.wasInCriticalRef := true |}.

(** A predictor answer of the agreed shape. *)
Definition goodDocument : Predict.Json :=
  Predict.JObj
    [("classification",
      Predict.JObj [("will_fail_soon", Predict.JBool true);
                    ("failure_probability", Predict.JNum (9 # 10));
                    ("confidence", Predict.JStr "high");
                    ("threshold_minutes", Predict.JNum 30)]);
     ("regression",
      Predict.JObj [("minutes_to_failure", Predict.JNum 12);
                    ("hours_to_failure", Predict.JNum (2 # 10));
                    ("status", Predict.JStr "Critical")]);
     ("readings_used", Predict.JNum 1)].

(** A symptom catalog with factors in the unit interval. *)
Definition unitSymptoms : list Diagnosis.Symptom :=
  [ {| Diagnosis.s_id := 1; Diagnosis.cfExpert := 8 # 10 |};
    {| Diagnosis.s_id := 2; Diagnosis.cfExpert := 6 # 10 |};
    {| Diagnosis.s_id := 3; Diagnosis.cfExpert := 1 |} ].

Definition mixedAnswers : gmap nat Diagnosis.FuzzyLevel :=
  <[1%nat := Diagnosis.Yes]> (<[2%nat := Diagnosis.No]> ∅).

Definition ruleOf (name : string) (sids : list nat)
    (op : Diagnosis.Operator) (l : Diagnosis.Level) : Diagnosis.Rule :=
  {| Diagnosis.r_id := name;
     Diagnosis.r_symptoms := sids;
     Diagnosis.operator := op;
     Diagnosis.level := l;
     Diagnosis.damage := "damage";
     Diagnosis.solution := "solution" |}.

(** Three snapshots: with a timestamp, without a vibration value,
    without a timestamp. *)
Definition threeSnapshots : list (option AiCenter.Snapshot * Z) :=
  [ (Some {| AiCenter.vibration_rms_mm_s := Some (12 # 10);
             AiCenter.snapshotTimestamp := Some 1700000000000 |}, 5);
    (Some {| AiCenter.vibration_rms_mm_s := None;
             AiCenter.snapshotTimestamp := Some 1700000001000 |}, 6);
    (Some {| AiCenter.vibration_rms_mm_s := Some (31 # 10);
             AiCenter.snapshotTimestamp := None |}, 7) ].

(** A connected client on transport 0. *)
Definition liveClient : Mqtt.MqttClient :=
  {| Mqtt.handle := 0; Mqtt.connected := true;
     Mqtt.listening := true; Mqtt.ending := false |}.

Definition storedItems : gmap string string :=
  <["theme" := "dark"]> ∅.

(** *** Diagnosis: an expert factor whose product lies next to a tie *)

(** The factor 0.29 answered "Sometimes": the product of the doubles is
    just below 0.145. *)
Definition tieSymptoms : list Diagnosis.Symptom :=
  [ {| Diagnosis.s_id := 1; Diagnosis.cfExpert := 29 # 100 |} ].

Definition tieAnswers : gmap nat Diagnosis.FuzzyLevel :=
  <[1%nat := Diagnosis.Sometimes]> ∅.

Definition tieRule : Diagnosis.Rule :=
  {| Diagnosis.r_id := "R7";
     Diagnosis.r_symptoms := [1%nat];
     Diagnosis.operator := Diagnosis.OR;
     Diagnosis.level := Diagnosis.A;
     Diagnosis.damage := "loose mounting";
     Diagnosis.solution := "tighten the mounting" |}.

(** Five results of level A and three of level B: average 51.25. *)
Definition eightResults : list Diagnosis.DiagnosisResult :=
  replicate 5 (Scenarios.resultOfLevel Diagnosis.A)
  ++ replicate 3 (Scenarios.resultOfLevel Diagnosis.B).

(** *** Messaging session: a broker that never answers *)

(** The session after its first connect request. *)
Definition firstAttempt : Mqtt.State :=
  Mqtt.final (Mqtt.perform
                (Mqtt.ActConnect (Some Hook.connectionCallback)
                   (Some Hook.messageCallback) false)
                Mqtt.initialState).

(** [k] failed reconnections as the library reports them. *)
Definition retryCycles (k : nat) : list Mqtt.ClientEvent :=
  concat (replicate k [Mqtt.EvReconnect; Mqtt.EvError; Mqtt.EvClose]).

End MoreScenarios.

(* ===================================================================== *)
(** ** Rounding to binary64 *)
(* ===================================================================== *)

Section Binary64.
Import JsNumber.
Local Open Scope Q_scope.

Lemma pow2_pos (e : Z) : 0 < 2 ^ e.
Proof. by apply Qpower_0_lt. Qed.

Lemma pow2_plus (a b : Z) : 2 ^ (a + b) == 2 ^ a * 2 ^ b.
Proof. by apply Qpower_plus. Qed.

Lemma pow2_le (a b : Z) : (a <= b)%Z -> 2 ^ a <= 2 ^ b.
Proof. intros H. by apply Qpower_le_compat_l. Qed.

Lemma pow2_lt_inv (a b : Z) : 2 ^ a < 2 ^ b -> (a < b)%Z.
Proof. intros H. by apply (Qpower_lt_compat_l_inv 2). Qed.

Lemma pow2_Z (n : Z) : (0 <= n)%Z -> inject_Z (2 ^ n) == 2 ^ n.
Proof. intros H. by rewrite Zpower_Qpower. Qed.

Lemma pow2_succ (a : Z) : 2 ^ (a + 1) == 2 * 2 ^ a.
Proof. rewrite pow2_plus. change (2 ^ 1) with 2. ring. Qed.

(** Dividing and multiplying by a power of two. *)
Lemma scale_le (x y : Q) (e : Z) : x <= y -> x / 2 ^ e <= y / 2 ^ e.
Proof.
  intros H. pose proof (pow2_pos e).
  apply Qle_shift_div_l; [done|].
  assert (Heq : x / 2 ^ e * 2 ^ e == x) by (field; lra).
  by rewrite Heq.
Qed.

Lemma scale_back (x : Q) (e : Z) : x / 2 ^ e * 2 ^ e == x.
Proof. pose proof (pow2_pos e). field. lra. Qed.

Lemma ilog2_spec (x : Q) :
  0 < x -> 2 ^ ilog2 x <= x /\ x < 2 ^ (ilog2 x + 1).
Proof.
  intros Hx. destruct x as [p q]. unfold ilog2. cbn [Qnum Qden].
  assert (Hp : (0 < p)%Z).
  { unfold Qlt in Hx. cbn in Hx. lia. }
  set (a := Z.log2 p). set (b := Z.log2 (Z.pos q)).
  destruct (Z.log2_spec p Hp) as [Hpa Hpb]. fold a in Hpa, Hpb.
  destruct (Z.log2_spec (Z.pos q) ltac:(lia)) as [Hqa Hqb].
  fold b in Hqa, Hqb.
  assert (Ha : (0 <= a)%Z) by apply Z.log2_nonneg.
  assert (Hb : (0 <= b)%Z) by apply Z.log2_nonneg.
  assert (Hx' : p # q == inject_Z p / inject_Z (Z.pos q))
    by apply Qmake_Qdiv.
  assert (Hq0 : 0 < inject_Z (Z.pos q)).
  { change 0 with (inject_Z 0). rewrite <- Zlt_Qlt. lia. }
  (* bounds of numerator and denominator as rationals *)
  assert (Hpa' : 2 ^ a <= inject_Z p).
  { rewrite <- pow2_Z by done. by rewrite <- Zle_Qle. }
  assert (Hpb' : inject_Z p < 2 ^ (a + 1)).
  { rewrite <- pow2_Z by lia. rewrite <- Zlt_Qlt.
    by replace (a + 1)%Z with (Z.succ a) by lia. }
  assert (Hqa' : 2 ^ b <= inject_Z (Z.pos q)).
  { rewrite <- pow2_Z by done. by rewrite <- Zle_Qle. }
  assert (Hqb' : inject_Z (Z.pos q) < 2 ^ (b + 1)).
  { rewrite <- pow2_Z by lia. rewrite <- Zlt_Qlt.
    by replace (b + 1)%Z with (Z.succ b) by lia. }
  assert (Hup : p # q < 2 ^ (a - b + 1)).
  { rewrite Hx'. apply Qlt_shift_div_r; [done|].
    apply Qlt_le_trans with (2 ^ (a + 1)); [done|].
    replace (a + 1)%Z with ((a - b + 1) + b)%Z by lia.
    rewrite pow2_plus.
    pose proof (pow2_pos (a - b + 1)). nra. }
  assert (Hlow : 2 ^ (a - b - 1) <= p # q).
  { rewrite Hx'. apply Qle_shift_div_l; [done|].
    apply Qle_trans with (2 ^ a); [|done].
    replace a with ((a - b - 1) + (b + 1))%Z at 2 by lia.
    rewrite pow2_plus.
    pose proof (pow2_pos (a - b - 1)). nra. }
  destruct (Qle_bool (2 ^ (a - b)) (p # q)) eqn:Hle.
  - apply Qle_bool_iff in Hle. by split.
  - split; [done|].
    replace (a - b - 1 + 1)%Z with (a - b)%Z by lia.
    apply Qnot_le_lt. intros H. apply Qle_bool_iff in H. congruence.
Qed.

Lemma ilog2_mono (x y : Q) : 0 < x -> x <= y -> (ilog2 x <= ilog2 y)%Z.
Proof.
  intros Hx Hxy.
  destruct (ilog2_spec x Hx) as [Hlow _].
  destruct (ilog2_spec y ltac:(lra)) as [_ Hup].
  assert (H : 2 ^ ilog2 x < 2 ^ (ilog2 y + 1)) by lra.
  apply pow2_lt_inv in H. lia.
Qed.

Lemma ilog2_proper (x y : Q) : 0 < x -> x == y -> ilog2 x = ilog2 y.
Proof.
  intros Hx Hxy.
  pose proof (ilog2_mono x y Hx ltac:(lra)).
  pose proof (ilog2_mono y x ltac:(lra) ltac:(lra)). lia.
Qed.

Lemma ilog2_below (x : Q) (k : Z) : 0 < x -> x < 2 ^ k -> (ilog2 x < k)%Z.
Proof.
  intros Hx Hk. destruct (ilog2_spec x Hx) as [Hlow _].
  apply pow2_lt_inv. lra.
Qed.

Lemma ilog2_above (x : Q) (k : Z) : 2 ^ k <= x -> (k <= ilog2 x)%Z.
Proof.
  intros Hk. pose proof (pow2_pos k).
  destruct (ilog2_spec x ltac:(lra)) as [_ Hup].
  assert (H' : 2 ^ k < 2 ^ (ilog2 x + 1)) by lra.
  apply pow2_lt_inv in H'. lia.
Qed.

Lemma roundHalfEven_cases (y : Q) :
  let f := Qfloor y in
  (roundHalfEven y = f
   /\ (y - inject_Z f < 1 # 2
       \/ (y - inject_Z f == 1 # 2 /\ Z.even f = true)))
  \/ (roundHalfEven y = (f + 1)%Z
      /\ (1 # 2 < y - inject_Z f
          \/ (y - inject_Z f == 1 # 2 /\ Z.even f = false))).
Proof.
  intros f. unfold roundHalfEven. fold f.
  destruct (Qcompare_spec (y - inject_Z f) (1 # 2)) as [H|H|H].
  - destruct (Z.even f) eqn:He; [left|right]; split; auto.
  - left. split; auto.
  - right. split; auto.
Qed.

Lemma floor_bounds (y : Q) :
  inject_Z (Qfloor y) <= y /\ y < inject_Z (Qfloor y) + 1.
Proof.
  split; [apply Qfloor_le|].
  pose proof (Qlt_floor y) as H. by rewrite inject_Z_plus in H.
Qed.

Lemma roundHalfEven_bounds (y : Q) :
  y - (1 # 2) <= inject_Z (roundHalfEven y)
  /\ inject_Z (roundHalfEven y) <= y + (1 # 2).
Proof.
  destruct (floor_bounds y) as [Hlow Hup].
  destruct (roundHalfEven_cases y) as [[-> H]|[-> H]].
  - split; [|lra]. destruct H as [H|[H _]]; lra.
  - rewrite inject_Z_plus. change (inject_Z 1) with 1.
    split; [lra|]. destruct H as [H|[H _]]; lra.
Qed.

Lemma roundHalfEven_Z (m : Z) : roundHalfEven (inject_Z m) = m.
Proof.
  destruct (roundHalfEven_cases (inject_Z m)) as [[-> H]|[-> H]];
    rewrite Qfloor_Z in *; [done|].
  exfalso. destruct H as [H|[H _]]; lra.
Qed.

Lemma roundHalfEven_mono (x y : Q) :
  x <= y -> (roundHalfEven x <= roundHalfEven y)%Z.
Proof.
  intros Hxy. pose proof (Qfloor_resp_le x y Hxy) as Hfloor.
  destruct (floor_bounds x) as [Hx1 Hx2].
  destruct (floor_bounds y) as [Hy1 Hy2].
  destruct (roundHalfEven_cases x) as [[-> Hx]|[-> Hx]];
    destruct (roundHalfEven_cases y) as [[-> Hy]|[-> Hy]]; try lia.
  destruct (Z.eq_dec (Qfloor x) (Qfloor y)) as [Heq|Hne]; [|lia].
  exfalso. rewrite Heq in Hx.
  destruct Hx as [Hx|[Hx Hxe]], Hy as [Hy|[Hy Hye]]; try lra.
  congruence.
Qed.

Lemma roundHalfEven_proper (x y : Q) :
  x == y -> roundHalfEven x = roundHalfEven y.
Proof.
  intros H.
  pose proof (roundHalfEven_mono x y ltac:(lra)).
  pose proof (roundHalfEven_mono y x ltac:(lra)). lia.
Qed.

Lemma ulpExponent_bound (x : Q) : (-1074 <= ulpExponent x)%Z.
Proof. unfold ulpExponent. lia. Qed.

Lemma ulpExponent_mono (x y : Q) :
  0 < x -> x <= y -> (ulpExponent x <= ulpExponent y)%Z.
Proof.
  intros Hx Hxy. unfold ulpExponent.
  pose proof (Qabs_pos x ltac:(lra)) as Hax.
  pose proof (Qabs_pos y ltac:(lra)) as Hay.
  pose proof (ilog2_mono (Qabs x) (Qabs y) ltac:(lra) ltac:(lra)) as H.
  lia.
Qed.

Lemma binary64_0 : binary64 0 == 0.
Proof. reflexivity. Qed.

Lemma binary64_nonzero (x : Q) :
  ~ x == 0 ->
  binary64 x
  = inject_Z (roundHalfEven (x / 2 ^ ulpExponent x)) * 2 ^ ulpExponent x.
Proof.
  intros H. unfold binary64.
  destruct (Qeq_bool x 0) eqn:He; [|done].
  apply Qeq_bool_iff in He. done.
Qed.

Lemma binary64_zero (x : Q) : x == 0 -> binary64 x = 0.
Proof.
  intros H. unfold binary64.
  destruct (Qeq_bool x 0) eqn:He; [done|].
  apply Qeq_bool_neq in He. done.
Qed.

Lemma binary64_nonneg (x : Q) : 0 <= x -> 0 <= binary64 x.
Proof.
  intros Hx. destruct (Qeq_dec x 0) as [H0|H0].
  - rewrite binary64_zero by done. lra.
  - rewrite binary64_nonzero by done.
    pose proof (pow2_pos (ulpExponent x)) as Hp.
    assert (H : (0 <= roundHalfEven (x / 2 ^ ulpExponent x))%Z).
    { rewrite <- (roundHalfEven_Z 0). apply roundHalfEven_mono.
      apply Qle_shift_div_l; [done|]. change (inject_Z 0) with 0. lra. }
    apply Qmult_le_0_compat; [|lra].
    change 0 with (inject_Z 0). by rewrite <- Zle_Qle.
Qed.

Lemma binary64_nonpos (x : Q) : x <= 0 -> binary64 x <= 0.
Proof.
  intros Hx. destruct (Qeq_dec x 0) as [H0|H0].
  - rewrite binary64_zero by done. lra.
  - rewrite binary64_nonzero by done.
    pose proof (pow2_pos (ulpExponent x)) as Hp.
    assert (H : (roundHalfEven (x / 2 ^ ulpExponent x) <= 0)%Z).
    { rewrite <- (roundHalfEven_Z 0). apply roundHalfEven_mono.
      apply Qle_shift_div_r; [done|]. change (inject_Z 0) with 0. lra. }
    rewrite Zle_Qle in H. change (inject_Z 0) with 0 in H. nra.
Qed.

(** Rounding to binary64 is monotone (on the numbers the program has,
    which are not negative). *)
Lemma binary64_mono (x y : Q) :
  0 <= x -> x <= y -> binary64 x <= binary64 y.
Proof.
  intros Hx Hxy. destruct (Qeq_dec x 0) as [H0|H0].
  { rewrite (binary64_zero x) by done. apply binary64_nonneg. lra. }
  assert (Hx0 : 0 < x) by lra.
  rewrite (binary64_nonzero x), (binary64_nonzero y) by lra.
  pose proof (ulpExponent_mono x y Hx0 Hxy) as He.
  set (ex := ulpExponent x) in *. set (ey := ulpExponent y) in *.
  pose proof (pow2_pos ex) as Hpx. pose proof (pow2_pos ey) as Hpy.
  destruct (Z.eq_dec ex ey) as [Heq|Hne].
  - rewrite <- Heq.
    pose proof (roundHalfEven_mono (x / 2 ^ ex) (y / 2 ^ ex)
                  (scale_le x y ex Hxy)) as Hr.
    rewrite Zle_Qle in Hr. nra.
  - assert (Hlt : (ex + 1 <= ey)%Z) by lia.
    (* x lies below 2^(ex+53), y at or above 2^(ey+52) *)
    assert (Hxe : (ilog2 x - 52 <= ex)%Z).
    { subst ex. unfold ulpExponent.
      rewrite (ilog2_proper (Qabs x) x) by (rewrite Qabs_pos; lra). lia. }
    assert (Hye : ey = (ilog2 y - 52)%Z).
    { pose proof (ulpExponent_bound x). fold ex in H.
      subst ey. unfold ulpExponent in *.
      rewrite (ilog2_proper (Qabs y) y) in * by (rewrite Qabs_pos; lra).
      lia. }
    destruct (ilog2_spec x Hx0) as [_ Hxu].
    destruct (ilog2_spec y ltac:(lra)) as [Hyl _].
    assert (Hx53 : x / 2 ^ ex <= inject_Z (2 ^ 53)).
    { apply Qle_shift_div_r; [done|].
      rewrite pow2_Z by lia. rewrite <- pow2_plus.
      apply Qle_trans with (2 ^ (ilog2 x + 1)); [lra|].
      apply pow2_le. lia. }
    assert (Hy52 : inject_Z (2 ^ 52) <= y / 2 ^ ey).
    { apply Qle_shift_div_l; [done|].
      rewrite pow2_Z by lia. rewrite <- pow2_plus.
      apply Qle_trans with (2 ^ ilog2 y); [|done].
      apply pow2_le. lia. }
    apply roundHalfEven_mono in Hx53. rewrite roundHalfEven_Z in Hx53.
    apply roundHalfEven_mono in Hy52. rewrite roundHalfEven_Z in Hy52.
    rewrite Zle_Qle in Hx53, Hy52.
    rewrite !pow2_Z in Hx53, Hy52 by lia.
    apply Qle_trans with (2 ^ 53 * 2 ^ ex).
    { apply Qmult_le_compat_r; [done|lra]. }
    apply Qle_trans with (2 ^ 52 * 2 ^ ey).
    { rewrite <- !pow2_plus. apply pow2_le. lia. }
    apply Qmult_le_compat_r; [done|lra].
Qed.

Lemma ulpExponent_proper (x y : Q) :
  ~ x == 0 -> x == y -> ulpExponent x = ulpExponent y.
Proof.
  intros H0 Hxy. unfold ulpExponent.
  rewrite (ilog2_proper (Qabs x) (Qabs y)); [done| |by rewrite Hxy].
  apply Qnot_le_lt. intros Hle.
  apply H0. apply Qabs_Qle_condition in Hle. lra.
Qed.

Lemma binary64_proper (x y : Q) : x == y -> binary64 x == binary64 y.
Proof.
  intros Hxy. destruct (Qeq_dec x 0) as [H0|H0].
  - rewrite (binary64_zero x), (binary64_zero y) by lra. reflexivity.
  - rewrite (binary64_nonzero x), (binary64_nonzero y) by lra.
    rewrite <- (ulpExponent_proper x y) by done.
    rewrite (roundHalfEven_proper (x / 2 ^ ulpExponent x)
               (y / 2 ^ ulpExponent x)); [reflexivity|].
    pose proof (pow2_pos (ulpExponent x)).
    apply Qmult_inj_r with (2 ^ ulpExponent x); [lra|].
    rewrite !scale_back. exact Hxy.
Qed.

Lemma Qabs_pos_lt (x : Q) : ~ x == 0 -> 0 < Qabs x.
Proof.
  intros H0. apply Qnot_le_lt. intros Hle.
  apply H0. apply Qabs_Qle_condition in Hle. lra.
Qed.

Lemma Qabs_inject_Z (m : Z) : Qabs (inject_Z m) == inject_Z (Z.abs m).
Proof. reflexivity. Qed.

(** A significand of at most 53 bits with an exponent in range is a
    binary64 number: rounding leaves it as it is. *)
Lemma binary64_exact_below (m e : Z) :
  (-1074 <= e)%Z -> (Z.abs m < 2 ^ 53)%Z ->
  binary64 (inject_Z m * 2 ^ e) == inject_Z m * 2 ^ e.
Proof.
  intros He Hm. set (y := inject_Z m * 2 ^ e).
  pose proof (pow2_pos e) as Hpe.
  destruct (Qeq_dec y 0) as [H0|H0].
  { rewrite binary64_zero by done. by rewrite H0. }
  rewrite binary64_nonzero by done.
  set (ey := ulpExponent y).
  assert (Hey : (ey <= e)%Z).
  { subst ey. unfold ulpExponent.
    assert (Habs : Qabs y < 2 ^ (e + 53)).
    { subst y. rewrite Qabs_Qmult, Qabs_inject_Z.
      rewrite (Qabs_pos (2 ^ e)) by lra.
      rewrite pow2_plus.
      assert (Hm' : inject_Z (Z.abs m) < 2 ^ 53).
      { rewrite <- pow2_Z by lia. by rewrite <- Zlt_Qlt. }
      rewrite (Qmult_comm (2 ^ e)).
      by apply Qmult_lt_r. }
    pose proof (ilog2_below (Qabs y) (e + 53) (Qabs_pos_lt y H0) Habs).
    lia. }
  pose proof (pow2_pos ey) as Hpy.
  assert (Hint : y / 2 ^ ey == inject_Z (m * 2 ^ (e - ey))).
  { rewrite inject_Z_mult, pow2_Z by lia. subst y.
    replace e with ((e - ey) + ey)%Z at 1 by lia.
    rewrite pow2_plus. field. lra. }
  rewrite (roundHalfEven_proper _ _ Hint), roundHalfEven_Z.
  rewrite <- Hint. apply scale_back.
Qed.

Lemma binary64_exact (m e : Z) :
  (-1074 <= e)%Z -> (Z.abs m <= 2 ^ 53)%Z ->
  binary64 (inject_Z m * 2 ^ e) == inject_Z m * 2 ^ e.
Proof.
  intros He Hm.
  destruct (Z.eq_dec (Z.abs m) (2 ^ 53)%Z) as [Heq|Hne];
    [|apply binary64_exact_below; lia].
  assert (Hm' : m = (m / 2 * 2)%Z).
  { destruct (Z.abs_spec m) as [[_ Ha]|[_ Ha]];
      rewrite Ha in Heq; [rewrite Heq; reflexivity|].
    replace m with (- 2 ^ 53)%Z by lia. reflexivity. }
  assert (Hy : inject_Z m * 2 ^ e == inject_Z (m / 2) * 2 ^ (e + 1)).
  { rewrite Hm' at 1. rewrite inject_Z_mult, pow2_succ.
    change (inject_Z 2) with 2. ring. }
  rewrite (binary64_proper _ _ Hy), Hy.
  apply binary64_exact_below; [lia|].
  destruct (Z.abs_spec m) as [[_ Ha]|[_ Ha]]; rewrite Ha in Heq.
  - rewrite Heq. reflexivity.
  - replace m with (- 2 ^ 53)%Z by lia. reflexivity.
Qed.

Lemma binary64_integer (m : Z) :
  (Z.abs m <= 2 ^ 53)%Z -> binary64 (inject_Z m) == inject_Z m.
Proof.
  intros Hm. pose proof (binary64_exact m 0 ltac:(lia) Hm) as H.
  change (2 ^ 0) with 1 in H.
  assert (Heq : inject_Z m * 1 == inject_Z m) by ring.
  by rewrite (binary64_proper _ _ Heq), Heq in H.
Qed.

(** Every result of the rounding has such a significand and exponent. *)
Lemma binary64_significand (x : Q) :
  ~ x == 0 ->
  (Z.abs (roundHalfEven (x / 2 ^ ulpExponent x)) <= 2 ^ 53)%Z.
Proof.
  intros H0. set (ex := ulpExponent x).
  pose proof (pow2_pos ex) as Hp.
  assert (Habs : Qabs x < 2 ^ (ex + 53)).
  { destruct (ilog2_spec (Qabs x) (Qabs_pos_lt x H0)) as [_ Hup].
    apply Qlt_le_trans with (2 ^ (ilog2 (Qabs x) + 1)); [done|].
    apply pow2_le. subst ex. unfold ulpExponent. lia. }
  rewrite pow2_plus in Habs.
  assert (Hx : - (2 ^ 53 * 2 ^ ex) <= x /\ x <= 2 ^ 53 * 2 ^ ex).
  { apply Qabs_Qle_condition. rewrite Qmult_comm. lra. }
  assert (Hup : x / 2 ^ ex <= inject_Z (2 ^ 53)).
  { apply Qle_shift_div_r; [done|]. rewrite pow2_Z by lia. lra. }
  assert (Hlow : inject_Z (- 2 ^ 53) <= x / 2 ^ ex).
  { apply Qle_shift_div_l; [done|].
    rewrite inject_Z_opp, pow2_Z by lia. lra. }
  apply roundHalfEven_mono in Hup, Hlow.
  rewrite roundHalfEven_Z in Hup, Hlow. lia.
Qed.

Lemma binary64_idempotent (x : Q) : binary64 (binary64 x) == binary64 x.
Proof.
  destruct (Qeq_dec x 0) as [H0|H0].
  { rewrite (binary64_zero x) by done. reflexivity. }
  rewrite (binary64_nonzero x) by done.
  apply binary64_exact; [apply ulpExponent_bound|].
  by apply binary64_significand.
Qed.

(** The relative error of the rounding is at most 2^-53 above the
    subnormal range. *)
Lemma binary64_error (x : Q) :
  2 ^ (-1022) <= x ->
  Qabs (binary64 x - x) <= x * 2 ^ (-53).
Proof.
  intros Hx. pose proof (pow2_pos (-1022)) as Hp.
  rewrite binary64_nonzero by lra.
  assert (Hl : (-1022 <= ilog2 x)%Z) by by apply ilog2_above.
  assert (He : ulpExponent x = (ilog2 x - 52)%Z).
  { unfold ulpExponent.
    rewrite (ilog2_proper (Qabs x) x)
      by (rewrite ?Qabs_pos; try apply Qabs_pos_lt; lra). lia. }
  rewrite He. set (ex := (ilog2 x - 52)%Z).
  pose proof (pow2_pos ex) as Hpe.
  destruct (roundHalfEven_bounds (x / 2 ^ ex)) as [Hlow Hup].
  destruct (ilog2_spec x ltac:(lra)) as [Hxl _].
  assert (Hulp : 2 ^ ex == 2 ^ ilog2 x * 2 ^ (-52)).
  { rewrite <- pow2_plus. by replace (ilog2 x + -52)%Z with ex by lia. }
  assert (H53 : (2 ^ (-53) : Q) == (1 # 2) * 2 ^ (-52)) by reflexivity.
  pose proof (scale_back x ex) as Hback.
  set (t := x / 2 ^ ex) in *. set (r := inject_Z (roundHalfEven t)) in *.
  pose proof (pow2_pos (-52)) as Hp52.
  apply Qabs_Qle_condition. rewrite H53. split; nra.
Qed.

(** Halving a binary64 number above the subnormal range is exact. *)
Lemma binary64_half (x : Q) :
  2 ^ (-1021) <= Qabs (binary64 x) ->
  binary64 ((1 # 2) * binary64 x) == (1 # 2) * binary64 x.
Proof.
  intros Hx. pose proof (pow2_pos (-1021)) as Hp.
  destruct (Qeq_dec x 0) as [H0|H0].
  { rewrite (binary64_zero x) in * by done. reflexivity. }
  rewrite (binary64_nonzero x) in * by done.
  pose proof (binary64_significand x H0) as Hm.
  pose proof (ulpExponent_bound x) as He.
  set (m := roundHalfEven (x / 2 ^ ulpExponent x)) in *.
  set (e := ulpExponent x) in *.
  pose proof (pow2_pos e) as Hpe.
  destruct (Z.eq_dec e (-1074)%Z) as [Hmin|Hmin].
  - (* the least exponent: the significand is 2^53 *)
    assert (Habs : (2 ^ 53 <= Z.abs m)%Z).
    { rewrite Qabs_Qmult, Qabs_inject_Z, (Qabs_pos (2 ^ e)) in Hx by lra.
      rewrite Hmin in Hx.
      assert (H' : 2 ^ 53 * 2 ^ (-1074) <= inject_Z (Z.abs m) * 2 ^ (-1074)).
      { rewrite <- pow2_plus. exact Hx. }
      apply Qmult_le_r in H'; [|apply pow2_pos].
      rewrite <- pow2_Z in H' by lia. by rewrite <- Zle_Qle in H'. }
    assert (Hm' : m = (m / 2 * 2)%Z).
    { destruct (Z.abs_spec m) as [[_ Ha]|[_ Ha]].
      - replace m with (2 ^ 53)%Z by lia. reflexivity.
      - replace m with (- 2 ^ 53)%Z by lia. reflexivity. }
    assert (Hy : (1 # 2) * (inject_Z m * 2 ^ e)
                 == inject_Z (m / 2) * 2 ^ e).
    { rewrite Hm' at 1. rewrite inject_Z_mult.
      change (inject_Z 2) with 2. ring. }
    rewrite (binary64_proper _ _ Hy), Hy.
    apply binary64_exact; [lia|].
    destruct (Z.abs_spec m) as [[_ Ha]|[_ Ha]].
    + replace m with (2 ^ 53)%Z by lia. by vm_compute.
    + replace m with (- 2 ^ 53)%Z by lia. by vm_compute.
  - assert (Hy : (1 # 2) * (inject_Z m * 2 ^ e)
                 == inject_Z m * 2 ^ (e - 1)).
    { replace e with ((e - 1) + 1)%Z at 1 by lia.
      rewrite pow2_succ. ring. }
    rewrite (binary64_proper _ _ Hy), Hy.
    apply binary64_exact; [lia|done].
Qed.

#[global] Instance binary64_Proper : Proper (Qeq ==> Qeq) binary64.
Proof. intros x y Hxy. by apply binary64_proper. Qed.

#[global] Instance add_Proper : Proper (Qeq ==> Qeq ==> Qeq) add.
Proof. intros x x' Hx y y' Hy. unfold add. by rewrite Hx, Hy. Qed.

#[global] Instance mul_Proper : Proper (Qeq ==> Qeq ==> Qeq) mul.
Proof. intros x x' Hx y y' Hy. unfold mul. by rewrite Hx, Hy. Qed.

#[global] Instance div_Proper : Proper (Qeq ==> Qeq ==> Qeq) div.
Proof. intros x x' Hx y y' Hy. unfold div. by rewrite Hx, Hy. Qed.

(** *** Arithmetic on numbers that need no rounding *)

Lemma binary64_of_integer (x : Q) (a : Z) :
  x == inject_Z a -> (Z.abs a <= 2 ^ 53)%Z -> binary64 x == inject_Z a.
Proof.
  intros Hx Ha. rewrite (binary64_proper _ _ Hx).
  by apply binary64_integer.
Qed.

Lemma add_integers (x y : Q) (a b : Z) :
  x == inject_Z a -> y == inject_Z b ->
  (Z.abs a <= 2 ^ 53)%Z -> (Z.abs b <= 2 ^ 53)%Z ->
  (Z.abs (a + b) <= 2 ^ 53)%Z ->
  add x y == inject_Z (a + b).
Proof.
  intros Hx Hy Ha Hb Hab. unfold add.
  apply binary64_of_integer; [|done].
  rewrite (binary64_of_integer x a), (binary64_of_integer y b) by done.
  by rewrite inject_Z_plus.
Qed.

Lemma mul_integers (x y : Q) (a b : Z) :
  x == inject_Z a -> y == inject_Z b ->
  (Z.abs a <= 2 ^ 53)%Z -> (Z.abs b <= 2 ^ 53)%Z ->
  (Z.abs (a * b) <= 2 ^ 53)%Z ->
  mul x y == inject_Z (a * b).
Proof.
  intros Hx Hy Ha Hb Hab. unfold mul.
  apply binary64_of_integer; [|done].
  rewrite (binary64_of_integer x a), (binary64_of_integer y b) by done.
  by rewrite inject_Z_mult.
Qed.

Lemma div_integers (x y : Q) (a b : Z) :
  x == inject_Z a -> y == inject_Z b ->
  (Z.abs a <= 2 ^ 53)%Z -> (Z.abs b <= 2 ^ 53)%Z ->
  div x y == binary64 (inject_Z a / inject_Z b).
Proof.
  intros Hx Hy Ha Hb. unfold div. apply binary64_proper.
  by rewrite (binary64_of_integer x a), (binary64_of_integer y b).
Qed.

End Binary64.

(* ===================================================================== *)
(** ** Diagnosis engine: certainty factors *)
(* ===================================================================== *)

Section DiagnosisFacts.
Import JsNumber Diagnosis Reference.

Variable symptoms : list Symptom.
Variable answers : gmap nat FuzzyLevel.

Lemma cfValues_from (sids : list nat) (acc : list Q) :
  fold_left (fun acc sid =>
               match answers !! sid, expertCF symptoms sid with
               | Some userAnswer, Some e =>
                   acc ++ [mul (fuzzyLevelToValue userAnswer) e]
               | _, _ => acc
               end) sids acc
  = acc ++ omap (contribution symptoms answers) sids.
Proof.
  revert acc. induction sids as [|sid sids IH]; intros acc; simpl.
  - by rewrite app_nil_r.
  - rewrite IH. unfold contribution at 2.
    destruct (answers !! sid) as [a|]; [|done].
    destruct (expertCF symptoms sid) as [e|]; [|done].
    by rewrite <- app_assoc.
Qed.

Lemma cfValues_contributions (sids : list nat) :
  cfValues symptoms answers sids = omap (contribution symptoms answers) sids.
Proof. unfold cfValues. by rewrite cfValues_from. Qed.

Lemma cfValues_app (l1 l2 : list nat) :
  cfValues symptoms answers (l1 ++ l2)
  = cfValues symptoms answers l1 ++ cfValues symptoms answers l2.
Proof. rewrite !cfValues_contributions. apply omap_app. Qed.

End DiagnosisFacts.

Section Extrema.
Import JsNumber Reference.

Lemma scan_max (xs : list Q) (h : Q) :
  exists m,
    fold_left (fun highest x =>
                 match highest with
                 | None => Some x
                 | Some h => if Qlt_le_dec h x then Some x else Some h
                 end) xs (Some h) = Some m
    /\ (m = h \/ m ∈ xs) /\ (h <= m)%Q /\ forall x, x ∈ xs -> (x <= m)%Q.
Proof.
  revert h. induction xs as [|x xs IH]; intros h; simpl.
  - exists h. split; [done|]. split; [by left|]. split; [lra|].
    intros x Hx. by apply elem_of_nil in Hx.
  - destruct (Qlt_le_dec h x) as [Hlt|Hle].
    + destruct (IH x) as (m & Hm & Hin & Hxm & Hall).
      exists m. split; [done|]. split.
      { right. destruct Hin as [->|Hin]; [left|by right]. }
      split; [lra|]. intros y Hy. apply elem_of_cons in Hy as [->|Hy]; auto.
    + destruct (IH h) as (m & Hm & Hin & Hhm & Hall).
      exists m. split; [done|]. split.
      { destruct Hin as [->|Hin]; [by left|right; by right]. }
      split; [done|]. intros y Hy.
      apply elem_of_cons in Hy as [->|Hy]; [lra|auto].
Qed.

Lemma scan_min (xs : list Q) (l : Q) :
  exists m,
    fold_left (fun lowest x =>
                 match lowest with
                 | None => Some x
                 | Some l => if Qlt_le_dec x l then Some x else Some l
                 end) xs (Some l) = Some m
    /\ (m = l \/ m ∈ xs) /\ (m <= l)%Q /\ forall x, x ∈ xs -> (m <= x)%Q.
Proof.
  revert l. induction xs as [|x xs IH]; intros l; simpl.
  - exists l. split; [done|]. split; [by left|]. split; [lra|].
    intros x Hx. by apply elem_of_nil in Hx.
  - destruct (Qlt_le_dec x l) as [Hlt|Hle].
    + destruct (IH x) as (m & Hm & Hin & Hxm & Hall).
      exists m. split; [done|]. split.
      { right. destruct Hin as [->|Hin]; [left|by right]. }
      split; [lra|]. intros y Hy. apply elem_of_cons in Hy as [->|Hy]; auto.
    + destruct (IH l) as (m & Hm & Hin & Hhm & Hall).
      exists m. split; [done|]. split.
      { destruct Hin as [->|Hin]; [by left|right; by right]. }
      split; [done|]. intros y Hy.
      apply elem_of_cons in Hy as [->|Hy]; [lra|auto].
Qed.

Lemma Math_max_isMaximum (x : Q) (xs : list Q) :
  exists m, Math_max (x :: xs) = Some m /\ isMaximum m (x :: xs).
Proof.
  destruct (scan_max xs x) as (m & Hm & Hin & Hle & Hall).
  exists m. split; [exact Hm|]. split.
  - destruct Hin as [->|Hin]; [left|by right].
  - intros y Hy. apply elem_of_cons in Hy as [->|Hy]; [done|auto].
Qed.

Lemma Math_min_isMinimum (x : Q) (xs : list Q) :
  exists m, Math_min (x :: xs) = Some m /\ isMinimum m (x :: xs).
Proof.
  destruct (scan_min xs x) as (m & Hm & Hin & Hle & Hall).
  exists m. split; [exact Hm|]. split.
  - destruct Hin as [->|Hin]; [left|by right].
  - intros y Hy. apply elem_of_cons in Hy as [->|Hy]; [done|auto].
Qed.

End Extrema.

Section Rounding.
Import JsNumber Reference.

Lemma toFixedDecimal_proper (digits : nat) (x y : Q) :
  (x == y)%Q -> (toFixedDecimal digits x == toFixedDecimal digits y)%Q.
Proof.
  intros Hxy. unfold toFixedDecimal.
  destruct (Qlt_le_dec x 0), (Qlt_le_dec y 0); try lra.
  - by rewrite Hxy.
  - by rewrite Hxy.
Qed.

Lemma toFixed_proper (digits : nat) (x y : Q) :
  (x == y)%Q -> (toFixed digits x == toFixed digits y)%Q.
Proof.
  intros Hxy. unfold toFixed.
  by apply binary64_proper, toFixedDecimal_proper, binary64_proper.
Qed.

#[global] Instance toFixedDecimal_Proper (digits : nat) :
  Proper (Qeq ==> Qeq) (toFixedDecimal digits).
Proof. intros x y Hxy. by apply toFixedDecimal_proper. Qed.

#[global] Instance toFixed_Proper (digits : nat) :
  Proper (Qeq ==> Qeq) (toFixed digits).
Proof. intros x y Hxy. by apply toFixed_proper. Qed.

Lemma pow10_pos (digits : nat) : (0 < 10 ^ Z.of_nat digits)%Z.
Proof. apply Z.pow_pos_nonneg; lia. Qed.

Lemma toFixedDecimal_rounded (digits : nat) (x : Q) :
  (0 <= x)%Q -> roundedTo digits x (toFixedDecimal digits x).
Proof.
  intros Hx. unfold toFixedDecimal, roundedTo.
  pose proof (pow10_pos digits) as Hpos.
  destruct (Qlt_le_dec x 0) as [Hneg|_]; [lra|].
  rewrite Z2Pos.id by done.
  set (y := (x * inject_Z (10 ^ Z.of_nat digits) + (1 # 2))%Q).
  exists (Qfloor y). split; [reflexivity|].
  pose proof (Qfloor_le y) as Hle. pose proof (Qlt_floor y) as Hlt.
  rewrite inject_Z_plus in Hlt. change (inject_Z 1) with 1%Q in Hlt.
  subst y. split; lra.
Qed.

(** [Number(x.toFixed(digits))] of a double [x] that is not negative:
    the double of the numeral that rounds [x], ties upwards. *)
Lemma toFixed_rounded (digits : nat) (x : Q) :
  (0 <= x)%Q -> (binary64 x == x)%Q ->
  exists d, roundedTo digits x d /\ (toFixed digits x == binary64 d)%Q.
Proof.
  intros Hx Hdouble. exists (toFixedDecimal digits x).
  split; [by apply toFixedDecimal_rounded|].
  unfold toFixed. by apply binary64_proper, toFixedDecimal_proper.
Qed.

End Rounding.

Section RuleCertainty.
Import JsNumber Diagnosis Reference Scenarios MoreScenarios.

Lemma computedCF_extremum (symptoms : list Symptom)
    (answers : gmap nat FuzzyLevel) (rule : Rule) :
  cfValues symptoms answers (r_symptoms rule) <> [] ->
  exists cf,
    computedCF symptoms answers rule = Some cf /\
    match operator rule with
    | OR => isMaximum cf (cfValues symptoms answers (r_symptoms rule))
    | AND => isMinimum cf (cfValues symptoms answers (r_symptoms rule))
    end.
Proof.
  intros Hne. unfold computedCF.
  destruct (cfValues symptoms answers (r_symptoms rule)) as [|x xs]; [done|].
  simpl length. cbn [Nat.eqb].
  destruct (operator rule).
  - apply Math_min_isMinimum.
  - apply Math_max_isMaximum.
Qed.

Lemma computedCF_none (symptoms : list Symptom)
    (answers : gmap nat FuzzyLevel) (rule : Rule) :
  cfValues symptoms answers (r_symptoms rule) = [] ->
  computedCF symptoms answers rule = None.
Proof. intros H. unfold computedCF. by rewrite H. Qed.

Lemma mul_proper (x x' y y' : Q) :
  (x == x')%Q -> (y == y')%Q -> (mul x y == mul x' y')%Q.
Proof.
  intros Hx Hy. unfold mul. apply binary64_proper.
  by rewrite (binary64_proper x x' Hx), (binary64_proper y y' Hy).
Qed.

Lemma mul_double (x y : Q) : (binary64 (mul x y) == mul x y)%Q.
Proof. apply binary64_idempotent. Qed.

Lemma mul_zero_l (e : Q) : (mul 0 e == 0)%Q.
Proof.
  unfold mul. change (binary64 0) with 0%Q.
  rewrite binary64_zero by ring. reflexivity.
Qed.

Lemma binary64_unit (x : Q) :
  (0 <= x <= 1)%Q -> (0 <= binary64 x <= 1)%Q.
Proof.
  intros [H0 H1]. split; [by apply binary64_nonneg|].
  apply Qle_trans with (binary64 1); [by apply binary64_mono|].
  by vm_compute.
Qed.

Lemma mul_unit (x y : Q) :
  (0 <= x <= 1)%Q -> (0 <= y <= 1)%Q -> (0 <= mul x y <= 1)%Q.
Proof.
  intros Hx Hy. unfold mul.
  pose proof (binary64_unit x Hx). pose proof (binary64_unit y Hy).
  apply binary64_unit. split; nra.
Qed.

Lemma fuzzy_double (a : FuzzyLevel) :
  (binary64 (fuzzyLevelToValue a) == fuzzyLevelToValue a)%Q.
Proof. by destruct a; vm_compute. Qed.

(** The product of a fuzzy value and an expert factor is exact, unless
    the factor is a subnormal double. *)
Lemma mul_fuzzy_exact (a : FuzzyLevel) (e : Q) :
  (binary64 e == 0 \/ 2 ^ (-1021) <= Qabs (binary64 e))%Q ->
  (mul (fuzzyLevelToValue a) e == fuzzyLevelToValue a * binary64 e)%Q.
Proof.
  intros Hnormal. unfold mul.
  assert (Hstep : (binary64 (fuzzyLevelToValue a) * binary64 e
                   == fuzzyLevelToValue a * binary64 e)%Q)
    by (by rewrite fuzzy_double).
  rewrite (binary64_proper _ _ Hstep).
  destruct a; cbn [fuzzyLevelToValue].
  - rewrite binary64_zero by ring. ring.
  - destruct Hnormal as [H0|Hn].
    + assert (Hz : ((1 # 2) * binary64 e == 0)%Q) by (rewrite H0; ring).
      rewrite (binary64_zero _ Hz). by rewrite Hz.
    + by apply binary64_half.
  - assert (H1 : (1 * binary64 e == binary64 e)%Q) by ring.
    rewrite (binary64_proper _ _ H1), H1. apply binary64_idempotent.
Qed.

Lemma cfValues_double (symptoms : list Symptom)
    (answers : gmap nat FuzzyLevel) (sids : list nat) (v : Q) :
  v ∈ cfValues symptoms answers sids -> (binary64 v == v)%Q.
Proof.
  rewrite cfValues_contributions. intros Hv.
  apply list_elem_of_omap in Hv as (sid & _ & Hsid).
  unfold contribution in Hsid.
  destruct (answers !! sid) as [a|]; [|done].
  destruct (expertCF symptoms sid) as [e|]; [|done].
  injection Hsid as <-. apply mul_double.
Qed.

Lemma computedCF_member (symptoms : list Symptom)
    (answers : gmap nat FuzzyLevel) (rule : Rule) (cf : Q) :
  computedCF symptoms answers rule = Some cf ->
  cf ∈ cfValues symptoms answers (r_symptoms rule).
Proof.
  intros Hcf.
  destruct (cfValues symptoms answers (r_symptoms rule)) as [|x xs] eqn:Hcfs.
  { by rewrite computedCF_none in Hcf. }
  destruct (computedCF_extremum symptoms answers rule) as (cf' & Hcf' & Hext).
  { by rewrite Hcfs. }
  rewrite Hcf in Hcf'. injection Hcf' as <-. rewrite Hcfs in Hext.
  destruct (operator rule); apply Hext.
Qed.

Lemma computedCF_double (symptoms : list Symptom)
    (answers : gmap nat FuzzyLevel) (rule : Rule) (cf : Q) :
  computedCF symptoms answers rule = Some cf -> (binary64 cf == cf)%Q.
Proof.
  intros Hcf. eapply cfValues_double. by apply computedCF_member.
Qed.

(** C4. Every answered symptom of a rule contributes
    fuzzyValue(answer) x expertCF(symptom), with fuzzy values 0, 1/2 and 1
    for No, Sometimes and Yes: the contribution is the product of the two
    numbers, which is exact as long as the expert factor is not a
    subnormal double. The certainty factor computed for the rule is the
    maximum of the contributions under OR and the minimum under AND. A
    two-symptom rule answered Yes/Yes with expert factors 0.8 and 0.6
    gets the number 0.6 under AND and 0.8 under OR, also in the emitted
    record, whose field holds the double of the numeral that rounds the
    computed factor to two decimals. *)
Theorem rule_certainty_factor (symptoms : list Symptom)
    (answers : gmap nat FuzzyLevel) (rule : Rule) :
  (fuzzyLevelToValue No == 0 /\ fuzzyLevelToValue Sometimes == 1 # 2
   /\ fuzzyLevelToValue Yes == 1)%Q
  /\ cfValues symptoms answers (r_symptoms rule)
     = omap (contribution symptoms answers) (r_symptoms rule)
  /\ (forall sid a e,
        answers !! sid = Some a -> expertCF symptoms sid = Some e ->
        (binary64 e == 0 \/ 2 ^ (-1021) <= Qabs (binary64 e))%Q ->
        exists v,
          contribution symptoms answers sid = Some v
          /\ (v == fuzzyLevelToValue a * binary64 e)%Q)
  /\ (cfValues symptoms answers (r_symptoms rule) <> [] ->
      exists cf,
        computedCF symptoms answers rule = Some cf /\
        match operator rule with
        | OR => isMaximum cf (cfValues symptoms answers (r_symptoms rule))
        | AND => isMinimum cf (cfValues symptoms answers (r_symptoms rule))
        end)
  /\ (forall s1 s2 e1 e2,
        r_symptoms rule = [s1; s2] ->
        answers !! s1 = Some Yes -> answers !! s2 = Some Yes ->
        expertCF symptoms s1 = Some e1 -> expertCF symptoms s2 = Some e2 ->
        (e1 == 8 # 10)%Q -> (e2 == 6 # 10)%Q ->
        exists cf r,
          computedCF symptoms answers rule = Some cf /\
          ruleResult symptoms answers rule = Some r /\
          match operator rule with
          | AND => (cf == binary64 (6 # 10)
                    /\ cfRule r == binary64 (6 # 10))%Q
          | OR => (cf == binary64 (8 # 10)
                   /\ cfRule r == binary64 (8 # 10))%Q
          end)
  /\ (forall r,
        ruleResult symptoms answers rule = Some r ->
        exists cf d,
          computedCF symptoms answers rule = Some cf /\
          roundedTo 2 cf d /\ (cfRule r == binary64 d)%Q).
Proof.
  split; [repeat split; reflexivity|].
  split; [apply cfValues_contributions|].
  split.
  { intros sid a e Ha He Hnormal. unfold contribution. rewrite Ha, He.
    eexists. split; [done|]. by apply mul_fuzzy_exact. }
  split; [apply computedCF_extremum|].
  split; cycle 1.
  { intros r Hr. unfold ruleResult in Hr.
    destruct (computedCF symptoms answers rule) as [cf|] eqn:Hcf; [|done].
    destruct (Qlt_le_dec 0 cf) as [Hpos|]; [|done].
    injection Hr as <-.
    destruct (toFixed_rounded 2 cf) as (d & Hd & Heq);
      [lra|by eapply computedCF_double|].
    by exists cf, d. }
  intros s1 s2 e1 e2 Hs Ha1 Ha2 He1 He2 Hq1 Hq2.
  assert (Hcfs : cfValues symptoms answers (r_symptoms rule)
                 = [mul 1 e1; mul 1 e2]).
  { rewrite cfValues_contributions, Hs. simpl. unfold contribution.
    by rewrite Ha1, Ha2, He1, He2. }
  set (v8 := binary64 (8 # 10)). set (v6 := binary64 (6 # 10)).
  assert (H8 : (mul 1 e1 == v8)%Q).
  { rewrite (mul_proper 1 1 e1 (8 # 10)) by done. by vm_compute. }
  assert (H6 : (mul 1 e2 == v6)%Q).
  { rewrite (mul_proper 1 1 e2 (6 # 10)) by done. by vm_compute. }
  assert (Hlt : (0 < v6 /\ v6 < v8)%Q) by (by vm_compute).
  unfold ruleResult, computedCF. rewrite Hcfs. simpl length. cbn [Nat.eqb].
  destruct (operator rule); cbn [Math_min Math_max fold_left].
  - destruct (Qlt_le_dec (mul 1 e2) (mul 1 e1)) as [_|Hle]; [|lra].
    destruct (Qlt_le_dec 0 (mul 1 e2)) as [_|Hle]; [|lra].
    eexists _, _. split; [done|]. split; [done|]. cbn [cfRule].
    split; [done|].
    rewrite (toFixed_proper 2 (mul 1 e2) v6) by done. by vm_compute.
  - destruct (Qlt_le_dec (mul 1 e1) (mul 1 e2)) as [Hlt'|_]; [lra|].
    destruct (Qlt_le_dec 0 (mul 1 e1)) as [_|Hle]; [|lra].
    eexists _, _. split; [done|]. split; [done|]. cbn [cfRule].
    split; [done|].
    rewrite (toFixed_proper 2 (mul 1 e1) v8) by done. by vm_compute.
Qed.

Lemma rule_certainty_factor_witness :
  (exists cf,
     computedCF exampleSymptoms exampleAnswers (exampleRule AND) = Some cf /\
     isMinimum cf (cfValues exampleSymptoms exampleAnswers [1%nat; 2%nat]))
  /\ (exists cf r,
        computedCF exampleSymptoms exampleAnswers (exampleRule AND) = Some cf /\
        ruleResult exampleSymptoms exampleAnswers (exampleRule AND) = Some r /\
        (cf == binary64 (6 # 10) /\ cfRule r == binary64 (6 # 10))%Q)
  /\ (exists v,
        contribution tieSymptoms tieAnswers 1%nat = Some v
        /\ (v == (1 # 2) * binary64 (29 # 100))%Q)
  /\ (exists cf d,
        computedCF tieSymptoms tieAnswers tieRule = Some cf /\
        roundedTo 2 cf d /\ (binary64 (14 # 100) == binary64 d)%Q).
Proof.
  destruct (rule_certainty_factor exampleSymptoms exampleAnswers
              (exampleRule AND)) as (_ & _ & _ & Hext & Hex & _).
  destruct (rule_certainty_factor tieSymptoms tieAnswers tieRule)
    as (_ & _ & Hexact & _ & _ & Hround).
  split; [|split; [|split]].
  - apply Hext. vm_compute. discriminate.
  - apply (Hex 1%nat 2%nat (8 # 10) (6 # 10)); reflexivity.
  - apply (Hexact 1%nat Sometimes (29 # 100)); [reflexivity|reflexivity|].
    right. by vm_compute.
  - apply (Hround {| id := "R7"; d_level := A; d_damage := "loose mounting";
                     d_solution := "tighten the mounting";
                     cfRule := binary64 (14 # 100) |}).
    vm_compute. reflexivity.
Defined.

End RuleCertainty.

Section RuleEmission.
Import JsNumber Diagnosis Reference Scenarios.

Lemma diagnosisOutput_from (symptoms : list Symptom) (rules : list Rule)
    (answers : gmap nat FuzzyLevel) (acc : list DiagnosisResult) :
  fold_left (fun output rule =>
               match ruleResult symptoms answers rule with
               | Some r => output ++ [r]
               | None => output
               end) rules acc
  = acc ++ omap (ruleResult symptoms answers) rules.
Proof.
  revert acc. induction rules as [|rule rules' IH]; intros acc; simpl.
  - by rewrite app_nil_r.
  - rewrite IH. destruct (ruleResult symptoms answers rule); [|done].
    by rewrite <- app_assoc.
Qed.

Lemma diagnosisOutput_omap (symptoms : list Symptom) (rules : list Rule)
    (answers : gmap nat FuzzyLevel) :
  diagnosisOutput symptoms rules answers
  = omap (ruleResult symptoms answers) rules.
Proof. unfold diagnosisOutput. by rewrite diagnosisOutput_from. Qed.

Lemma cfValues_unanswered (symptoms : list Symptom)
    (answers : gmap nat FuzzyLevel) (sids : list nat) :
  (forall sid, sid ∈ sids -> answers !! sid = None) ->
  cfValues symptoms answers sids = [].
Proof.
  intros Hall. rewrite cfValues_contributions.
  induction sids as [|sid sids IH]; [done|]. simpl.
  unfold contribution at 1. rewrite (Hall sid) by left.
  apply IH. intros sid' Hin. apply Hall. by right.
Qed.

Lemma unanswered_is_empty (symptoms : list Symptom) (rule : Rule) :
  computedCF symptoms ∅ rule = None /\ ruleResult symptoms ∅ rule = None.
Proof.
  assert (Hcf : computedCF symptoms ∅ rule = None).
  { apply computedCF_none, cfValues_unanswered.
    intros sid _. apply lookup_empty. }
  split; [done|]. unfold ruleResult. by rewrite Hcf.
Qed.

(** C5. A symptom the user did not answer is left out of the rule's
    evaluation: the contributions are those of the rule without it (no
    zero is added for it). A rule none of whose symptoms was answered
    produces no result, and every result in the output belongs to a rule
    whose computed certainty factor is strictly positive. *)
Theorem unanswered_symptoms_excluded (symptoms : list Symptom)
    (rules : list Rule) (answers : gmap nat FuzzyLevel) :
  (forall l1 sid l2,
     answers !! sid = None ->
     cfValues symptoms answers (l1 ++ sid :: l2)
     = cfValues symptoms answers (l1 ++ l2))
  /\ (forall rule,
        (forall sid, sid ∈ r_symptoms rule -> answers !! sid = None) ->
        computedCF symptoms answers rule = None /\
        ruleResult symptoms answers rule = None)
  /\ (forall r,
        r ∈ diagnosisOutput symptoms rules answers ->
        exists rule cf,
          rule ∈ rules /\ id r = r_id rule /\
          computedCF symptoms answers rule = Some cf /\ (0 < cf)%Q).
Proof.
  split; [|split].
  - intros l1 sid l2 Hnone.
    rewrite !cfValues_app. f_equal.
    change (sid :: l2) with ([sid] ++ l2). rewrite cfValues_app.
    rewrite (cfValues_unanswered _ _ [sid]); [done|].
    intros sid' Hin. apply list_elem_of_singleton in Hin. by subst.
  - intros rule Hall.
    pose proof (computedCF_none symptoms answers rule
                  (cfValues_unanswered _ _ _ Hall)) as Hcf.
    split; [done|]. unfold ruleResult. by rewrite Hcf.
  - intros r Hr. rewrite diagnosisOutput_omap in Hr.
    apply list_elem_of_omap in Hr as (rule & Hin & Hres).
    unfold ruleResult in Hres.
    destruct (computedCF symptoms answers rule) as [cf|] eqn:Hcf; [|done].
    destruct (Qlt_le_dec 0 cf) as [Hpos|]; [|done].
    injection Hres as <-. by exists rule, cf.
Qed.

Lemma unanswered_symptoms_excluded_witness :
  cfValues exampleSymptoms partialAnswers ([1%nat] ++ 2%nat :: [])
  = cfValues exampleSymptoms partialAnswers ([1%nat] ++ [])
  /\ ruleResult exampleSymptoms ∅ (exampleRule AND) = None
  /\ exists rule cf,
       rule ∈ [exampleRule AND] /\ "R1" = r_id rule /\
       computedCF exampleSymptoms partialAnswers rule = Some cf /\ (0 < cf)%Q.
Proof.
  destruct (unanswered_symptoms_excluded exampleSymptoms [exampleRule AND]
              partialAnswers) as (H1 & _ & H3).
  destruct (unanswered_symptoms_excluded exampleSymptoms [exampleRule AND] ∅)
    as (_ & H2 & _).
  split; [apply H1; reflexivity|].
  split; [apply H2; intros sid _; apply lookup_empty|].
  apply (H3 {| id := "R1"; d_level := B; d_damage := "bearing wear";
               d_solution := "replace the bearing";
               cfRule := binary64 (80 # 100) |}).
  vm_compute. left.
Defined.

(** With symptom 2 unanswered the AND rule is emitted with factor 0.8;
    had the missing answer counted as "No" its minimum would be 0. *)
Example unanswered_is_not_no :
  cfValues exampleSymptoms partialAnswers [1%nat; 2%nat] = [mul 1 (8 # 10)]
  /\ omap (contributionNoDefault exampleSymptoms partialAnswers) [1%nat; 2%nat]
     = [mul 1 (8 # 10); mul 0 (6 # 10)]
  /\ (cfRule <$> ruleResult exampleSymptoms partialAnswers (exampleRule AND))
     = Some (binary64 (80 # 100)).
Proof. repeat split; vm_compute; reflexivity. Qed.

End RuleEmission.

Section ConclusionFacts.
Import JsNumber Diagnosis Reference Scenarios MoreScenarios.

Lemma levelScore_bounds (l : Level) : (40 <= levelScore l <= 100)%Q.
Proof. destruct l; simpl; lra. Qed.

Lemma levelScore_integer (l : Level) :
  exists z, levelScore l = inject_Z z /\ (40 <= z <= 100)%Z.
Proof. destruct l; eexists; (split; [reflexivity|lia]). Qed.

Lemma sumQ_scores_bounds (data : list DiagnosisResult) :
  (40 * inject_Z (Z.of_nat (length data)) <= sumQ (severityScores data)
   <= 100 * inject_Z (Z.of_nat (length data)))%Q.
Proof.
  induction data as [|r data IH].
  - split; vm_compute; discriminate.
  - cbn [length severityScores map]. rewrite Nat2Z.inj_succ.
    unfold Z.succ. rewrite inject_Z_plus.
    change (sumQ (levelScore (d_level r) :: map (fun r => levelScore (d_level r)) data))
      with (levelScore (d_level r) + sumQ (severityScores data))%Q.
    pose proof (levelScore_bounds (d_level r)).
    change (inject_Z 1) with 1%Q. lra.
Qed.

(** The sum of the scores is an integer. *)
Lemma sumQ_scores_integer (data : list DiagnosisResult) :
  exists t : Z,
    (sumQ (severityScores data) == inject_Z t)%Q
    /\ (40 * Z.of_nat (length data) <= t <= 100 * Z.of_nat (length data))%Z.
Proof.
  induction data as [|r data (t & Ht & Hb)].
  - exists 0. split; [reflexivity|simpl; lia].
  - destruct (levelScore_integer (d_level r)) as (z & Hz & Hzb).
    exists (z + t). split.
    + change (sumQ (severityScores (r :: data)))
        with (levelScore (d_level r) + sumQ (severityScores data))%Q.
      by rewrite Hz, Ht, inject_Z_plus.
    + cbn [length]. lia.
Qed.

Lemma length_positive (data : list DiagnosisResult) :
  data <> [] -> (0 < inject_Z (Z.of_nat (length data)))%Q.
Proof.
  intros Hne. destruct data as [|r data]; [done|].
  change 0%Q with (inject_Z 0). rewrite <- Zlt_Qlt. simpl length. lia.
Qed.

Lemma length_severityScores (data : list DiagnosisResult) :
  length (severityScores data) = length data.
Proof. apply length_map. Qed.

Lemma average_bounds (data : list DiagnosisResult) :
  data <> [] -> (40 <= average (severityScores data) <= 100)%Q.
Proof.
  intros Hne. pose proof (length_positive data Hne) as Hn.
  pose proof (sumQ_scores_bounds data) as [Hlo Hhi].
  unfold average. rewrite length_severityScores.
  split.
  - apply Qle_shift_div_l; [done|lra].
  - apply Qle_shift_div_r; [done|lra].
Qed.

Lemma roundedTo_proper (digits : nat) (x r r' : Q) :
  (r == r')%Q -> roundedTo digits x r -> roundedTo digits x r'.
Proof.
  intros Heq (n & Hr & Hlo & Hhi). exists n. split; [|done].
  by rewrite <- Heq.
Qed.

(** An array has fewer than 2^32 elements, so the running total of
    [reduce] is an integer far below 2^53: no addition rounds. *)
Lemma totalScore_from (data : list DiagnosisResult) (acc : Q) (a : Z) :
  (acc == inject_Z a)%Q -> (0 <= a)%Z ->
  (a + 100 * Z.of_nat (length data) <= 2 ^ 53)%Z ->
  (fold_left (fun sum r => add sum (levelScore (d_level r))) data acc
   == acc + sumQ (severityScores data))%Q.
Proof.
  revert acc a. induction data as [|r data IH]; intros acc a Hacc Ha Hbound.
  - unfold sumQ. simpl. lra.
  - cbn [fold_left].
    destruct (levelScore_integer (d_level r)) as (z & Hz & Hzb).
    cbn [length] in Hbound.
    assert (Hadd : (add acc (levelScore (d_level r)) == inject_Z (a + z))%Q).
    { apply add_integers; [done|by rewrite Hz|lia..]. }
    rewrite (IH _ (a + z)%Z Hadd) by lia.
    change (sumQ (severityScores (r :: data)))
      with (levelScore (d_level r) + sumQ (severityScores data))%Q.
    rewrite Hadd, Hacc, inject_Z_plus, Hz. ring.
Qed.

(** The percent before [toFixed]: the average over 100, rounded, times
    100, rounded. *)
Lemma percent_computed (data : list DiagnosisResult) :
  data <> [] -> (Z.of_nat (length data) < 2 ^ 32)%Z ->
  (mul (div (fold_left (fun sum r => add sum (levelScore (d_level r)))
               data 0)
            (mul (inject_Z (Z.of_nat (length data))) 100))
       100
   == binary64 (binary64 (average (severityScores data) / 100) * 100))%Q.
Proof.
  intros Hne Hlen. pose proof (length_positive data Hne) as Hn.
  pose proof Hlen as Hlen'.
  destruct (sumQ_scores_integer data) as (t & Ht & Htb).
  assert (Htotal :
    (fold_left (fun sum r => add sum (levelScore (d_level r))) data 0
     == inject_Z t)%Q).
  { rewrite (totalScore_from data 0 0); [|reflexivity|lia|lia].
    rewrite Ht. ring. }
  assert (Hn100 : (mul (inject_Z (Z.of_nat (length data))) 100
                   == inject_Z (Z.of_nat (length data) * 100))%Q).
  { apply mul_integers; [reflexivity|reflexivity|lia..]. }
  unfold mul at 1. apply binary64_proper.
  assert (H100 : (binary64 100 == 100)%Q) by (by vm_compute).
  rewrite H100.
  assert (Hdiv :
    (div (fold_left (fun sum r => add sum (levelScore (d_level r))) data 0)
         (mul (inject_Z (Z.of_nat (length data))) 100)
     == binary64 (average (severityScores data) / 100))%Q).
  { rewrite (div_integers _ _ t (Z.of_nat (length data) * 100))
      by (done || lia).
    apply binary64_proper. unfold average.
    rewrite length_severityScores, Ht, inject_Z_mult.
    change (inject_Z 100) with 100%Q. field. lra. }
  by rewrite Hdiv, binary64_idempotent.
Qed.

(** The computed percent never exceeds a bound that the average
    respects, for the bounds 40, 70 and 100, and is at least 40. *)
Lemma percent_upper (avg : Q) (bound : Z) :
  (0 <= avg)%Q -> (avg <= inject_Z bound)%Q ->
  bound = 40 \/ bound = 70 \/ bound = 100 ->
  (binary64 (binary64 (avg / 100) * 100) <= inject_Z bound)%Q.
Proof.
  intros H0 Hle Hbound.
  assert (Hx : (avg / 100 <= inject_Z bound / 100)%Q).
  { apply Qle_shift_div_l; [reflexivity|].
    assert (Heq : (avg / 100 * 100 == avg)%Q) by field. by rewrite Heq. }
  assert (Hx0 : (0 <= avg / 100)%Q) by (apply Qle_shift_div_l; lra).
  pose proof (binary64_mono _ _ Hx0 Hx) as Hq.
  pose proof (binary64_nonneg _ Hx0) as Hq0.
  assert (Hy : (binary64 (avg / 100) * 100
                <= binary64 (inject_Z bound / 100) * 100)%Q) by lra.
  apply Qle_trans
    with (binary64 (binary64 (inject_Z bound / 100) * 100)).
  { apply binary64_mono; [lra|done]. }
  destruct Hbound as [->|[->| ->]]; by vm_compute.
Qed.

Lemma percent_lower (avg : Q) :
  (40 <= avg)%Q -> (40 <= binary64 (binary64 (avg / 100) * 100))%Q.
Proof.
  intros Hle.
  assert (Hx : (40 / 100 <= avg / 100)%Q).
  { apply Qle_shift_div_l; [reflexivity|].
    assert (Heq : (40 / 100 * 100 == 40)%Q) by field. by rewrite Heq. }
  pose proof (binary64_mono (40 / 100) (avg / 100) ltac:(by vm_compute) Hx)
    as Hq.
  assert (Hq0 : (0 <= binary64 (40 / 100))%Q) by (by vm_compute).
  apply Qle_trans with (binary64 (binary64 (40 / 100) * 100)).
  { by vm_compute. }
  apply binary64_mono; lra.
Qed.

(** The two roundings move the percent by less than 2^-45 off the
    average. *)
Lemma percent_error (avg : Q) :
  (40 <= avg <= 100)%Q ->
  (Qabs (binary64 (binary64 (avg / 100) * 100) - avg) <= 2 ^ (-45))%Q.
Proof.
  intros [Hlo Hhi]. set (x := (avg / 100)%Q).
  assert (Hx : (x * 100 == avg)%Q) by (subst x; field).
  assert (Hxb : (2 # 5 <= x <= 1)%Q) by (split; lra).
  assert (Heps : ((2 ^ (-53) : Q) == 1 # 9007199254740992)%Q) by reflexivity.
  assert (H45 : ((2 ^ (-45) : Q) == 256 # 9007199254740992)%Q) by reflexivity.
  assert (Hsmall : (2 ^ (-1022) <= 1 # 5)%Q) by (by vm_compute).
  pose proof (binary64_error x ltac:(lra)) as Hq.
  apply Qabs_Qle_condition in Hq.
  set (q := binary64 x) in *.
  pose proof (binary64_error (q * 100) ltac:(lra)) as Hp.
  apply Qabs_Qle_condition in Hp.
  set (p := binary64 (q * 100)) in *.
  rewrite Heps in Hq, Hp. rewrite H45.
  apply Qabs_Qle_condition. split; nra.
Qed.

(** Between an integer sum of [n] scores and a threshold there is a
    gap that the rounding error cannot bridge. *)
Lemma average_above (data : list DiagnosisResult) (bound : Z) :
  data <> [] -> (Z.of_nat (length data) < 2 ^ 32)%Z ->
  (inject_Z bound < average (severityScores data))%Q ->
  (inject_Z bound + 2 ^ (-32) <= average (severityScores data))%Q.
Proof.
  intros Hne Hlen Hlt. pose proof (length_positive data Hne) as Hn.
  pose proof Hlen as Hlen'.
  destruct (sumQ_scores_integer data) as (t & Ht & _).
  unfold average in *. rewrite length_severityScores, Ht in *.
  set (n := Z.of_nat (length data)) in *.
  assert (Hlt' : (inject_Z bound * inject_Z n < inject_Z t)%Q).
  { apply (Qmult_lt_r _ _ (inject_Z n)) in Hlt; [|done].
    assert (Heq : (inject_Z t / inject_Z n * inject_Z n == inject_Z t)%Q)
      by (field; lra).
    by rewrite Heq in Hlt. }
  rewrite <- inject_Z_mult, <- Zlt_Qlt in Hlt'.
  assert (Hint : (bound * n + 1 <= t)%Z) by lia.
  rewrite Zle_Qle, inject_Z_plus, inject_Z_mult in Hint.
  apply Qle_shift_div_l; [done|].
  assert (H32 : ((2 ^ (-32) : Q) == 1 # 4294967296)%Q) by reflexivity.
  assert (Hn32 : (inject_Z n <= 4294967296)%Q).
  { change 4294967296%Q with (inject_Z (2 ^ 32)). rewrite <- Zle_Qle. lia. }
  rewrite H32. change (inject_Z 1) with 1%Q in Hint. nra.
Qed.

(** The computed percent lies on the same side of 40 and of 70 as the
    average, and between 40 and 100. *)
Lemma percent_thresholds (data : list DiagnosisResult) (p : Q) :
  data <> [] -> (Z.of_nat (length data) < 2 ^ 32)%Z ->
  (p == binary64 (binary64 (average (severityScores data) / 100) * 100))%Q ->
  (40 <= p <= 100)%Q
  /\ ((p <= 40)%Q <-> (average (severityScores data) <= 40)%Q)
  /\ ((p <= 70)%Q <-> (average (severityScores data) <= 70)%Q).
Proof.
  intros Hne Hlen Hp.
  pose proof (average_bounds data Hne) as [Hlo Hhi].
  pose proof (percent_error _ (conj Hlo Hhi)) as Herr.
  assert (H45 : ((2 ^ (-45) : Q) == 1 # 35184372088832)%Q) by reflexivity.
  assert (H32 : ((2 ^ (-32) : Q) == 1 # 4294967296)%Q) by reflexivity.
  apply Qabs_Qle_condition in Herr. rewrite H45 in Herr.
  set (avg := average (severityScores data)) in *.
  assert (Hbelow : forall bound : Z,
            bound = 40 \/ bound = 70 \/ bound = 100 ->
            (avg <= inject_Z bound)%Q -> (p <= inject_Z bound)%Q).
  { intros bound Hb Hle. rewrite Hp. apply percent_upper; [lra|done..]. }
  assert (Habove : forall bound : Z,
            (inject_Z bound < avg)%Q -> (inject_Z bound < p)%Q).
  { intros bound Hb.
    pose proof (average_above data bound Hne Hlen Hb) as Hgap.
    fold avg in Hgap. rewrite H32 in Hgap. rewrite Hp. lra. }
  split; [|split].
  - split; [rewrite Hp; by apply percent_lower|].
    apply (Hbelow 100); [auto|exact Hhi].
  - split; [|apply (Hbelow 40); auto].
    intros H. apply Qnot_lt_le. intros Hlt.
    pose proof (Habove 40 Hlt) as Hgt.
    change (inject_Z 40) with 40%Q in Hgt. lra.
  - split; [|apply (Hbelow 70); auto].
    intros H. apply Qnot_lt_le. intros Hlt.
    pose proof (Habove 70 Hlt) as Hgt.
    change (inject_Z 70) with 70%Q in Hgt. lra.
Qed.

(** A tenth that rounds the computed percent is also a nearest tenth of
    the average: the average is a fraction over fewer than 2^32, so it
    is either exactly on a tie or too far from one for the rounding
    error to matter. *)
Lemma tenth_of_average (t N n : Z) (pp : Q) :
  (0 < N < 2 ^ 32)%Z ->
  (Qabs (pp - inject_Z t / inject_Z N) <= 2 ^ (-45))%Q ->
  (pp * 10 - (1 # 2) < inject_Z n)%Q ->
  (inject_Z n <= pp * 10 + (1 # 2))%Q ->
  (Qabs (inject_Z t / inject_Z N * 10 - inject_Z n) <= 1 # 2)%Q.
Proof.
  intros [HN0 HN32] Herr Hlo Hhi.
  assert (HNq : (0 < inject_Z N)%Q).
  { change 0%Q with (inject_Z 0). by rewrite <- Zlt_Qlt. }
  assert (HNq32 : (inject_Z N <= 4294967296)%Q).
  { change 4294967296%Q with (inject_Z (2 ^ 32)). rewrite <- Zle_Qle. lia. }
  assert (H45 : ((2 ^ (-45) : Q) == 1 # 35184372088832)%Q) by reflexivity.
  rewrite H45 in Herr. apply Qabs_Qle_condition in Herr.
  set (a := (inject_Z t / inject_Z N)%Q) in *.
  assert (Ha : (a * inject_Z N == inject_Z t)%Q) by (subst a; field; lra).
  set (T := inject_Z t) in *. set (NN := inject_Z N) in *.
  set (nn := inject_Z n) in *.
  assert (H1 : (20 * T < 2 * nn * NN + NN + 1)%Q) by nra.
  assert (H2 : (2 * nn * NN < 20 * T + NN + 1)%Q) by nra.
  assert (Hz1 : (20 * t < 2 * n * N + N + 1)%Z).
  { rewrite Zlt_Qlt.
    rewrite !inject_Z_plus, !inject_Z_mult. exact H1. }
  assert (Hz2 : (2 * n * N < 20 * t + N + 1)%Z).
  { rewrite Zlt_Qlt.
    rewrite !inject_Z_plus, !inject_Z_mult. exact H2. }
  assert (Hz1' : (20 * t <= 2 * n * N + N)%Z) by lia.
  assert (Hz2' : (2 * n * N <= 20 * t + N)%Z) by lia.
  rewrite Zle_Qle in Hz1', Hz2'.
  rewrite !inject_Z_plus, !inject_Z_mult in Hz1', Hz2'.
  fold T NN nn in Hz1', Hz2'.
  change (inject_Z 20) with 20%Q in Hz1', Hz2'.
  change (inject_Z 2) with 2%Q in Hz1', Hz2'.
  apply Qabs_Qle_condition. split; nra.
Qed.

(** C6, as the code has it. An empty result list gives no conclusion,
    and a diagnosis without answers gives an empty list and no
    conclusion. For a non-empty list (an array, so of fewer than 2^32
    results) the conclusion's percent is the average of the severity
    scores (Minor 40, Moderate 70, Severe 100) to one decimal: the double
    of a tenth nearest to the average, of either neighbour when the
    average lies exactly between two tenths. Its label follows the
    average itself: Minor up to 40, Moderate up to 70, Severe above. *)
Theorem conclusion_of_results (data : list DiagnosisResult) :
  calculateConclusion [] = None
  /\ (forall symptoms rules, runDiagnosis symptoms rules ∅ = ([], None))
  /\ (levelScore A == 40 /\ levelScore B == 70 /\ levelScore C == 100)%Q
  /\ (data <> [] -> (Z.of_nat (length data) < 2 ^ 32)%Z ->
      exists c d,
        calculateConclusion data = Some c /\
        nearestTo 1 (average (severityScores data)) d /\
        (percent c == binary64 d)%Q /\
        ((average (severityScores data) <= 40)%Q -> label c = "Minor") /\
        ((40 < average (severityScores data) <= 70)%Q ->
         label c = "Moderate") /\
        ((70 < average (severityScores data))%Q -> label c = "Severe")).
Proof.
  split; [done|]. split.
  { intros symptoms rules. unfold runDiagnosis.
    assert (Hout : diagnosisOutput symptoms rules ∅ = []).
    { rewrite diagnosisOutput_omap. induction rules as [|rule rules' IH]; [done|].
      simpl. destruct (unanswered_is_empty symptoms rule) as [_ ->]. exact IH. }
    by rewrite Hout. }
  split; [repeat split; reflexivity|].
  intros Hne Hlen.
  pose proof (percent_computed data Hne Hlen) as Hp.
  pose proof (average_bounds data Hne) as [Hlo Hhi].
  pose proof (percent_error _ (conj Hlo Hhi)) as Herr.
  pose proof (percent_lower _ Hlo) as Hp40.
  pose proof (length_positive data Hne) as Hn.
  assert (H45 : ((2 ^ (-45) : Q) == 1 # 35184372088832)%Q) by reflexivity.
  assert (H32 : ((2 ^ (-32) : Q) == 1 # 4294967296)%Q) by reflexivity.
  unfold calculateConclusion.
  assert (Hlen0 : Nat.eqb (length data) 0 = false).
  { apply Nat.eqb_neq. by destruct data. }
  rewrite Hlen0.
  set (p := mul _ 100) in *.
  set (avg := average (severityScores data)) in *.
  set (pp := binary64 (binary64 (avg / 100) * 100)) in *.
  exists {| percent := toFixed 1 p;
            label := if Qle_bool p 40 then "Minor"
                     else if Qle_bool p 70 then "Moderate" else "Severe" |},
         (toFixedDecimal 1 pp).
  split; [reflexivity|]. cbn [percent label].
  split; [|split].
  - destruct (toFixedDecimal_rounded 1 pp ltac:(lra)) as (n & Hd & Hnlo & Hnhi).
    exists n. split; [exact Hd|].
    destruct (sumQ_scores_integer data) as (t & Ht & _).
    assert (Havg : (avg == inject_Z t / inject_Z (Z.of_nat (length data)))%Q).
    { subst avg. unfold average. by rewrite length_severityScores, Ht. }
    rewrite Havg in Herr |- *.
    change (inject_Z (10 ^ Z.of_nat 1)) with 10%Q in *.
    apply (tenth_of_average t (Z.of_nat (length data)) n pp); try done.
    split.
    + apply Nat.eqb_neq in Hlen0. lia.
    + exact Hlen.
  - unfold toFixed. rewrite Hp. subst pp.
    by rewrite binary64_idempotent.
  - apply Qabs_Qle_condition in Herr. rewrite H45 in Herr.
    assert (Habove : forall bound : Z,
              (inject_Z bound < avg)%Q -> (inject_Z bound < p)%Q).
    { intros bound Hb.
      pose proof (average_above data bound Hne Hlen Hb) as Hgap.
      fold avg in Hgap. rewrite H32 in Hgap. rewrite Hp. lra. }
    assert (Hbelow : forall bound : Z,
              bound = 40 \/ bound = 70 ->
              (avg <= inject_Z bound)%Q -> (p <= inject_Z bound)%Q).
    { intros bound Hb Hle. rewrite Hp.
      apply percent_upper; [lra|done|]. destruct Hb; auto. }
    destruct (Qle_bool p 40) eqn:H40; [apply Qle_bool_iff in H40|].
    { split; [done|]. split; intros H.
      - exfalso. pose proof (Habove 40 ltac:(apply H)).
        change (inject_Z 40) with 40%Q in *. lra.
      - exfalso. pose proof (Habove 40 ltac:(change (inject_Z 40) with 40%Q; lra)).
        change (inject_Z 40) with 40%Q in *. lra. }
    assert (~ (p <= 40)%Q) as Hn40.
    { intros H. apply Qle_bool_iff in H. congruence. }
    destruct (Qle_bool p 70) eqn:H70; [apply Qle_bool_iff in H70|].
    { split; [intros H; exfalso; apply Hn40; by apply (Hbelow 40); auto|].
      split; [done|]. intros H. exfalso.
      pose proof (Habove 70 H). change (inject_Z 70) with 70%Q in *. lra. }
    assert (~ (p <= 70)%Q) as Hn70.
    { intros H. apply Qle_bool_iff in H. congruence. }
    split; [intros H; exfalso; apply Hn40; by apply (Hbelow 40); auto|].
    split; [|done]. intros [_ H]. exfalso. apply Hn70.
    by apply (Hbelow 70); auto.
Qed.

Lemma conclusion_of_results_witness :
  (exists c d,
     calculateConclusion sevenResults = Some c /\
     nearestTo 1 (average (severityScores sevenResults)) d /\
     (percent c == binary64 d)%Q /\
     label c = "Moderate")
  /\ (exists c,
        calculateConclusion eightResults = Some c /\
        (average (severityScores eightResults) == 5125 # 100)%Q /\
        (percent c == binary64 (512 # 10))%Q).
Proof.
  split.
  - destruct (conclusion_of_results sevenResults) as (_ & _ & _ & H).
    destruct H as (c & d & Hc & Hr & Hp & _ & Hmod & _);
      [discriminate|by vm_compute|].
    exists c, d. split; [done|]. split; [done|]. split; [done|].
    apply Hmod. vm_compute. split; [reflexivity|discriminate].
  - eexists. split; [vm_compute; reflexivity|]. cbn [percent].
    split; by vm_compute.
Defined.

(** C6 as stated fails: with six Minor results and one Moderate result
    the average is 310/7 = 44.2857..., the conclusion's percent is the
    number 44.3. *)
Lemma conclusion_percent_not_average :
  exists c,
    calculateConclusion sevenResults = Some c /\
    (percent c == binary64 (443 # 10))%Q /\
    (average (severityScores sevenResults) == 310 # 7)%Q /\
    ~ (percent c == average (severityScores sevenResults))%Q.
Proof.
  eexists. split; [vm_compute; reflexivity|]. cbn [percent].
  repeat split; vm_compute; discriminate.
Qed.

End ConclusionFacts.

(* ===================================================================== *)
(** ** Alert dispatcher *)
(* ===================================================================== *)

Section MostSevere.
Import AlertMqtt Reference Scenarios.

Variable getStatusColor : Q -> ParameterType -> StatusLevel.

Lemma typeName_not_replaceable (p : ParameterType) :
  replaceable (Some (typeName p)) = false.
Proof. by destruct p. Qed.

(** The loop keeps a parameter once one is recorded, and overwrites an
    empty slot or the health index with the first Critical parameter. *)
Lemma checkParameter_fold (data : SensorReading) (ps : list ParameterType)
    (rs : list Reason) (msp : option string) (msv : option Q) :
  let crit := omap (fun p =>
                      match field data p with
                      | Some v => if isCriticalLevel (getStatusColor v p)
                                  then Some (p, v) else None
                      | None => None
                      end) ps in
  fold_left (checkParameter getStatusColor data) ps (rs, msp, msv)
  = (rs ++ map (fun pv => ParameterReason (fst pv) (snd pv)) crit,
     match crit with
     | (p, v) :: _ => if replaceable msp then Some (typeName p) else msp
     | [] => msp
     end,
     match crit with
     | (p, v) :: _ => if replaceable msp then Some v else msv
     | [] => msv
     end).
Proof.
  revert rs msp msv. induction ps as [|p ps IH]; intros rs msp msv.
  - simpl. by rewrite app_nil_r.
  - cbn [fold_left]. unfold checkParameter at 2.
    cbv zeta. cbn [omap list_omap].
    destruct (field data p) as [v|]; [|apply IH].
    destruct (isCriticalLevel (getStatusColor v p)); [|apply IH].
    destruct (replaceable msp) eqn:Hrep; rewrite IH; cbv zeta;
      rewrite <- app_assoc; cbn [map fst snd app].
    + rewrite typeName_not_replaceable.
      by destruct (omap _ ps) as [|[? ?] ?].
    + rewrite Hrep. by destruct (omap _ ps) as [|[? ?] ?].
Qed.

(** C2, as the code has it. A Critical individual parameter takes
    priority over a critical health index: the parameter reported with
    the alert is the first Critical one in the order vibration, surface
    temperature, bearing temperature, current, voltage, power factor,
    dust; the health index is reported only when it is below the
    threshold and no individual parameter is Critical. *)
Theorem most_severe_parameter (data : SensorReading) (healthThreshold : Q) :
  parametersToCheck
  = [PVibrationRms; PMotorSurfaceTemp; PBearingTemp; PMotorCurrent;
     PGridVoltage; PPowerFactor; PDustDensity]
  /\ let r := detectCriticalConditions getStatusColor data healthThreshold in
     match criticalParameters getStatusColor data with
     | (p, v) :: _ =>
         mostSevereParameter r = Some (typeName p) /\
         mostSevereValue r = Some v /\ hasCritical r = true
     | [] =>
         match healthIndex data with
         | Some h =>
             if Qlt_le_dec h healthThreshold
             then mostSevereParameter r = Some "healthIndex"%string /\
                  mostSevereValue r = Some h /\ hasCritical r = true
             else mostSevereParameter r = None /\ hasCritical r = false
         | None => mostSevereParameter r = None /\ hasCritical r = false
         end
     end.
Proof.
  split; [reflexivity|].
  unfold detectCriticalConditions, criticalParameters.
  destruct (checkHealthIndex data healthThreshold) as [[rs msp] msv] eqn:Hh.
  rewrite checkParameter_fold.
  set (crit := omap _ parametersToCheck).
  unfold checkHealthIndex in Hh.
  destruct crit as [|[p v] crit'].
  - simpl. rewrite app_nil_r.
    destruct (healthIndex data) as [h|].
    + destruct (Qlt_le_dec h healthThreshold); by injection Hh as <- <- <-.
    + by injection Hh as <- <- <-.
  - cbn [mostSevereParameter mostSevereValue hasCritical].
    assert (Hrep : replaceable msp = true).
    { destruct (healthIndex data) as [h|];
        [destruct (Qlt_le_dec h healthThreshold)|];
        by injection Hh as <- <- <-. }
    rewrite Hrep. split; [done|]. split; [done|].
    rewrite length_app. simpl. apply Nat.ltb_lt. lia.
Qed.

End MostSevere.

Section MostSevereScenario.
Import AlertMqtt Reference Scenarios.

(** C2 as stated fails: with vibration 5.0 mm/s Critical and health index
    50 below the threshold 60, the alert reports the vibration. *)
Lemma health_index_not_prioritised :
  healthIndex vibratingReading = Some 50%Q
  /\ (50 < criticalHealthThreshold DEFAULT_CONFIG)%Q
  /\ specStatus 5 PVibrationRms = critical
  /\ mostSevereParameter
       (detectCriticalConditions specStatus vibratingReading
          (criticalHealthThreshold DEFAULT_CONFIG))
     = Some "vibrationRms"%string
  /\ mostSevereParameter
       (detectCriticalConditions specStatus vibratingReading
          (criticalHealthThreshold DEFAULT_CONFIG))
     <> Some "healthIndex"%string.
Proof.
  split; [reflexivity|]. split; [reflexivity|]. split; [reflexivity|].
  split; [reflexivity|]. vm_compute. discriminate.
Qed.

End MostSevereScenario.

Section Dispatcher.
Import AlertMqtt Reference Scenarios.

Variable getStatusColor : Q -> ParameterType -> StatusLevel.
Variable config : AlertMqttConfig.

Abbreviation detect data :=
  (detectCriticalConditions getStatusColor data
     (criticalHealthThreshold config)).
Abbreviation step := (checkAndSendAlert getStatusColor config).
Abbreviation run := (runEvaluations getStatusColor config).

(** A Critical evaluation inside the cooldown window does nothing. *)
Lemma critical_within_cooldown (data : SensorReading) (now : Z)
    (success : bool) (st : AlertState) :
  hasCritical (detect data) = true ->
  now - lastAlertTimeRef st < alertCooldown config ->
  step data now success st = (NoEffect, st).
Proof.
  intros Hcrit Hlt. unfold checkAndSendAlert. rewrite Hcrit.
  by apply Z.ltb_lt in Hlt as ->.
Qed.

(** Outside of it the alert is sent, whatever the latch says. *)
Lemma critical_after_cooldown (data : SensorReading) (now : Z)
    (success : bool) (st : AlertState) :
  hasCritical (detect data) = true ->
  alertCooldown config <= now - lastAlertTimeRef st ->
  step data now success st
  = (SendOn (mostSevereParameter (detect data))
            (mostSevereValue (detect data)) success,
     if success
     then {| lastAlertTimeRef := now; wasInCriticalRef := true |}
     else st).
Proof.
  intros Hcrit Hle. unfold checkAndSendAlert. rewrite Hcrit.
  by apply Z.ltb_ge in Hle as ->.
Qed.

(** *** Overlapping evaluations *)

Abbreviation begin := (beginEvaluation getStatusColor config).
Abbreviation hstep := (hookStep getStatusColor config).
Abbreviation hrun := (hookRun getStatusColor config).

Lemma begin_within_cooldown (data : SensorReading) (now : Z)
    (st : AlertState) :
  hasCritical (detect data) = true ->
  now - lastAlertTimeRef st < alertCooldown config ->
  begin data now st = None.
Proof.
  intros Hcrit Hlt. unfold beginEvaluation. rewrite Hcrit.
  by apply Z.ltb_lt in Hlt as ->.
Qed.

Lemma begin_after_cooldown (data : SensorReading) (now : Z)
    (st : AlertState) :
  hasCritical (detect data) = true ->
  alertCooldown config <= now - lastAlertTimeRef st ->
  begin data now st
  = Some (CommandOn (mostSevereParameter (detect data))
                    (mostSevereValue (detect data)), AwaitOn now).
Proof.
  intros Hcrit Hle. unfold beginEvaluation. rewrite Hcrit.
  by apply Z.ltb_ge in Hle as ->.
Qed.

(** What an evaluation sends, and on which reading of the references. *)
Lemma begin_cases (data : SensorReading) (now : Z) (st : AlertState) :
  match begin data now st with
  | Some (CommandOn _ _, p) =>
      p = AwaitOn now /\ alertCooldown config <= now - lastAlertTimeRef st
  | Some (CommandOff, p) => p = AwaitOff /\ wasInCriticalRef st = true
  | None => True
  end.
Proof.
  unfold beginEvaluation. destruct (hasCritical (detect data)).
  - by destruct (Z.ltb_spec (now - lastAlertTimeRef st) (alertCooldown config)).
  - by destruct (wasInCriticalRef st).
Qed.

Lemma hrun_cons (ev : HookEvent) (events : list HookEvent) (h : HookState) :
  hrun (ev :: events) h
  = (fst (hstep ev h) ++ fst (hrun events (snd (hstep ev h))),
     snd (hrun events (snd (hstep ev h)))).
Proof.
  cbn [hookRun]. destruct (hstep ev h) as [o h1].
  cbn [fst snd]. by destruct (hrun events h1).
Qed.



(** C3 fails on the code when the evaluations overlap. Two Critical
    readings less than [alertCooldown] apart, the first of which passes
    the cooldown test. If the send of the first has settled when the
    second is evaluated, the second is suppressed and one ON is sent. If
    the second reading arrives while that send is still awaited, it
    reads the old [lastAlertTimeRef], passes the test as well, and two
    ONs are sent and delivered; the first does update the time of the
    last alert, but only after the second has been let through. *)
Theorem second_critical_within_cooldown (st : AlertState)
    (data1 data2 : SensorReading) (now1 now2 : Z) :
  hasCritical (detect data1) = true ->
  hasCritical (detect data2) = true ->
  alertCooldown config <= now1 - lastAlertTimeRef st ->
  now1 <= now2 ->
  now2 - now1 < alertCooldown config ->
  let h := {| refs := st; waiting := [] |} in
  let on1 := CommandOn (mostSevereParameter (detect data1))
                       (mostSevereValue (detect data1)) in
  let on2 := CommandOn (mostSevereParameter (detect data2))
                       (mostSevereValue (detect data2)) in
  hrun [Reading data1 now1; Settled 0 true; Reading data2 now2] h
  = ([Sent now1 on1; Confirmed (AwaitOn now1) true; Quiet now2],
     {| refs := {| lastAlertTimeRef := now1; wasInCriticalRef := true |};
        waiting := [] |})
  /\ hrun [Reading data1 now1; Reading data2 now2;
           Settled 0 true; Settled 0 true] h
     = ([Sent now1 on1; Sent now2 on2;
         Confirmed (AwaitOn now1) true; Confirmed (AwaitOn now2) true],
        {| refs := {| lastAlertTimeRef := now2; wasInCriticalRef := true |};
           waiting := [] |})
  /\ countSentOn
       (fst (hrun [Reading data1 now1; Reading data2 now2;
                   Settled 0 true; Settled 0 true] h)) = 2%nat.
Proof.
  intros Hc1 Hc2 Hfirst Horder Hgap h on1 on2.
  assert (Hsecond : alertCooldown config <= now2 - lastAlertTimeRef st)
    by lia.
  assert (Hserial :
    hrun [Reading data1 now1; Settled 0 true; Reading data2 now2] h
    = ([Sent now1 on1; Confirmed (AwaitOn now1) true; Quiet now2],
       {| refs := {| lastAlertTimeRef := now1; wasInCriticalRef := true |};
          waiting := [] |})).
  { cbn [hookRun hookStep h refs waiting].
    rewrite begin_after_cooldown by done.
    cbn [app lookup list_lookup resumeEvaluation delete list_delete refs
         waiting].
    by rewrite begin_within_cooldown. }
  assert (Hoverlap :
    hrun [Reading data1 now1; Reading data2 now2;
          Settled 0 true; Settled 0 true] h
    = ([Sent now1 on1; Sent now2 on2;
        Confirmed (AwaitOn now1) true; Confirmed (AwaitOn now2) true],
       {| refs := {| lastAlertTimeRef := now2; wasInCriticalRef := true |};
          waiting := [] |})).
  { cbn [hookRun hookStep h refs waiting].
    rewrite begin_after_cooldown by done.
    cbn [app refs waiting]. by rewrite begin_after_cooldown. }
  split; [exact Hserial|]. split; [exact Hoverlap|].
  by rewrite Hoverlap.
Qed.

(** When every send settles before the next reading is evaluated, the
    hook does what [runEvaluations] does, and its log is the one of the
    finished evaluations. *)
Lemma sequential_schedule_step (e : Evaluation) (st : AlertState) :
  hrun [Reading (ev_data e) (ev_now e); Settled 0 (ev_success e)]
       {| refs := st; waiting := [] |}
  = (observe (ev_now e,
              fst (step (ev_data e) (ev_now e) (ev_success e) st)),
     {| refs := snd (step (ev_data e) (ev_now e) (ev_success e) st);
        waiting := [] |}).
Proof.
  cbn [hookRun hookStep refs waiting].
  unfold beginEvaluation, checkAndSendAlert.
  destruct (hasCritical (detect (ev_data e))).
  - destruct (ev_now e - lastAlertTimeRef st <? alertCooldown config);
      [done|].
    cbn [app lookup list_lookup resumeEvaluation delete list_delete refs
         waiting fst snd observe].
    by destruct (ev_success e).
  - destruct (wasInCriticalRef st); [|done].
    cbn [app lookup list_lookup resumeEvaluation delete list_delete refs
         waiting fst snd observe].
    by destruct (ev_success e).
Qed.

Lemma hrun_app (events1 events2 : list HookEvent) (h : HookState) :
  hrun (events1 ++ events2) h
  = (fst (hrun events1 h) ++ fst (hrun events2 (snd (hrun events1 h))),
     snd (hrun events2 (snd (hrun events1 h)))).
Proof.
  revert h. induction events1 as [|ev events1 IH]; intros h.
  - cbn [app hookRun fst snd]. by destruct (hrun events2 h).
  - rewrite <- app_comm_cons, !hrun_cons, IH. cbn [fst snd].
    by rewrite app_assoc.
Qed.

End Dispatcher.

Section DispatcherScenarios.
Import AlertMqtt Reference Scenarios.

Lemma vibrating_is_critical :
  hasCritical (detectCriticalConditions specStatus vibratingReading
                 (criticalHealthThreshold DEFAULT_CONFIG)) = true.
Proof. reflexivity. Qed.


Lemma second_critical_within_cooldown_witness :
  countSentOn
    (fst (hookRun specStatus DEFAULT_CONFIG
            [Reading vibratingReading 30000; Reading vibratingReading 30010;
             Settled 0 true; Settled 0 true]
            {| refs := initialAlertState; waiting := [] |})) = 2%nat
  /\ countSentOn
       (fst (hookRun specStatus DEFAULT_CONFIG
               [Reading vibratingReading 30000; Settled 0 true;
                Reading vibratingReading 30010]
               {| refs := initialAlertState; waiting := [] |})) = 1%nat.
Proof.
  destruct (second_critical_within_cooldown specStatus DEFAULT_CONFIG
              initialAlertState vibratingReading vibratingReading
              30000 30010) as (Hserial & _ & Hcount);
    [exact vibrating_is_critical|exact vibrating_is_critical
    |simpl; lia|lia|simpl; lia|].
  split; [exact Hcount|]. by rewrite Hserial.
Defined.


End DispatcherScenarios.

(* ===================================================================== *)
(** ** Messaging session *)
(* ===================================================================== *)

(** Runs the session monad symbolically. *)
Ltac run_session :=
  repeat (unfold Mqtt.connectMqtt, Mqtt.disconnectMqtt, Mqtt.clientEvent,
            Mqtt.onEvent, Mqtt.onEnd, Mqtt.notifyConnection, Mqtt.publish,
            Mqtt.sendAlertPayload, Mqtt.perform, Mqtt.get, Mqtt.modify,
            Mqtt.emit, Mqtt.skip, Mqtt.result, Mqtt.final, Mqtt.outputs,
            mbind, mret, Mqtt.M_bind, Mqtt.M_ret; cbn).

Section Session.
Import Mqtt Scenarios.

Lemma connectMqtt_connected (s : State) (c : MqttClient)
    (onConnect onMessage : option nat) (throws : bool) :
  client s = Some c -> connected c = true -> isCleaningUp s = false ->
  connectMqtt onConnect onMessage throws s
  = (Some (handle c), setCallbacks onConnect onMessage s,
     match onConnectionChange (setCallbacks onConnect onMessage s) with
     | Some cb => [ConnectionChange cb true]
     | None => []
     end).
Proof.
  intros Hc Hconn Hclean. run_session. rewrite Hclean, Hc, Hconn. cbn.
  by destruct onConnect, (onConnectionChange s).
Qed.

Lemma sessionConnected_client (s : State) :
  sessionConnected s ->
  exists c, client s = Some c /\ connected c = true /\ isCleaningUp s = false.
Proof.
  intros [Hconn Hclean]. unfold isMqttConnected in Hconn.
  destruct (client s) as [c|]; [|done]. by exists c.
Qed.

Lemma connectAll_connected (calls : list (option nat * option nat))
    (s : State) (c : MqttClient) :
  client s = Some c -> connected c = true -> isCleaningUp s = false ->
  Forall (fun h => h = Some (handle c)) (result (connectAll calls s))
  /\ length (result (connectAll calls s)) = length calls
  /\ client (final (connectAll calls s)) = Some c
  /\ isCleaningUp (final (connectAll calls s)) = false
  /\ connectCalls (final (connectAll calls s)) = connectCalls s
  /\ connectionAttempts (final (connectAll calls s)) = connectionAttempts s.
Proof.
  revert s. induction calls as [|[onConnect onMessage] calls IH];
    intros s Hc Hconn Hclean.
  - by repeat split.
  - pose proof (IH (setCallbacks onConnect onMessage s) Hc Hconn Hclean)
      as IHs.
    cbn [connectAll]. unfold mbind, M_bind, mret, M_ret.
    rewrite (connectMqtt_connected s c) by done.
    destruct (connectAll calls (setCallbacks onConnect onMessage s))
      as [[hs s'] o'].
    unfold result, final in *. cbn in *.
    destruct IHs as (Hall & Hlen & Hcl & Hcu & Hcc & Hca).
    split; [by constructor|]. split; [by rewrite Hlen|done].
Qed.

(** While a teardown is under way a connect request is turned down,
    whatever the transport's flag says. *)
Lemma connectMqtt_during_teardown (s : State)
    (onConnect onMessage : option nat) (throws : bool) :
  isCleaningUp s = true ->
  connectMqtt onConnect onMessage throws s
  = (None, setCallbacks onConnect onMessage s, []).
Proof. intros Hclean. run_session. by rewrite Hclean. Qed.

(** C7. A call of connect on a Connected session returns the handle of
    the existing connection, opens no transport connection and leaves
    the attempt counter alone; so do any number of such calls in a row,
    which all get the same handle. *)
Theorem connect_reuses_connection (s : State)
    (calls : list (option nat * option nat)) :
  sessionConnected s ->
  exists c,
    client s = Some c
    /\ (forall onConnect onMessage throws,
          result (connectMqtt onConnect onMessage throws s) = Some (handle c)
          /\ final (connectMqtt onConnect onMessage throws s)
             = setCallbacks onConnect onMessage s)
    /\ Forall (fun h => h = Some (handle c)) (result (connectAll calls s))
    /\ length (result (connectAll calls s)) = length calls
    /\ client (final (connectAll calls s)) = Some c
    /\ connectCalls (final (connectAll calls s)) = connectCalls s
    /\ connectionAttempts (final (connectAll calls s)) = connectionAttempts s.
Proof.
  intros Hs. destruct (sessionConnected_client s Hs) as (c & Hc & Hconn & Hcl).
  exists c. split; [done|]. split.
  - intros onConnect onMessage throws.
    by rewrite (connectMqtt_connected s c).
  - destruct (connectAll_connected calls s c) as (? & ? & ? & ? & ? & ?);
      done.
Qed.

Lemma connect_reuses_connection_witness :
  result (connectAll [(Some 3%nat, None); (None, None); (Some 4%nat, Some 5%nat)]
            connectedSession)
  = [Some 0%nat; Some 0%nat; Some 0%nat]
  /\ connectCalls (final (connectAll [(Some 3%nat, None); (None, None);
                                      (Some 4%nat, Some 5%nat)]
                            connectedSession)) = 1%nat.
Proof.
  destruct (connect_reuses_connection connectedSession
              [(Some 3%nat, None); (None, None); (Some 4%nat, Some 5%nat)])
    as (c & Hc & _ & Hall & Hlen & _ & Hcalls & _).
  - split; reflexivity.
  - injection Hc as <-. split; [reflexivity|exact Hcalls].
Defined.

End Session.

Section GivingUp.
Import Mqtt Scenarios.

Lemma connectMqtt_gaveUp (s : State) (onConnect onMessage : option nat)
    (throws : bool) :
  gaveUp s ->
  connectMqtt onConnect onMessage throws s
  = (None, setCallbacks onConnect onMessage s,
     [ConsoleError maxAttemptsMessage]).
Proof.
  intros (Hc & Hcon & Hcl & Hmax). apply Nat.leb_le in Hmax.
  unfold connectMqtt, get, modify, emit, mbind, mret, M_bind, M_ret.
  cbn -[Nat.leb]. by rewrite Hcl, Hc, Hcon, Hmax.
Qed.

Lemma perform_gaveUp (a : Action) (s : State) :
  gaveUp s ->
  gaveUp (final (perform a s))
  /\ connectCalls (final (perform a s)) = connectCalls s
  /\ connectionAttempts (final (perform a s)) = connectionAttempts s
  /\ Forall (fun o => isStatus o = false) (outputs (perform a s)).
Proof.
  intros Hg. destruct a as [onConnect onMessage throws| |e].
  - unfold perform, mbind, M_bind. rewrite connectMqtt_gaveUp by done.
    unfold final, outputs, skip, mret, M_ret. cbn.
    split; [exact Hg|]. repeat split. by repeat constructor.
  - destruct Hg as (Hc & Hcon & Hcl & Hmax).
    unfold perform, disconnectMqtt, mbind, M_bind, get. rewrite Hc.
    unfold final, outputs, skip, mret, M_ret. cbn. by repeat split.
  - destruct Hg as (Hc & Hcon & Hcl & Hmax).
    unfold perform, clientEvent, mbind, M_bind, get. rewrite Hc.
    unfold final, outputs, skip, mret, M_ret. cbn. by repeat split.
Qed.

Lemma performAll_gaveUp (acts : list Action) (s : State) :
  gaveUp s ->
  gaveUp (final (performAll acts s))
  /\ connectCalls (final (performAll acts s)) = connectCalls s
  /\ connectionAttempts (final (performAll acts s)) = connectionAttempts s
  /\ Forall (fun o => isStatus o = false) (outputs (performAll acts s)).
Proof.
  revert s. induction acts as [|a acts IH]; intros s Hg.
  - unfold final, outputs. cbn.
    split; [done|]. split; [done|]. split; [done|]. constructor.
  - destruct (perform_gaveUp a s Hg) as (Hg1 & Hcc1 & Hca1 & Ho1).
    cbn [performAll]. unfold mbind, M_bind.
    destruct (perform a s) as [[u s1] o1].
    unfold final, outputs in Hg1, Hcc1, Hca1, Ho1. cbn in Hg1, Hcc1, Hca1, Ho1.
    destruct (IH s1 Hg1) as (Hg2 & Hcc2 & Hca2 & Ho2).
    destruct (performAll acts s1) as [[u2 s2] o2].
    unfold final, outputs in *. cbn in *.
    split; [done|]. split; [congruence|]. split; [congruence|].
    by apply Forall_app.
Qed.

(** X29. Where the ceiling is applied. Once the attempt counter has
    reached the ceiling and no client object is left, the session has
    given up for good: whatever is asked of it afterwards, no client is
    made, the counter stays, no connection-status callback is invoked,
    and every connect request returns no handle and logs that the
    maximum of reconnection attempts is reached. *)
Theorem gives_up_at_ceiling (s : State) (acts : list Action) :
  client s = None -> isConnecting s = false -> isCleaningUp s = false ->
  (MAX_RECONNECT_ATTEMPTS <= connectionAttempts s)%nat ->
  let s' := final (performAll acts s) in
  client s' = None
  /\ connectCalls s' = connectCalls s
  /\ connectionAttempts s' = connectionAttempts s
  /\ Forall (fun o => isStatus o = false) (outputs (performAll acts s))
  /\ forall onConnect onMessage throws,
       result (connectMqtt onConnect onMessage throws s') = None
       /\ outputs (connectMqtt onConnect onMessage throws s')
          = [ConsoleError maxAttemptsMessage]
       /\ connectCalls (final (connectMqtt onConnect onMessage throws s'))
          = connectCalls s.
Proof.
  intros Hc Hcon Hcl Hmax s'.
  destruct (performAll_gaveUp acts s) as (Hg & Hcc & Hca & Ho); [done|].
  fold s' in Hg, Hcc, Hca.
  split; [apply Hg|]. split; [done|]. split; [done|]. split; [done|].
  intros onConnect onMessage throws.
  rewrite connectMqtt_gaveUp by done. by repeat split.
Qed.

Lemma gives_up_at_ceiling_witness :
  connectionAttempts tornDownSession = 11%nat
  /\ let s' := final (performAll
                        [ActConnect (Some 1%nat) None false;
                         ActEvent EvReconnect; ActDisconnect;
                         ActConnect None None false] tornDownSession) in
     client s' = None
     /\ connectCalls s' = 1%nat
     /\ result (connectMqtt (Some 1%nat) None false s') = None.
Proof.
  split; [reflexivity|].
  destruct (gives_up_at_ceiling tornDownSession
              [ActConnect (Some 1%nat) None false; ActEvent EvReconnect;
               ActDisconnect; ActConnect None None false])
    as (Hc & Hcalls & _ & _ & Hconn);
    [reflexivity|reflexivity|reflexivity|vm_compute; lia|].
  split; [exact Hc|]. split; [exact Hcalls|].
  apply (Hconn (Some 1%nat) None false).
Defined.

(** With the counter at 11, above the ceiling 10, the client is still
    there and still retrying; the next reconnection is counted like any
    other, and a connect request hands back that client without
    reporting anything. *)
Lemma session_keeps_retrying :
  connectionAttempts retryingSession = 11%nat
  /\ (MAX_RECONNECT_ATTEMPTS < connectionAttempts retryingSession)%nat
  /\ connectionAttempts (final (clientEvent EvReconnect retryingSession))
     = 12%nat
  /\ (ending <$> client (final (clientEvent EvReconnect retryingSession)))
     = Some false
  /\ connectMqtt None None false retryingSession
     = (Some 0%nat, retryingSession, []).
Proof.
  split; [reflexivity|]. split; [vm_compute; lia|].
  split; [reflexivity|]. split; reflexivity.
Qed.

End GivingUp.

Section UnconnectedPublish.
Import Mqtt Scenarios.

Abbreviation quiet os := (Forall (fun o => isPublish o = false) os).

Lemma connectMqtt_quiet (onConnect onMessage : option nat) (throws : bool)
    (s : State) :
  quiet (outputs (connectMqtt onConnect onMessage throws s)).
Proof.
  run_session. repeat case_match; simplify_eq; cbn; repeat constructor.
Qed.

Lemma clientEvent_quiet (e : ClientEvent) (s : State) :
  quiet (outputs (clientEvent e s)).
Proof.
  destruct e; run_session; repeat case_match; simplify_eq; cbn;
    repeat constructor.
Qed.

Lemma perform_quiet (a : Action) (s : State) : quiet (outputs (perform a s)).
Proof.
  destruct a as [onConnect onMessage throws| |e].
  - pose proof (connectMqtt_quiet onConnect onMessage throws s) as H.
    unfold perform, mbind, M_bind, skip, mret, M_ret.
    destruct (connectMqtt onConnect onMessage throws s) as [[h s1] o1].
    unfold outputs in *. cbn in *. by rewrite app_nil_r.
  - run_session. repeat case_match; simplify_eq; cbn; repeat constructor.
  - apply clientEvent_quiet.
Qed.

Lemma performAll_quiet (acts : list Action) (s : State) :
  quiet (outputs (performAll acts s)).
Proof.
  revert s. induction acts as [|a acts IH]; intros s; [constructor|].
  cbn [performAll]. unfold mbind, M_bind.
  pose proof (perform_quiet a s) as Ha.
  destruct (perform a s) as [[u s1] o1].
  specialize (IH s1). destruct (performAll acts s1) as [[u2 s2] o2].
  unfold outputs in *. cbn in *. by apply Forall_app.
Qed.

(** C9, as the code has it. An OFF command issued while the transport is
    not connected fails at once: nothing is published and the session is
    left as it was. An ON command first asks for a connection and waits
    three seconds. If the transport is still not connected then, it
    fails, nothing is published and nothing is kept for later: the
    session is as the connect request and the wait left it. If the
    transport is connected by then, the command is published at that
    point. *)
Theorem unconnected_publish (s : State) :
  isMqttConnected s = false ->
  (forall now publishErr,
     sendOffSignalToPLC now publishErr s
     = (false, s, [ConsoleError "[MQTT] Not connected. Cannot send OFF signal."]))
  /\ (forall alertType alertValue now env,
        let waited :=
          (connectMqtt None None (connectThrows env);;
           performAll (during env)) s in
        let r := sendAlertToPLC alertType alertValue now env s in
        (isMqttConnected (final waited) = false ->
         result r = Some false /\ final r = final waited
         /\ Forall (fun o => isPublish o = false) (outputs r))
        /\ (isMqttConnected (final waited) = true ->
            exists h,
              getMqttClient (final waited) = Some h
              /\ result r = Some (negb (publishError env))
              /\ final r = final waited
              /\ Publish h PLC_CONTROL
                   (AlertPayload (timerNow env / 1000)
                      (alertTypeOrDefault alertType) alertValue)
                 ∈ outputs r)).
Proof.
  intros Hoff. split.
  - intros now publishErr.
    unfold sendOffSignalToPLC, mbind, M_bind, get, emit, mret, M_ret.
    by rewrite Hoff.
  - intros alertType alertValue now env waited r. subst waited r.
    unfold sendAlertToPLC, mbind, M_bind, get. cbn beta iota zeta.
    rewrite Hoff. cbn [negb].
    pose proof (connectMqtt_quiet None None (connectThrows env) s) as Hq1.
    destruct (connectMqtt None None (connectThrows env) s) as [[h s1] o1].
    pose proof (performAll_quiet (during env) s1) as Hq2.
    destruct (performAll (during env) s1) as [[u s2] o2].
    unfold final, result, outputs in *. cbn [fst snd] in *.
    split; intros Hconn; rewrite Hconn; cbn [negb].
    + unfold emit, mret, M_ret. cbn.
      split; [done|]. split; [done|].
      apply Forall_app. split; [done|].
      apply Forall_app. split; [done|]. by repeat constructor.
    + unfold isMqttConnected in Hconn. unfold getMqttClient.
      unfold sendAlertPayload, publish, mbind, M_bind, get, emit, mret, M_ret.
      cbn beta iota zeta.
      destruct (client s2) as [c|]; [|done]. exists (handle c).
      split; [done|]. destruct (publishError env); cbn.
      * split; [done|]. split; [done|].
        rewrite !elem_of_app. right. right. left.
      * split; [done|]. split; [done|].
        rewrite !elem_of_app. right. right. left.
Qed.

Lemma unconnected_publish_witness :
  sendOffSignalToPLC 1000000 false initialState
  = (false, initialState,
     [ConsoleError "[MQTT] Not connected. Cannot send OFF signal."])
  /\ result (sendAlertToPLC (Some "vibrationRms"%string) (Some 5%Q) 1000000
               brokerSilent initialState) = Some false
  /\ exists h,
       result (sendAlertToPLC (Some "vibrationRms"%string) (Some 5%Q) 1000000
                 brokerAnswersInTime initialState) = Some true
       /\ Publish h PLC_CONTROL
            (AlertPayload 1003 "vibrationRms" (Some 5%Q))
          ∈ outputs (sendAlertToPLC (Some "vibrationRms"%string) (Some 5%Q)
                       1000000 brokerAnswersInTime initialState).
Proof.
  destruct (unconnected_publish initialState) as [Hoff Hon]; [reflexivity|].
  split; [apply Hoff|]. split.
  - destruct (Hon (Some "vibrationRms"%string) (Some 5%Q) 1000000 brokerSilent)
      as [Hfail _].
    apply Hfail. reflexivity.
  - destruct (Hon (Some "vibrationRms"%string) (Some 5%Q) 1000000
                brokerAnswersInTime) as [_ Hsent].
    destruct Hsent as (h & _ & Hres & _ & Hpub); [reflexivity|].
    exists h. split; [exact Hres|exact Hpub].
Defined.

(** C9 as stated fails for the ON command: issued on a session without
    a connection, it is published three seconds later, once the broker
    has answered the connect request, and reports success. *)
Lemma alert_sent_after_wait :
  isMqttConnected initialState = false
  /\ result (sendAlertToPLC (Some "vibrationRms"%string) (Some 5%Q) 1000000
               brokerAnswersInTime initialState) = Some true
  /\ List.filter isPublish
       (outputs (sendAlertToPLC (Some "vibrationRms"%string) (Some 5%Q)
                   1000000 brokerAnswersInTime initialState))
     = [Publish 0 PLC_CONTROL (AlertPayload 1003 "vibrationRms" (Some 5%Q))].
Proof. split; [reflexivity|]. split; reflexivity. Qed.

End UnconnectedPublish.

(* ===================================================================== *)
(** ** Prediction endpoint *)
(* ===================================================================== *)

Section DegradedMode.
Import Predict Scenarios.

Variable HealthScore : Type.
Variable calculateHealthScore : SensorData -> HealthScore.

Abbreviation post := (POST HealthScore calculateHealthScore).

(** The failures the endpoint recovers from: the service cannot be
    reached, answers with an error status, or answers 200 with a body
    that is no JSON document. The health score is returned with the
    status "unavailable" and an error. *)
Lemma degraded_when_service_fails (body : Body) (ml : MlService) :
  match ml with
  | FetchRejects _ => True
  | FetchAnswers false _ _ => True
  | FetchAnswers true _ (inl _) => True
  | FetchAnswers true _ (inr _) => False
  end ->
  exists e,
    post (inr body) ml
    = Success HealthScore
        (calculateHealthScore (sensorFields (sensorData body)))
        None "unavailable" (Some e).
Proof.
  intros Hml. unfold POST.
  destruct (Nat.leb 1 (length (default [] (vibrationReadings body))));
    [|eexists; reflexivity].
  destruct ml as [[message|]|[|] status [message|doc]]; try done;
    try (eexists; reflexivity).
  unfold callMlService. cbn [getProp].
  destruct doc; try (eexists; reflexivity).
  destruct (lookupField "detail" fields) as [d|]; [|eexists; reflexivity].
  destruct (truthy (Some d)); eexists; reflexivity.
Qed.

(** C10 fails on the code. When the predictor answers 200 with a JSON
    object that has no [classification] member, reading the prediction
    raises a TypeError outside the inner [try]: the endpoint answers with
    the internal server error and no health score, for every request
    that carries at least one vibration reading. *)
Theorem malformed_prediction_crashes (body : Body) (status : Z)
    (fields : list (string * Json)) :
  (1 <= length (default [] (vibrationReadings body)))%nat ->
  lookupField "classification" fields = None ->
  post (inr body) (FetchAnswers true status (inr (JObj fields)))
  = InternalServerError HealthScore "Cannot read properties of undefined".
Proof.
  intros Hlen Hmissing. unfold POST.
  apply Nat.leb_le in Hlen. rewrite Hlen.
  cbn [callMlService]. unfold convertPrediction.
  cbn [truthy getProp]. rewrite Hmissing. reflexivity.
Qed.

End DegradedMode.

Section DegradedModeScenario.
Import Predict Scenarios.

Lemma malformed_prediction_crashes_witness :
  POST Q (fun _ => 100%Q) (inr oneReading) emptyDocument
  = InternalServerError Q "Cannot read properties of undefined".
Proof.
  apply (malformed_prediction_crashes Q (fun _ => 100%Q) oneReading 200 []);
    [simpl; lia|reflexivity].
Defined.

(** With the service out of reach the same request is answered with the
    health score and the status "unavailable". *)
Example unreachable_is_degraded :
  POST Q (fun _ => 100%Q) (inr oneReading) unreachable
  = Success Q 100%Q None "unavailable" (Some (ErrorMessage "fetch failed")).
Proof. reflexivity. Qed.

End DegradedModeScenario.

(* ===================================================================== *)
(** ** Alert dispatcher: release, failures and reasons *)
(* ===================================================================== *)

Section DispatcherMore.
Import AlertMqtt AlertTrace Reference.

Variable getStatusColor : Q -> ParameterType -> StatusLevel.
Variable config : AlertMqttConfig.

Abbreviation detect' data :=
  (detectCriticalConditions getStatusColor data
     (criticalHealthThreshold config)).
Abbreviation step' := (checkAndSendAlert getStatusColor config).
Abbreviation run' := (runEvaluations getStatusColor config).

Lemma run_cons (e : Evaluation) (evs : list Evaluation) (st : AlertState) :
  run' (e :: evs) st
  = ((ev_now e, fst (step' (ev_data e) (ev_now e) (ev_success e) st))
       :: fst (run' evs (snd (step' (ev_data e) (ev_now e) (ev_success e) st))),
     snd (run' evs (snd (step' (ev_data e) (ev_now e) (ev_success e) st)))).
Proof.
  cbn [runEvaluations].
  destruct (step' (ev_data e) (ev_now e) (ev_success e) st) as [eff st1].
  cbn [fst snd]. by destruct (run' evs st1).
Qed.

Lemma normal_when_latched (data : SensorReading) (now : Z) (success : bool)
    (st : AlertState) :
  hasCritical (detect' data) = false ->
  wasInCriticalRef st = true ->
  step' data now success st
  = (SendOff success,
     if success
     then {| lastAlertTimeRef := lastAlertTimeRef st;
             wasInCriticalRef := false |}
     else st).
Proof.
  intros Hnorm Hlatch. unfold checkAndSendAlert. by rewrite Hnorm, Hlatch.
Qed.

Lemma normal_when_released (data : SensorReading) (now : Z) (success : bool)
    (st : AlertState) :
  hasCritical (detect' data) = false ->
  wasInCriticalRef st = false ->
  step' data now success st = (NoEffect, st).
Proof.
  intros Hnorm Hlatch. unfold checkAndSendAlert. by rewrite Hnorm, Hlatch.
Qed.

(** X1. Release: with the latch set, a reading without any Critical
    condition sends OFF; once that OFF is delivered the latch is cleared,
    the time of the last alert is kept, and further readings without a
    Critical condition send nothing. *)
Theorem release_sends_one_off (st : AlertState) (data1 data2 : SensorReading)
    (now1 now2 : Z) (success2 : bool) :
  hasCritical (detect' data1) = false ->
  hasCritical (detect' data2) = false ->
  wasInCriticalRef st = true ->
  run' [ {| ev_data := data1; ev_now := now1; ev_success := true |};
         {| ev_data := data2; ev_now := now2; ev_success := success2 |} ] st
  = ([(now1, SendOff true); (now2, NoEffect)],
     {| lastAlertTimeRef := lastAlertTimeRef st; wasInCriticalRef := false |}).
Proof.
  intros Hn1 Hn2 Hlatch. rewrite !run_cons. cbn [ev_data ev_now ev_success].
  rewrite (normal_when_latched data1) by done. cbn [fst snd].
  by rewrite (normal_when_released data2).
Qed.

(** X2. A command that is not delivered leaves no trace in the
    dispatcher: neither the latch nor the time of the last alert changes,
    so the rest of a run goes on as if that evaluation had not happened
    (the command is tried again at the next evaluation, without waiting
    for a cooldown). *)
Theorem failed_send_changes_nothing (data : SensorReading) (now : Z)
    (st : AlertState) (evs : list Evaluation) :
  snd (step' data now false st) = st
  /\ snd (run' ({| ev_data := data; ev_now := now; ev_success := false |}
                  :: evs) st)
     = snd (run' evs st)
  /\ fst (run' ({| ev_data := data; ev_now := now; ev_success := false |}
                  :: evs) st)
     = (now, fst (step' data now false st)) :: fst (run' evs st).
Proof.
  assert (Hstep : snd (step' data now false st) = st).
  { unfold checkAndSendAlert.
    destruct (hasCritical (detect' data)).
    - by destruct (now - lastAlertTimeRef st <? alertCooldown config).
    - by destruct (wasInCriticalRef st). }
  split; [done|]. rewrite run_cons. cbn [ev_data ev_now ev_success fst snd].
  by rewrite Hstep.
Qed.

Abbreviation hrun' := (hookRun getStatusColor config).
Abbreviation hstep' := (hookStep getStatusColor config).

(** X3. The latch follows the confirmed commands. After any sequence of
    readings and settled sends, overlapping or not, and from any state,
    the latch is set exactly when the command confirmed last was an ON
    (or none was confirmed and it was set before); and an OFF is only
    sent by an evaluation that finds the latch set, that is after a
    confirmed ON with no OFF confirmed since, never before any alert. *)
Theorem latch_follows_confirmed_commands (events : list HookEvent)
    (h : HookState) :
  wasInCriticalRef (refs (snd (hrun' events h)))
  = latchObserved (wasInCriticalRef (refs h)) (fst (hrun' events h))
  /\ offWhenLatched (wasInCriticalRef (refs h)) (fst (hrun' events h))
     = true.
Proof.
  revert h. induction events as [|ev events IH]; intros h; [done|].
  rewrite hrun_cons. cbn [fst snd].
  destruct (IH (snd (hstep' ev h))) as [IH1 IH2].
  destruct ev as [data now|k success]; cbn [hookStep] in *.
  - pose proof (begin_cases getStatusColor config data now (refs h)) as Hb.
    destruct (beginEvaluation getStatusColor config data now (refs h))
      as [[c p]|]; cbn [fst snd app refs] in *.
    + destruct c; cbn [latchObserved offWhenLatched]; [done|].
      destruct Hb as [_ Hl]. by rewrite Hl in *.
    + done.
  - destruct (waiting h !! k) as [p|]; cbn [fst snd app refs] in *; [|done].
    destruct p, success;
      cbn [latchObserved offWhenLatched resumeEvaluation wasInCriticalRef]
        in *; done.
Qed.

(** X28. When every send settles before the next reading is evaluated,
    the hook does what the evaluations do when run one after the other:
    the references end as [runEvaluations] leaves them, nothing is left
    waiting, and the log is the one of the finished evaluations. *)
Theorem sequential_schedule_agrees (evs : list Evaluation)
    (st : AlertState) :
  hrun' (sequentialSchedule evs) {| refs := st; waiting := [] |}
  = (flat_map observe (fst (run' evs st)),
     {| refs := snd (run' evs st); waiting := [] |}).
Proof.
  revert st. induction evs as [|e evs IH]; intros st; [done|].
  change (sequentialSchedule (e :: evs))
    with ([Reading (ev_data e) (ev_now e); Settled 0 (ev_success e)]
          ++ sequentialSchedule evs).
  rewrite hrun_app, sequential_schedule_step. cbn [fst snd].
  rewrite IH, run_cons. cbn [fst snd flat_map]. done.
Qed.

(** X4. After a release the cooldown of the previous alert still runs:
    an alert delivered at [t0], released at [t1], and a new Critical
    reading at [t2] less than [alertCooldown] after [t0] gives ON, OFF and
    then nothing; the dispatcher ends unlatched although the reading is
    Critical. *)
Theorem critical_after_release_within_cooldown (st : AlertState)
    (critical normalData critical' : SensorReading) (t0 t1 t2 : Z)
    (success : bool) :
  hasCritical (detect' critical) = true ->
  hasCritical (detect' normalData) = false ->
  hasCritical (detect' critical') = true ->
  alertCooldown config <= t0 - lastAlertTimeRef st ->
  t2 - t0 < alertCooldown config ->
  run' [ {| ev_data := critical; ev_now := t0; ev_success := true |};
         {| ev_data := normalData; ev_now := t1; ev_success := true |};
         {| ev_data := critical'; ev_now := t2; ev_success := success |} ] st
  = ([(t0, SendOn (mostSevereParameter (detect' critical))
                  (mostSevereValue (detect' critical)) true);
      (t1, SendOff true);
      (t2, NoEffect)],
     {| lastAlertTimeRef := t0; wasInCriticalRef := false |}).
Proof.
  intros Hc Hn Hc' Hfirst Hgap. rewrite !run_cons.
  cbn [ev_data ev_now ev_success].
  rewrite (critical_after_cooldown getStatusColor config critical) by done.
  cbn [fst snd].
  rewrite (normal_when_latched normalData) by done. cbn [fst snd].
  by rewrite (critical_within_cooldown getStatusColor config critical').
Qed.

(** X5. The reasons of [detectCriticalConditions] are the health index
    (when present and below the threshold) followed by the Critical
    parameters in evaluation order; a parameter missing from the reading
    gives no reason, and [hasCritical] holds exactly when the health
    index is critical or some present parameter is Critical. *)
Theorem reasons_of_reading (data : SensorReading) (healthThreshold : Q) :
  let r := detectCriticalConditions getStatusColor data healthThreshold in
  reasons r
  = match healthIndex data with
    | Some h => if Qlt_le_dec h healthThreshold
                then [HealthIndexReason h] else []
    | None => []
    end
    ++ map (fun pv => ParameterReason (fst pv) (snd pv))
           (criticalParameters getStatusColor data)
  /\ (hasCritical r = true <->
      healthCritical data healthThreshold
      \/ exists p v, field data p = Some v
                     /\ getStatusColor v p = critical)
  /\ (forall p v, ParameterReason p v ∈ reasons r ->
        field data p = Some v /\ getStatusColor v p = critical).
Proof.
  cbv zeta.
  assert (Hreasons :
    reasons (detectCriticalConditions getStatusColor data healthThreshold)
    = match healthIndex data with
      | Some h => if Qlt_le_dec h healthThreshold
                  then [HealthIndexReason h] else []
      | None => []
      end
      ++ map (fun pv => ParameterReason (fst pv) (snd pv))
             (criticalParameters getStatusColor data)).
  { unfold detectCriticalConditions, criticalParameters.
    destruct (checkHealthIndex data healthThreshold) as [[rs msp] msv] eqn:Hh.
    rewrite checkParameter_fold. cbn [reasons]. f_equal.
    unfold checkHealthIndex in Hh.
    destruct (healthIndex data) as [h|];
      [destruct (Qlt_le_dec h healthThreshold)|]; by injection Hh as <- _ _. }
  assert (Hcrit : forall p v,
    (p, v) ∈ criticalParameters getStatusColor data <->
    field data p = Some v /\ getStatusColor v p = critical).
  { intros p v. unfold criticalParameters. rewrite list_elem_of_omap. split.
    - intros (q & _ & Hq). destruct (field data q) as [w|] eqn:Hf; [|done].
      destruct (getStatusColor w q) eqn:Hs; cbn in Hq; try done.
      by injection Hq as -> ->.
    - intros [Hf Hs]. exists p. split; [by destruct p; repeat constructor|].
      by rewrite Hf, Hs. }
  split; [exact Hreasons|]. split.
  - assert (Hlen : hasCritical
                     (detectCriticalConditions getStatusColor data
                        healthThreshold) = true
                   <-> reasons (detectCriticalConditions getStatusColor data
                                  healthThreshold) <> []).
    { unfold detectCriticalConditions.
      destruct (fold_left _ _ _) as [[rs msp] msv]. cbn.
      destruct rs; cbn; [split; [done|by intros []]|split; done]. }
    rewrite Hlen, Hreasons. unfold healthCritical. split.
    + intros Hne.
      destruct (healthIndex data) as [h|];
        [destruct (Qlt_le_dec h healthThreshold) as [Hlt|]|].
      * left. by exists h.
      * right. cbn [app] in Hne.
        destruct (criticalParameters getStatusColor data) as [|[p v] l] eqn:Hl;
          [by cbn in Hne|].
        exists p, v. apply Hcrit. left.
      * right. cbn [app] in Hne.
        destruct (criticalParameters getStatusColor data) as [|[p v] l] eqn:Hl;
          [by cbn in Hne|].
        exists p, v. apply Hcrit. left.
    + intros [(h & Hh & Hlt)|(p & v & Hpv)].
      * rewrite Hh. destruct (Qlt_le_dec h healthThreshold); [done|lra].
      * apply Hcrit in Hpv. intros Happ. apply app_eq_nil in Happ as [_ Hm].
        apply map_eq_nil in Hm. rewrite Hm in Hpv. by apply elem_of_nil in Hpv.
  - intros p v Hin. rewrite Hreasons in Hin.
    apply elem_of_app in Hin as [Hin|Hin].
    + destruct (healthIndex data) as [h|];
        [destruct (Qlt_le_dec h healthThreshold)|];
        try (by apply elem_of_nil in Hin).
      apply list_elem_of_singleton in Hin. done.
    + apply list_elem_of_fmap in Hin as ([q w] & Heq & Hin).
      injection Heq as -> ->. by apply Hcrit.
Qed.

End DispatcherMore.

Section DispatcherMoreScenarios.
Import AlertMqtt AlertTrace Reference Scenarios MoreScenarios.

Lemma normal_is_not_critical :
  hasCritical (detectCriticalConditions specStatus normalReading
                 (criticalHealthThreshold DEFAULT_CONFIG)) = false.
Proof. reflexivity. Qed.

Lemma vibrating_reading_critical :
  hasCritical (detectCriticalConditions specStatus vibratingReading
                 (criticalHealthThreshold DEFAULT_CONFIG)) = true.
Proof. reflexivity. Qed.

Lemma release_sends_one_off_witness :
  runEvaluations specStatus DEFAULT_CONFIG
    [evaluation normalReading 40000 true; evaluation normalReading 41000 true]
    (latchedAt 30000)
  = ([(40000, SendOff true); (41000, NoEffect)],
     {| lastAlertTimeRef := 30000; wasInCriticalRef := false |}).
Proof.
  apply (release_sends_one_off specStatus DEFAULT_CONFIG (latchedAt 30000)
           normalReading normalReading 40000 41000 true);
    [exact normal_is_not_critical|exact normal_is_not_critical|reflexivity].
Defined.

Lemma critical_after_release_within_cooldown_witness :
  runEvaluations specStatus DEFAULT_CONFIG
    [evaluation vibratingReading 30000 true;
     evaluation normalReading 35000 true;
     evaluation vibratingReading 50000 true] initialAlertState
  = ([(30000, SendOn (Some "vibrationRms"%string) (Some 5%Q) true);
      (35000, SendOff true);
      (50000, NoEffect)],
     {| lastAlertTimeRef := 30000; wasInCriticalRef := false |}).
Proof.
  apply (critical_after_release_within_cooldown specStatus DEFAULT_CONFIG
           initialAlertState vibratingReading normalReading vibratingReading
           30000 35000 50000 true);
    [exact vibrating_reading_critical|exact normal_is_not_critical
    |exact vibrating_reading_critical|simpl; lia|simpl; lia].
Defined.

Lemma reasons_of_reading_witness :
  field vibratingReading PVibrationRms = Some 5%Q
  /\ specStatus 5 PVibrationRms = critical.
Proof.
  destruct (reasons_of_reading specStatus vibratingReading 60) as (_ & _ & H).
  apply H. vm_compute. right. left.
Defined.

End DispatcherMoreScenarios.

(* ===================================================================== *)
(** ** Diagnosis engine: emission, order and ranges *)
(* ===================================================================== *)

Section DiagnosisMore.
Import JsNumber Diagnosis Reference.

Variable symptoms : list Symptom.
Variable answers : gmap nat FuzzyLevel.

Lemma ruleResult_fields (rule : Rule) (r : DiagnosisResult) :
  ruleResult symptoms answers rule = Some r ->
  id r = r_id rule /\ d_level r = level rule
  /\ d_damage r = damage rule /\ d_solution r = solution rule.
Proof.
  unfold ruleResult. destruct (computedCF symptoms answers rule); [|done].
  destruct (Qlt_le_dec 0 _); [|done]. by intros [= <-].
Qed.

(** X6. The results come in the order of the rule catalog, at most one
    per rule, each carrying the identifier, level, damage and solution of
    its rule. *)
Theorem results_in_catalog_order (rules : list Rule) :
  sublist
    ((fun r => (id r, d_level r, d_damage r, d_solution r))
       <$> diagnosisOutput symptoms rules answers)
    ((fun rule => (r_id rule, level rule, damage rule, solution rule))
       <$> rules)
  /\ (length (diagnosisOutput symptoms rules answers) <= length rules)%nat.
Proof.
  rewrite diagnosisOutput_omap.
  assert (Hsub : sublist
            ((fun r => (id r, d_level r, d_damage r, d_solution r))
               <$> omap (ruleResult symptoms answers) rules)
            ((fun rule => (r_id rule, level rule, damage rule, solution rule))
               <$> rules)).
  { induction rules as [|rule rules' IH]; [constructor|]. cbn.
    destruct (ruleResult symptoms answers rule) as [r|] eqn:Hr.
    - rewrite fmap_cons.
      destruct (ruleResult_fields rule r Hr) as (-> & -> & -> & ->).
      by constructor.
    - by constructor. }
  split; [exact Hsub|].
  apply sublist_length in Hsub. by rewrite !length_fmap in Hsub.
Qed.

(** X7. A rule is emitted exactly when at least one of its symptoms was
    answered and, for an OR rule, some contribution is positive, for an
    AND rule, every contribution is positive. *)
Theorem emission_criterion (rule : Rule) :
  is_Some (ruleResult symptoms answers rule) <->
  cfValues symptoms answers (r_symptoms rule) <> []
  /\ match operator rule with
     | OR => exists v, v ∈ cfValues symptoms answers (r_symptoms rule)
                       /\ (0 < v)%Q
     | AND => forall v, v ∈ cfValues symptoms answers (r_symptoms rule)
                        -> (0 < v)%Q
     end.
Proof.
  destruct (decide (cfValues symptoms answers (r_symptoms rule) = []))
    as [Hnil|Hne].
  { unfold ruleResult. rewrite (computedCF_none _ _ _ Hnil).
    split; [by intros [? ?]|by intros [? _]]. }
  destruct (computedCF_extremum symptoms answers rule Hne) as (cf & Hcf & Hext).
  unfold ruleResult. rewrite Hcf.
  destruct (operator rule); destruct Hext as [Hin Hall].
  - destruct (Qlt_le_dec 0 cf) as [Hpos|Hle].
    + split; [|by eexists]. intros _. split; [done|].
      intros v Hv. specialize (Hall v Hv). lra.
    + split; [by intros [? ?]|]. intros [_ Hpos].
      specialize (Hpos cf Hin). lra.
  - destruct (Qlt_le_dec 0 cf) as [Hpos|Hle].
    + split; [|by eexists]. intros _. split; [done|]. by exists cf.
    + split; [by intros [? ?]|]. intros [_ (v & Hv & Hpos)].
      specialize (Hall v Hv). lra.
Qed.

(** X8. An AND rule one of whose symptoms is in the catalog and was
    answered "No" is never emitted, whatever the other answers are. *)
Theorem and_rule_with_no_is_silent (rule : Rule) (sid : nat) (e : Q) :
  operator rule = AND ->
  sid ∈ r_symptoms rule ->
  answers !! sid = Some No ->
  expertCF symptoms sid = Some e ->
  ruleResult symptoms answers rule = None.
Proof.
  intros Hop Hsid Hno He.
  assert (Hin : mul 0 e ∈ cfValues symptoms answers (r_symptoms rule)).
  { rewrite cfValues_contributions. apply list_elem_of_omap.
    exists sid. split; [done|]. unfold contribution. by rewrite Hno, He. }
  assert (Hne : cfValues symptoms answers (r_symptoms rule) <> []).
  { intros Hnil. rewrite Hnil in Hin. by apply elem_of_nil in Hin. }
  destruct (computedCF_extremum symptoms answers rule Hne) as (cf & Hcf & Hext).
  rewrite Hop in Hext. destruct Hext as [_ Hall].
  specialize (Hall _ Hin). rewrite mul_zero_l in Hall.
  unfold ruleResult. rewrite Hcf.
  destruct (Qlt_le_dec 0 cf); [lra|done].
Qed.

Lemma expertCF_in_catalog (sid : nat) (e : Q) :
  expertCF symptoms sid = Some e ->
  exists s, s ∈ symptoms /\ cfExpert s = e.
Proof.
  unfold expertCF. intros H.
  destruct (List.find _ symptoms) as [s|] eqn:Hfind; [|done].
  injection H as <-. exists s. split; [|done].
  apply list_elem_of_In. by apply find_some in Hfind as [? _].
Qed.

Lemma fuzzy_unit (a : FuzzyLevel) : (0 <= fuzzyLevelToValue a <= 1)%Q.
Proof. destruct a; cbn; lra. Qed.

Lemma contributions_unit (sids : list nat) :
  (forall s, s ∈ symptoms -> (0 <= cfExpert s <= 1)%Q) ->
  forall v, v ∈ cfValues symptoms answers sids -> (0 <= v <= 1)%Q.
Proof.
  intros Hcat v Hv. rewrite cfValues_contributions in Hv.
  apply list_elem_of_omap in Hv as (sid & _ & Hc).
  unfold contribution in Hc.
  destruct (answers !! sid) as [a|]; [|done].
  destruct (expertCF symptoms sid) as [e|] eqn:He; [|done].
  injection Hc as <-.
  destruct (expertCF_in_catalog sid e He) as (s & Hs & <-).
  apply mul_unit; [apply fuzzy_unit|by apply Hcat].
Qed.

Lemma integer_between (a n b : Z) (y : Q) :
  (inject_Z a <= y)%Q -> (y <= inject_Z b)%Q ->
  (y - (1 # 2) < inject_Z n)%Q -> (inject_Z n <= y + (1 # 2))%Q ->
  (a <= n <= b)%Z.
Proof.
  intros Ha Hb Hlo Hhi. split.
  - destruct (Z_le_gt_dec a n) as [|Hgt]; [done|].
    assert (n + 1 <= a)%Z as Hn by lia. rewrite Zle_Qle in Hn.
    rewrite inject_Z_plus in Hn. change (inject_Z 1) with 1%Q in Hn.
    exfalso. lra.
  - destruct (Z_le_gt_dec n b) as [|Hgt]; [done|].
    assert (b + 1 <= n)%Z as Hn by lia. rewrite Zle_Qle in Hn.
    rewrite inject_Z_plus in Hn. change (inject_Z 1) with 1%Q in Hn.
    exfalso. lra.
Qed.

(** Rounding keeps a value between two bounds that are themselves
    multiples of the last decimal place. *)
Lemma roundedTo_between (digits : nat) (x r : Q) (a b : Z) :
  roundedTo digits x r ->
  (inject_Z a <= x * inject_Z (10 ^ Z.of_nat digits))%Q ->
  (x * inject_Z (10 ^ Z.of_nat digits) <= inject_Z b)%Q ->
  (a # Z.to_pos (10 ^ Z.of_nat digits) <= r)%Q
  /\ (r <= b # Z.to_pos (10 ^ Z.of_nat digits))%Q.
Proof.
  intros (n & Hr & Hlo & Hhi) Ha Hb.
  destruct (integer_between a n b _ Ha Hb Hlo Hhi) as [Han Hnb].
  rewrite Hr. unfold Qle. cbn [Qnum Qden].
  split; apply Z.mul_le_mono_nonneg_r; lia.
Qed.

(** X9. With a symptom catalog whose expert factors lie between 0 and
    1, the factor computed for an emitted rule lies in (0, 1] and the
    rounded factor stored in the result lies between 0 and 1. *)
Theorem emitted_factor_in_unit_interval (rule : Rule) (r : DiagnosisResult) :
  (forall s, s ∈ symptoms -> (0 <= cfExpert s <= 1)%Q) ->
  ruleResult symptoms answers rule = Some r ->
  (exists cf, computedCF symptoms answers rule = Some cf
              /\ (0 < cf <= 1)%Q)
  /\ (0 <= cfRule r <= 1)%Q.
Proof.
  intros Hcat Hr. unfold ruleResult in Hr.
  destruct (computedCF symptoms answers rule) as [cf|] eqn:Hcf; [|done].
  destruct (Qlt_le_dec 0 cf) as [Hpos|]; [|done]. injection Hr as <-.
  assert (Hne : cfValues symptoms answers (r_symptoms rule) <> []).
  { intros Hnil. by rewrite (computedCF_none _ _ _ Hnil) in Hcf. }
  destruct (computedCF_extremum symptoms answers rule Hne) as (cf' & Hcf' & Hext).
  rewrite Hcf in Hcf'. injection Hcf' as <-.
  assert (Hin : cf ∈ cfValues symptoms answers (r_symptoms rule)).
  { destruct (operator rule); apply Hext. }
  pose proof (contributions_unit _ Hcat cf Hin) as [_ Hle1].
  split; [exists cf; split; [done|lra]|]. cbn [cfRule].
  destruct (toFixed_rounded 2 cf (Qlt_le_weak _ _ Hpos)) as (d & Hround & ->).
  { by eapply computedCF_double. }
  destruct (roundedTo_between 2 cf d 0 100 Hround) as [Hlo Hhi].
  - change (inject_Z (10 ^ Z.of_nat 2)) with 100%Q.
    change (inject_Z 0) with 0%Q. lra.
  - change (inject_Z (10 ^ Z.of_nat 2)) with 100%Q.
    change (inject_Z 100) with 100%Q. lra.
  - change (0 # Z.to_pos (10 ^ Z.of_nat 2)) with (0 # 100) in Hlo.
    change (100 # Z.to_pos (10 ^ Z.of_nat 2)) with (100 # 100) in Hhi.
    apply binary64_unit. split.
    + eapply Qle_trans; [|exact Hlo]. by vm_compute.
    + eapply Qle_trans; [exact Hhi|]. by vm_compute.
Qed.

End DiagnosisMore.

Section ConclusionMore.
Import JsNumber Diagnosis Reference.

Lemma all_minor_sum (data : list DiagnosisResult) :
  Forall (fun r => d_level r = A) data <->
  (sumQ (severityScores data) <= 40 * inject_Z (Z.of_nat (length data)))%Q.
Proof.
  induction data as [|r data IH].
  - split; [intros _; by vm_compute|constructor].
  - pose proof (sumQ_scores_bounds data) as [Hlo _].
    cbn [length]. rewrite Nat2Z.inj_succ. unfold Z.succ.
    rewrite inject_Z_plus. change (inject_Z 1) with 1%Q.
    change (sumQ (severityScores (r :: data)))
      with (levelScore (d_level r) + sumQ (severityScores data))%Q.
    pose proof (levelScore_bounds (d_level r)) as [Hr _].
    split.
    + intros Hall. apply Forall_cons in Hall as [Hr0 Hall].
      apply IH in Hall. rewrite Hr0. cbn [levelScore]. lra.
    + intros Hsum. constructor.
      * destruct (d_level r); cbn [levelScore] in *; [done|lra|lra].
      * apply IH. lra.
Qed.

Lemma some_severe_sum (data : list DiagnosisResult) :
  (70 * inject_Z (Z.of_nat (length data)) < sumQ (severityScores data))%Q ->
  Exists (fun r => d_level r = C) data.
Proof.
  induction data as [|r data IH].
  - intros H. exfalso. revert H. by vm_compute.
  - cbn [length]. rewrite Nat2Z.inj_succ. unfold Z.succ.
    rewrite inject_Z_plus. change (inject_Z 1) with 1%Q.
    change (sumQ (severityScores (r :: data)))
      with (levelScore (d_level r) + sumQ (severityScores data))%Q.
    intros H. destruct (d_level r) eqn:Hr; cbn [levelScore] in H.
    + right. apply IH. lra.
    + right. apply IH. lra.
    + by left.
Qed.

Lemma average_le_iff (data : list DiagnosisResult) (k : Q) :
  data <> [] ->
  (average (severityScores data) <= k)%Q <->
  (sumQ (severityScores data) <= k * inject_Z (Z.of_nat (length data)))%Q.
Proof.
  intros Hne. pose proof (length_positive data Hne) as Hn.
  unfold average. rewrite length_severityScores. split.
  - intros H.
    assert (Heq : (sumQ (severityScores data)
                   == sumQ (severityScores data)
                      / inject_Z (Z.of_nat (length data))
                      * inject_Z (Z.of_nat (length data)))%Q)
      by (field; lra).
    rewrite Heq. apply Qmult_le_compat_r; [done|lra].
  - intros H. by apply Qle_shift_div_r.
Qed.

(** X10. For a non-empty result list (an array, so of fewer than 2^32
    results) the conclusion's percent lies between 40 and 100; the label
    is "Minor" exactly when every result is of level A, and it is
    "Severe" only if some result is of level C. *)
Theorem conclusion_label_and_range (data : list DiagnosisResult) :
  data <> [] -> (Z.of_nat (length data) < 2 ^ 32)%Z ->
  exists c,
    calculateConclusion data = Some c
    /\ (40 <= percent c <= 100)%Q
    /\ (label c = "Minor" <-> Forall (fun r => d_level r = A) data)
    /\ (label c = "Severe" -> Exists (fun r => d_level r = C) data).
Proof.
  intros Hne Hbound. pose proof (percent_computed data Hne Hbound) as Hp.
  pose proof (average_le_iff data 40 Hne) as H40.
  pose proof (average_le_iff data 70 Hne) as H70.
  pose proof (all_minor_sum data) as Hminor.
  unfold calculateConclusion.
  destruct (Nat.eqb (length data) 0) eqn:Hlen.
  { apply Nat.eqb_eq in Hlen. by destruct data. }
  eexists. split; [reflexivity|]. cbn [percent label].
  set (p := mul _ 100) in *.
  destruct (percent_thresholds data p Hne Hbound Hp)
    as ([Hlo Hhi] & Hp40 & Hp70).
  split; [|split].
  - destruct (toFixed_rounded 1 p) as (d & Hround & ->); [lra| |].
    { subst p. apply mul_double. }
    destruct (roundedTo_between 1 p d 400 1000 Hround) as [Hl Hh].
    + change (inject_Z (10 ^ Z.of_nat 1)) with 10%Q.
      change (inject_Z 400) with 400%Q. lra.
    + change (inject_Z (10 ^ Z.of_nat 1)) with 10%Q.
      change (inject_Z 1000) with 1000%Q. lra.
    + change (400 # Z.to_pos (10 ^ Z.of_nat 1)) with (400 # 10) in Hl.
      change (1000 # Z.to_pos (10 ^ Z.of_nat 1)) with (1000 # 10) in Hh.
      assert (Hd : (40 <= d <= 100)%Q).
      { split.
        - eapply Qle_trans; [|exact Hl]. by vm_compute.
        - eapply Qle_trans; [exact Hh|]. by vm_compute. }
      split.
      * apply Qle_trans with (binary64 40); [by vm_compute|].
        apply binary64_mono; lra.
      * apply Qle_trans with (binary64 100); [|by vm_compute].
        apply binary64_mono; lra.
  - destruct (Qle_bool p 40) eqn:Hb40.
    + apply Qle_bool_iff in Hb40. split; [intros _|done].
      by apply Hminor, H40, Hp40.
    + assert (~ (p <= 40)%Q) as Hn40.
      { intros H. apply Qle_bool_iff in H. congruence. }
      split.
      * by destruct (Qle_bool p 70).
      * intros Hall. apply Hminor, H40, Hp40 in Hall. done.
  - destruct (Qle_bool p 40) eqn:Hb40; [done|].
    destruct (Qle_bool p 70) eqn:Hb70; [done|]. intros _.
    assert (~ (p <= 70)%Q) as Hn70.
    { intros H. apply Qle_bool_iff in H. congruence. }
    apply some_severe_sum.
    destruct (Qlt_le_dec (70 * inject_Z (Z.of_nat (length data)))
                (sumQ (severityScores data))) as [Hlt|Hle]; [done|].
    exfalso. apply Hn70. by apply Hp70, H70.
Qed.

End ConclusionMore.

Section AnswersScope.
Import JsNumber Diagnosis Reference.

Lemma omap_agree {X Y : Type} (f g : X -> option Y) (l : list X) :
  (forall x, x ∈ l -> f x = g x) -> omap f l = omap g l.
Proof.
  intros Hfg. induction l as [|x l IH]; [done|].
  assert (Hl : omap f l = omap g l).
  { apply IH. intros y Hy. apply Hfg. by right. }
  cbn. rewrite (Hfg x) by left. by rewrite Hl.
Qed.

Lemma cfValues_agree (symptoms : list Symptom)
    (answers1 answers2 : gmap nat FuzzyLevel) (sids : list nat) :
  (forall sid, sid ∈ sids -> answers1 !! sid = answers2 !! sid) ->
  cfValues symptoms answers1 sids = cfValues symptoms answers2 sids.
Proof.
  intros Hagree. rewrite !cfValues_contributions. apply omap_agree.
  intros sid Hsid. unfold contribution. by rewrite (Hagree sid Hsid).
Qed.

(** X11. The diagnosis depends only on the answers to symptoms that
    some rule refers to: two answer sets that agree on those give the
    same results and the same conclusion. *)
Theorem unreferenced_answers_ignored (symptoms : list Symptom)
    (rules : list Rule) (answers1 answers2 : gmap nat FuzzyLevel) :
  (forall rule sid,
     rule ∈ rules -> sid ∈ r_symptoms rule ->
     answers1 !! sid = answers2 !! sid) ->
  runDiagnosis symptoms rules answers1 = runDiagnosis symptoms rules answers2.
Proof.
  intros Hagree.
  assert (Hout : diagnosisOutput symptoms rules answers1
                 = diagnosisOutput symptoms rules answers2).
  { rewrite !diagnosisOutput_omap. apply omap_agree.
    intros rule Hrule. unfold ruleResult, computedCF.
    rewrite (cfValues_agree symptoms answers1 answers2 (r_symptoms rule));
      [done|].
    intros sid Hsid. by apply (Hagree rule). }
  unfold runDiagnosis. by rewrite Hout.
Qed.

End AnswersScope.

Section DiagnosisMoreScenarios.
Import JsNumber Diagnosis Reference Scenarios MoreScenarios.

Lemma unitSymptoms_unit :
  forall s, s ∈ unitSymptoms -> (0 <= cfExpert s <= 1)%Q.
Proof.
  intros s Hs. unfold unitSymptoms in Hs.
  repeat (apply elem_of_cons in Hs as [->|Hs]; [split; by vm_compute|]).
  by apply elem_of_nil in Hs.
Qed.

Lemma and_rule_with_no_is_silent_witness :
  ruleResult unitSymptoms mixedAnswers (ruleOf "R1" [1%nat; 2%nat] AND B)
  = None.
Proof.
  apply (and_rule_with_no_is_silent unitSymptoms mixedAnswers
           (ruleOf "R1" [1%nat; 2%nat] AND B) 2%nat (6 # 10));
    [reflexivity|right; left|reflexivity|reflexivity].
Defined.

Lemma emitted_factor_in_unit_interval_witness :
  (0 <= binary64 (80 # 100) <= 1)%Q.
Proof.
  apply (emitted_factor_in_unit_interval unitSymptoms mixedAnswers
           (ruleOf "R2" [1%nat; 2%nat] OR C)
           {| id := "R2"; d_level := C; d_damage := "damage";
              d_solution := "solution"; cfRule := binary64 (80 # 100) |});
    [exact unitSymptoms_unit|vm_compute; reflexivity].
Defined.

Lemma conclusion_label_and_range_witness :
  exists c,
    calculateConclusion sevenResults = Some c
    /\ (40 <= percent c <= 100)%Q
    /\ (label c = "Minor" <-> Forall (fun r => d_level r = A) sevenResults)
    /\ (label c = "Severe" -> Exists (fun r => d_level r = C) sevenResults).
Proof.
  apply (conclusion_label_and_range sevenResults);
    [discriminate|by vm_compute].
Defined.

Lemma unreferenced_answers_ignored_witness :
  runDiagnosis unitSymptoms [ruleOf "R1" [1%nat; 2%nat] OR B] mixedAnswers
  = runDiagnosis unitSymptoms [ruleOf "R1" [1%nat; 2%nat] OR B]
      (<[3%nat := Sometimes]> mixedAnswers).
Proof.
  apply unreferenced_answers_ignored.
  intros rule sid Hrule Hsid.
  apply list_elem_of_singleton in Hrule. subst rule. cbn in Hsid.
  apply elem_of_cons in Hsid as [->|Hsid]; [reflexivity|].
  apply list_elem_of_singleton in Hsid. subst sid. reflexivity.
Defined.

End DiagnosisMoreScenarios.

(* ===================================================================== *)
(** ** AI center page: vibration history and prediction request *)
(* ===================================================================== *)

Section HistoryBuffer.
Import AiCenter.

Lemma sliceLast_length {X : Type} (n : nat) (l : list X) :
  length (sliceLast n l) = Nat.min n (length l).
Proof. unfold sliceLast. rewrite length_drop. lia. Qed.

Lemma sliceLast_app {X : Type} (n : nat) (l l' : list X) :
  sliceLast n (sliceLast n l ++ l') = sliceLast n (l ++ l').
Proof.
  unfold sliceLast.
  rewrite <- (drop_app_le l l' (length l - n)) by lia.
  rewrite drop_drop. f_equal.
  rewrite length_drop, !length_app. lia.
Qed.

Lemma sliceLast_short {X : Type} (n : nat) (l : list X) :
  (length l <= n)%nat -> sliceLast n l = l.
Proof.
  intros Hle. unfold sliceLast.
  replace (length l - n)%nat with 0%nat by lia. done.
Qed.

Lemma onSensorValue_entry (event : option Snapshot * Z)
    (prev : list VibrationHistory) :
  onSensorValue (fst event) (snd event) prev
  = match newReadingOf event with
    | Some reading => sliceLast 50 (prev ++ [reading])
    | None => prev
    end.
Proof.
  unfold onSensorValue, newReadingOf.
  destruct (fst event) as [d|]; [|done].
  by destruct (vibration_rms_mm_s d).
Qed.

(** X12. The vibration history is a window over the readings received:
    starting from a history of at most 50 entries, after any sequence of
    snapshots it holds the last 50 entries of the old history followed
    by the readings of the snapshots that carry a vibration value, in
    order of arrival; it never grows beyond 50. *)
Theorem history_is_last_fifty (events : list (option Snapshot * Z))
    (history : list VibrationHistory) :
  (length history <= 50)%nat ->
  onSensorValues events history
  = sliceLast 50 (history ++ omap newReadingOf events)
  /\ (length (onSensorValues events history) <= 50)%nat.
Proof.
  intros Hlen.
  assert (Heq : onSensorValues events history
                = sliceLast 50 (history ++ omap newReadingOf events)).
  { revert history Hlen.
    induction events as [|event events IH]; intros history Hlen.
    - cbn. rewrite app_nil_r. by rewrite sliceLast_short.
    - unfold onSensorValues. cbn [fold_left].
      fold (onSensorValues events
              (onSensorValue (fst event) (snd event) history)).
      rewrite onSensorValue_entry. cbn [omap list_omap].
      destruct (newReadingOf event) as [reading|]; [|by apply IH].
      rewrite IH by (rewrite sliceLast_length; lia).
      rewrite sliceLast_app. by rewrite <- app_assoc. }
  split; [exact Heq|]. rewrite Heq, sliceLast_length. lia.
Qed.

End HistoryBuffer.

Section PredictionRequest.
Import Predict AiCenter PredictShape.

Variable HealthScore : Type.
Variable calculateHealthScore : SensorData -> HealthScore.

Abbreviation post' := (POST HealthScore calculateHealthScore).

Lemma getProp_member (v : JsValue) (key : string) :
  nullish v = false -> getProp v key = inr (member v key).
Proof. by destruct v as [[]|]. Qed.

Lemma getProp_nullish (v : JsValue) (key : string) :
  nullish v = true -> exists message, getProp v key = inl message.
Proof. destruct v as [[]|]; try done; intros _; by eexists. Qed.

(** X14. What the endpoint makes of a 200 answer whose body is a JSON
    document, for a request with at least one reading. A falsy document
    (null, false, 0, the empty text) gives the health score with status
    "unavailable" and no error at all. A truthy document gives status
    "available" with the members of its [classification] and [regression]
    copied over when both can be read, and the internal server error
    when either is missing or null. *)
Theorem answer_shape (body : Body) (status : Z) (doc : Json) :
  (1 <= length (default [] (vibrationReadings body)))%nat ->
  let health := calculateHealthScore (sensorFields (sensorData body)) in
  let answer := post' (inr body) (FetchAnswers true status (inr doc)) in
  (truthy (Some doc) = false ->
   answer = Success HealthScore health None "unavailable" None)
  /\ (truthy (Some doc) = true ->
      nullish (member (Some doc) "classification") = false ->
      nullish (member (Some doc) "regression") = false ->
      answer = Success HealthScore health (Some (predictionOf doc))
                 "available" None)
  /\ (truthy (Some doc) = true ->
      nullish (member (Some doc) "classification")
      || nullish (member (Some doc) "regression") = true ->
      exists message, answer = InternalServerError HealthScore message).
Proof.
  intros Hlen health answer. subst health answer. unfold POST.
  apply Nat.leb_le in Hlen. rewrite Hlen. cbn [callMlService].
  unfold convertPrediction.
  assert (Hdoc : truthy (Some doc) = true -> nullish (Some doc) = false).
  { by destruct doc. }
  split; [|split].
  - intros Hfalsy. by rewrite Hfalsy.
  - intros Htruthy Hc Hr. rewrite Htruthy.
    rewrite !(getProp_member (Some doc)) by auto.
    unfold mbind, Throws_bind, mret, Throws_ret.
    rewrite !(getProp_member (member (Some doc) "classification")) by done.
    rewrite !(getProp_member (member (Some doc) "regression")) by done.
    reflexivity.
  - intros Htruthy Hnull. rewrite Htruthy.
    rewrite !(getProp_member (Some doc)) by auto.
    unfold mbind, Throws_bind, mret, Throws_ret.
    destruct (nullish (member (Some doc) "classification")) eqn:Hc.
    + destruct (getProp_nullish _ "will_fail_soon" Hc) as (message & ->).
      by eexists.
    + rewrite !(getProp_member (member (Some doc) "classification")) by done.
      cbn [orb] in Hnull.
      destruct (getProp_nullish _ "minutes_to_failure" Hnull) as (message & ->).
      by eexists.
Qed.

Lemma callMlService_error (ml : MlService) (doc : Json)
    (e : option ServiceError) :
  callMlService ml = (Some doc, e) -> e = None.
Proof.
  unfold callMlService. intros H.
  repeat case_match; simplify_eq; done.
Qed.

Lemma convertPrediction_cases (v : JsValue) :
  match convertPrediction v with
  | inl _ => True
  | inr p => is_Some p <-> truthy v = true
  end.
Proof.
  unfold convertPrediction. destruct (truthy v).
  - unfold mbind, Throws_bind, mret, Throws_ret.
    repeat case_match; simplify_eq; try done.
    all: split; [done|intros _; by eexists].
  - cbn. split; [by intros [? ?]|done].
Qed.

(** X15. In every successful answer of the endpoint the status is
    "available" exactly when a prediction is included, and then no
    service error is reported; otherwise the status is "unavailable" and
    the prediction is null. *)
Theorem status_matches_prediction (request : Throws Body) (ml : MlService) :
  match post' request ml with
  | Success _ _ prediction status' error =>
      (status' = "available"%string /\ is_Some prediction /\ error = None)
      \/ (status' = "unavailable"%string /\ prediction = None)
  | InternalServerError _ _ => True
  end.
Proof.
  unfold POST. destruct request as [message|body]; [done|].
  destruct (if Nat.leb 1 (length (default [] (vibrationReadings body)))
            then callMlService ml
            else (None, Some ErrorNotEnoughReadings))
    as [mlPrediction mlServiceError] eqn:Hcall.
  pose proof (convertPrediction_cases mlPrediction) as Hconv.
  destruct (convertPrediction mlPrediction) as [message|prediction]; [done|].
  destruct (truthy mlPrediction) eqn:Htruthy.
  - left. split; [done|]. split; [by apply Hconv|].
    destruct mlPrediction as [doc|]; [|done].
    destruct (Nat.leb 1 _); [|done].
    by apply (callMlService_error ml doc).
  - right. split; [done|].
    destruct prediction as [p|]; [|done].
    assert (is_Some (Some p)) as Hs by (by eexists).
    apply Hconv in Hs. congruence.
Qed.

(** X27. A failing predictor degrades the answer and tells why. For a
    request with at least one reading the endpoint still returns the
    health score, with no prediction and status "unavailable", and the
    reported error is: the message of the rejection when the service
    cannot be reached; the parse error when a 200 answer is no JSON
    document; for an error status, the truthy [detail] member of the
    body when there is one and the status code otherwise, also when
    the body is no JSON document; and the message of the type error when
    the body of an error status is the JSON [null]. *)
Theorem service_failure_reported (body : Body) :
  (1 <= length (default [] (vibrationReadings body)))%nat ->
  let degraded e :=
    Success HealthScore
      (calculateHealthScore (sensorFields (sensorData body)))
      None "unavailable" (Some e) in
  (forall message,
     post' (inr body) (FetchRejects message)
     = degraded (ErrorMessage (default "ML service unavailable"%string message)))
  /\ (forall status message,
        post' (inr body) (FetchAnswers true status (inl message))
        = degraded (ErrorMessage message))
  /\ (forall status message,
        post' (inr body) (FetchAnswers false status (inl message))
        = degraded (ErrorStatus status))
  /\ (forall status doc,
        nullish (Some doc) = false ->
        post' (inr body) (FetchAnswers false status (inr doc))
        = degraded
            match member (Some doc) "detail" with
            | Some d => if truthy (Some d) then ErrorDetail d
                        else ErrorStatus status
            | None => ErrorStatus status
            end)
  /\ (forall status,
        exists message,
          post' (inr body) (FetchAnswers false status (inr JNull))
          = degraded (ErrorMessage message)).
Proof.
  intros Hlen degraded. subst degraded. unfold POST.
  apply Nat.leb_le in Hlen. rewrite Hlen.
  split; [|split; [|split; [|split]]].
  - by intros [message|].
  - done.
  - done.
  - intros status doc Hdoc. unfold callMlService.
    rewrite (getProp_member (Some doc)) by done.
    destruct (member (Some doc) "detail") as [d|]; [|done].
    by destruct (truthy (Some d)).
  - intros status. by eexists.
Qed.

(** X13. What the page shows after [runPrediction]. When the request to
    the endpoint fails the result shown before stays. With an empty
    vibration history the request carries no readings and the endpoint
    does not consult the predictor: whatever the service would do, the
    page shows the health score with status "unavailable" and the
    not-enough-readings error. The result shown is only ever replaced by
    a successful answer with the health score of the latest sensor data;
    so when the predictor answers 200 with a truthy document whose
    [classification] cannot be read, the endpoint's status 500 leaves the
    earlier result, possibly none, on the page. *)
Theorem page_prediction_result (apiReachable : bool) (ml : MlService)
    (history : list VibrationHistory)
    (latestSensorData : option SensorData)
    (predictionResult : option (Response HealthScore)) :
  let health := calculateHealthScore (sensorFields latestSensorData) in
  let shown :=
    runPrediction HealthScore calculateHealthScore apiReachable ml history
      latestSensorData predictionResult in
  (apiReachable = false -> shown = predictionResult)
  /\ (apiReachable = true -> history = [] ->
      shown = Some (Success HealthScore health None "unavailable"
                      (Some ErrorNotEnoughReadings)))
  /\ (shown = predictionResult
      \/ exists prediction status' error,
           shown = Some (Success HealthScore health prediction status' error))
  /\ (forall status doc,
        history <> [] ->
        ml = FetchAnswers true status (inr doc) ->
        truthy (Some doc) = true ->
        nullish (member (Some doc) "classification") = true ->
        shown = predictionResult).
Proof.
  intros health shown. subst health shown. unfold runPrediction.
  split; [|split; [|split]].
  - by intros ->.
  - by intros -> ->.
  - destruct apiReachable; [|by left].
    destruct (POST _ _ _ _) as [h p st e|message] eqn:Hpost; [|by left].
    right. exists p, st, e. f_equal.
    unfold POST in Hpost. cbn [sensorData requestBody] in Hpost.
    repeat case_match; simplify_eq; done.
  - intros status doc Hhistory -> Htruthy Hnull.
    destruct apiReachable; [|done].
    unfold POST, requestBody. cbn [vibrationReadings sensorData].
    destruct history as [|h history]; [done|].
    cbn [length Nat.ltb Nat.leb default id map callMlService].
    unfold convertPrediction. rewrite Htruthy.
    rewrite !(getProp_member (Some doc)) by (by destruct doc).
    unfold mbind, Throws_bind.
    by destruct (getProp_nullish _ "will_fail_soon" Hnull) as (message & ->).
Qed.

End PredictionRequest.

(* ===================================================================== *)
(** ** Messaging session: consistency, connection and teardown *)
(* ===================================================================== *)

Section SessionMore.
Import Mqtt SessionState.

Lemma consistent_some_intro (s : State) (c : MqttClient) :
  client s = Some c ->
  isCleaningUp s = ending c ->
  (handle c < connectCalls s)%nat ->
  listening c = negb (ending c) ->
  consistent s.
Proof.
  intros Hc Hcu Hh Hl. split; [|split].
  - rewrite Hcu. split; [intros He; by exists c|].
    intros (c' & Hc' & He). by simplify_eq.
  - intros c' Hc'. by simplify_eq.
  - intros _. by exists c.
Qed.

Lemma consistent_none_intro (s : State) :
  client s = None -> isCleaningUp s = false -> isConnecting s = false ->
  consistent s.
Proof.
  intros Hc Hcu Hic. split; [|split].
  - rewrite Hcu. split; [done|]. intros (c & Hc' & _). congruence.
  - intros c Hc'. congruence.
  - congruence.
Qed.

Lemma consistent_inv (s : State) :
  consistent s ->
  match client s with
  | Some c => isCleaningUp s = ending c
              /\ (handle c < connectCalls s)%nat
              /\ listening c = negb (ending c)
  | None => isCleaningUp s = false /\ isConnecting s = false
  end.
Proof.
  intros (Hclean & Hclient & Hconn). destruct (client s) as [c|] eqn:Hc.
  - destruct (Hclient c eq_refl) as [Hh Hl]. split; [|done].
    destruct (ending c) eqn:He.
    + apply Hclean. by exists c.
    + destruct (isCleaningUp s); [|done].
      destruct Hclean as [Hclean _].
      destruct (Hclean eq_refl) as (c' & Hc' & He'). simplify_eq. congruence.
  - split.
    + destruct (isCleaningUp s); [|done].
      destruct Hclean as [Hclean _].
      by destruct (Hclean eq_refl) as (c' & Hc' & _).
    + destruct (isConnecting s); [|done].
      by destruct (Hconn eq_refl) as (c' & Hc').
Qed.

Ltac solve_consistent :=
  cbn;
  first [ eapply consistent_none_intro; cbn; congruence
        | eapply consistent_some_intro; cbn;
          [reflexivity|cbn; congruence|cbn; lia|cbn; congruence] ].

Lemma perform_consistent (a : Action) (s : State) :
  consistent s -> consistent (final (perform a s)).
Proof.
  intros Hs. pose proof (consistent_inv s Hs) as Hinv.
  destruct s as [cl ic cu ca occ omr cc]. cbn in Hinv. clear Hs.
  destruct a as [onConnect onMessage throws| |e].
  - unfold perform, connectMqtt, notifyConnection, get, modify, emit, skip,
      final, mbind, mret, M_bind, M_ret.
    cbn -[Nat.leb].
    destruct cl as [c|].
    + destruct Hinv as (-> & Hh & Hl).
      destruct (ending c) eqn:He; [solve_consistent|].
      destruct (connected c); cbn; [|solve_consistent].
      destruct (match onConnect with Some cb => Some cb | None => occ end);
        solve_consistent.
    + destruct Hinv as (-> & ->).
      destruct (Nat.leb MAX_RECONNECT_ATTEMPTS ca); [solve_consistent|].
      destruct throws; solve_consistent.
  - unfold perform, disconnectMqtt, get, modify, skip, final,
      mbind, mret, M_bind, M_ret. cbn.
    destruct cl as [c|].
    + destruct Hinv as (_ & Hh & _). solve_consistent.
    + destruct Hinv as (-> & ->). solve_consistent.
  - unfold perform, clientEvent, get, skip, mbind, mret, M_bind, M_ret, final.
    cbn. destruct cl as [c|].
    2: { destruct Hinv as (-> & ->). solve_consistent. }
    destruct Hinv as (-> & Hh & Hl).
    destruct c as [h co li en]. cbn in Hh, Hl. subst li.
    destruct e, en; cbn;
      unfold onEvent, onEnd, notifyConnection, setConnected, get, modify,
        emit, skip, mbind, mret, M_bind, M_ret; cbn;
      repeat case_match; simplify_eq; solve_consistent.
Qed.

(** X16. The session's variables stay consistent whatever is asked of
    it and whatever the transport reports: the cleanup flag is set
    exactly while a torn-down client awaits its end callback (so a
    connect request is refused for cleanup only while that callback is
    still to come), the handlers are attached exactly to a client that is
    not being torn down, and the client's transport is one that was
    really opened. *)
Theorem session_stays_consistent (acts : list Action) (s : State) :
  consistent s -> consistent (final (performAll acts s)).
Proof.
  revert s. induction acts as [|a acts IH]; intros s Hs; [exact Hs|].
  cbn [performAll]. unfold mbind, M_bind.
  pose proof (perform_consistent a s Hs) as Ha.
  destruct (perform a s) as [[u s1] o1]. unfold final in Ha. cbn in Ha.
  specialize (IH s1 Ha). destruct (performAll acts s1) as [[u2 s2] o2].
  exact IH.
Qed.

Lemma initialState_consistent : consistent initialState.
Proof.
  split; [|split]; cbn.
  - split; [done|]. by intros (? & ? & ?).
  - done.
  - done.
Qed.

End SessionMore.

Section SessionOperations.
Import Mqtt SessionState.

(** X17. The session calls [mqtt.connect], and so makes a client, only
    on a connect request made while no client exists, no teardown and no
    attempt is under way and the attempt counter is below the ceiling;
    the call then counts as one attempt. Nothing else the session does
    makes a client (the reconnections of an existing client are the
    transport library's own and are not calls of [mqtt.connect]). *)
Theorem client_made_only_when_idle (a : Action) (s : State) :
  connectCalls (final (perform a s)) = connectCalls s
  \/ (exists onConnect onMessage throws,
        a = ActConnect onConnect onMessage throws)
     /\ client s = None /\ isCleaningUp s = false /\ isConnecting s = false
     /\ (connectionAttempts s < MAX_RECONNECT_ATTEMPTS)%nat
     /\ connectCalls (final (perform a s)) = S (connectCalls s)
     /\ connectionAttempts (final (perform a s)) = S (connectionAttempts s).
Proof.
  destruct s as [cl ic cu ca occ omr cc].
  destruct a as [onConnect onMessage throws| |e].
  - unfold perform, connectMqtt, notifyConnection, get, modify, emit, skip,
      final, mbind, mret, M_bind, M_ret.
    cbn -[Nat.leb].
    destruct cu; [by left|].
    destruct cl as [c|].
    { left. destruct (connected c); [|done]. cbn.
      by destruct (match onConnect with Some cb => Some cb | None => occ end). }
    destruct ic; [by left|].
    destruct (Nat.leb_spec MAX_RECONNECT_ATTEMPTS ca) as [Hle|Hlt]; [by left|].
    right. split; [by eexists _, _, _|].
    destruct throws; cbn; by repeat split.
  - left. unfold perform, disconnectMqtt, get, modify, skip, final,
      mbind, mret, M_bind, M_ret. cbn. by destruct cl.
  - left. unfold perform, clientEvent, get, skip, mbind, mret, M_bind, M_ret,
      final. cbn. destruct cl as [c|]; [|done].
    destruct c as [h co li en].
    destruct e, en, li; cbn;
      unfold onEvent, onEnd, notifyConnection, setConnected, get, modify,
        emit, skip, mbind, mret, M_bind, M_ret; cbn;
      repeat case_match; simplify_eq; done.
Qed.

(** X18. A connect request on an idle session followed by the broker's
    acknowledgement gives a Connected session: the new transport is the
    client, the attempt counter is back at zero, the status callback is
    told [true] and the status topic is subscribed. *)
Theorem connect_then_acknowledge (s : State) (onConnect onMessage : option nat) :
  client s = None -> isCleaningUp s = false -> isConnecting s = false ->
  (connectionAttempts s < MAX_RECONNECT_ATTEMPTS)%nat ->
  let r := performAll [ActConnect onConnect onMessage false;
                       ActEvent EvConnect] s in
  sessionConnected (final r)
  /\ getMqttClient (final r) = Some (connectCalls s)
  /\ connectCalls (final r) = S (connectCalls s)
  /\ connectionAttempts (final r) = 0%nat
  /\ isConnecting (final r) = false
  /\ outputs r
     = match onConnectionChange (setCallbacks onConnect onMessage s) with
       | Some cb => [ConnectionChange cb true; Subscribe PLC_STATUS]
       | None => [Subscribe PLC_STATUS]
       end.
Proof.
  intros Hc Hcu Hic Hlt r. subst r.
  destruct s as [cl ic cu ca occ omr cc]. cbn in Hc, Hcu, Hic, Hlt. subst.
  apply Nat.leb_gt in Hlt.
  unfold performAll, perform, connectMqtt, clientEvent, onEvent,
    notifyConnection, get, modify, emit, skip, final, outputs, sessionConnected,
    getMqttClient, isMqttConnected, mbind, mret, M_bind, M_ret.
  cbn -[Nat.leb]. rewrite Hlt. cbn.
  destruct (match onConnect with Some cb => Some cb | None => occ end); cbn;
    by repeat split.
Qed.

(** X19. The promise of [sendAlertToPLC] always settles: in every state
    of the session and whatever happens during its wait it resolves to
    true or to false. *)
Theorem send_alert_always_settles (alertType : option string)
    (alertValue : option Q) (now : Z) (env : SendEnv) (s : State) :
  exists b, result (sendAlertToPLC alertType alertValue now env s) = Some b.
Proof.
  assert (Hsend : forall s' t,
    isMqttConnected s' = true ->
    exists b, result (sendAlertPayload alertType alertValue t
                        (publishError env) s') = Some b).
  { intros s' t Hconn. unfold isMqttConnected in Hconn.
    unfold sendAlertPayload, publish, get, emit, result,
      mbind, mret, M_bind, M_ret.
    cbn. destruct (client s') as [c|]; [|done]. cbn.
    destruct (publishError env); cbn; by eexists. }
  unfold sendAlertToPLC, mbind, M_bind, get. cbn beta iota zeta.
  destruct (isMqttConnected s) eqn:Hconn; cbn [negb].
  - destruct (Hsend s now Hconn) as (b & Hb). exists b.
    unfold result in *.
    by destruct (sendAlertPayload alertType alertValue now (publishError env) s)
      as [[? ?] ?].
  - destruct (connectMqtt None None (connectThrows env) s) as [[h s1] o1].
    destruct (performAll (during env) s1) as [[u s2] o2].
    destruct (isMqttConnected s2) eqn:Hconn2; cbn [negb].
    + destruct (Hsend s2 (timerNow env) Hconn2) as (b & Hb). exists b.
      unfold result in *.
      by destruct (sendAlertPayload alertType alertValue (timerNow env)
                     (publishError env) s2) as [[? ?] ?].
    + by exists false.
Qed.

Lemma alertType_not_empty (alertType : option string) :
  alertTypeOrDefault alertType <> ""%string.
Proof.
  unfold alertTypeOrDefault. destruct alertType as [t|]; [|done].
  destruct (String.eqb_spec t ""); done.
Qed.

(** X20. On a connected transport an ON or OFF command is handed to
    the transport at once, exactly once, on the control topic, stamped
    with the clock in whole seconds; the call resolves to true unless
    the broker reports an error, and the session is left as it was. The
    alert type in an ON payload is never empty: a missing or empty type
    is sent as "CRITICAL". *)
Theorem publish_when_connected (s : State) (c : MqttClient) (now : Z) :
  client s = Some c -> connected c = true ->
  (forall alertType alertValue env,
     result (sendAlertToPLC alertType alertValue now env s)
     = Some (negb (publishError env))
     /\ final (sendAlertToPLC alertType alertValue now env s) = s
     /\ List.filter isPublish
          (outputs (sendAlertToPLC alertType alertValue now env s))
        = [Publish (handle c) PLC_CONTROL
             (AlertPayload (now / 1000) (alertTypeOrDefault alertType)
                alertValue)]
     /\ alertTypeOrDefault alertType <> ""%string)
  /\ (forall publishErr,
        result (sendOffSignalToPLC now publishErr s) = negb publishErr
        /\ final (sendOffSignalToPLC now publishErr s) = s
        /\ List.filter isPublish (outputs (sendOffSignalToPLC now publishErr s))
           = [Publish (handle c) PLC_CONTROL (OffPayload (now / 1000))]).
Proof.
  intros Hc Hconn.
  assert (Hon : isMqttConnected s = true).
  { unfold isMqttConnected. by rewrite Hc. }
  split.
  - intros alertType alertValue env.
    unfold sendAlertToPLC, sendAlertPayload, publish, get, emit, result, final,
      outputs, mbind, mret, M_bind, M_ret.
    cbn beta iota zeta. rewrite Hon. cbn [negb]. rewrite Hc.
    split; [|split; [|split]]; try (by destruct (publishError env)).
    apply alertType_not_empty.
  - intros publishErr.
    unfold sendOffSignalToPLC, publish, get, emit, result, final, outputs,
      mbind, mret, M_bind, M_ret.
    cbn beta iota zeta. rewrite Hon. cbn [negb]. rewrite Hc.
    by destruct publishErr.
Qed.

Lemma connectAll_refused (calls : list (option nat * option nat)) (s : State) :
  isCleaningUp s = true ->
  Forall (fun h => h = None) (result (connectAll calls s))
  /\ client (final (connectAll calls s)) = client s
  /\ isCleaningUp (final (connectAll calls s)) = true
  /\ connectCalls (final (connectAll calls s)) = connectCalls s
  /\ connectionAttempts (final (connectAll calls s)) = connectionAttempts s
  /\ outputs (connectAll calls s) = [].
Proof.
  revert s. induction calls as [|[onConnect onMessage] calls IH]; intros s Hcu.
  - by repeat split.
  - pose proof (IH (setCallbacks onConnect onMessage s) Hcu) as IHs.
    cbn [connectAll]. unfold mbind, M_bind, mret, M_ret.
    rewrite (connectMqtt_during_teardown s) by done.
    destruct (connectAll calls (setCallbacks onConnect onMessage s))
      as [[hs s'] o'].
    unfold result, final, outputs in *. cbn in *.
    destruct IHs as (Hall & Hcl & Hcu' & Hcc & Hca & Ho).
    split; [by constructor|]. split; [done|]. split; [done|].
    split; [done|]. split; [done|]. by rewrite Ho.
Qed.

(** X21. After [disconnectMqtt] on a session with a client, every
    connect request is turned down, opens nothing and reports nothing,
    and what the transport still reports is ignored in silence, until the
    end callback arrives. That callback discards the client, clears both
    flags and tells the status callback [false]; the attempt counter is
    not reset by a teardown. *)
Theorem teardown_blocks_until_end (s : State) (c : MqttClient)
    (calls : list (option nat * option nat)) :
  client s = Some c ->
  let s1 := final (disconnectMqtt s) in
  (Forall (fun h => h = None) (result (connectAll calls s1))
   /\ connectCalls (final (connectAll calls s1)) = connectCalls s
   /\ outputs (connectAll calls s1) = [])
  /\ (forall e, e <> EvEnd ->
        outputs (clientEvent e s1) = []
        /\ isCleaningUp (final (clientEvent e s1)) = true
        /\ connectionAttempts (final (clientEvent e s1)) = connectionAttempts s
        /\ isConnecting (final (clientEvent e s1)) = isConnecting s)
  /\ (client (final (clientEvent EvEnd s1)) = None
      /\ isCleaningUp (final (clientEvent EvEnd s1)) = false
      /\ isConnecting (final (clientEvent EvEnd s1)) = false
      /\ connectionAttempts (final (clientEvent EvEnd s1))
         = connectionAttempts s
      /\ outputs (clientEvent EvEnd s1)
         = match onConnectionChange s with
           | Some cb => [ConnectionChange cb false]
           | None => []
           end).
Proof.
  intros Hc s1. subst s1.
  destruct s as [cl ic cu ca occ omr cc]. cbn in Hc. subst cl.
  unfold disconnectMqtt, get, modify, final, mbind, mret, M_bind, M_ret.
  cbn. split; [|split].
  - destruct (connectAll_refused calls
                {| client := Some {| handle := handle c;
                                     connected := connected c;
                                     listening := false; ending := true |};
                   isConnecting := ic; isCleaningUp := true;
                   connectionAttempts := ca; onConnectionChange := occ;
                   onMessageReceived := omr; connectCalls := cc |} eq_refl)
      as (Hall & _ & _ & Hcc & _ & Ho).
    by repeat split.
  - intros e He.
    unfold clientEvent, get, modify, skip, outputs, final,
      mbind, mret, M_bind, M_ret.
    destruct e; try done; cbn; by repeat split.
  - unfold clientEvent, onEnd, notifyConnection, get, modify, emit, skip,
      outputs, final, mbind, mret, M_bind, M_ret.
    cbn. destruct occ; cbn; by repeat split.
Qed.

Lemma reconnects_counted (k : nat) (s : State) (c : MqttClient) :
  client s = Some c -> listening c = true -> ending c = false ->
  final (performAll (replicate k (ActEvent EvReconnect)) s)
  = setConnectionAttempts (k + connectionAttempts s) s.
Proof.
  revert s. induction k as [|k IH]; intros s Hc Hl He.
  - by destruct s.
  - assert (Hstep : perform (ActEvent EvReconnect) s
                    = (tt, setConnectionAttempts (S (connectionAttempts s)) s,
                       [])).
    { unfold perform, clientEvent, onEvent, get, modify, skip,
        mbind, mret, M_bind, M_ret.
      cbn beta iota zeta. rewrite Hc. cbn beta iota zeta. by rewrite Hl. }
    cbn [replicate performAll]. unfold mbind, M_bind. rewrite Hstep.
    specialize (IH (setConnectionAttempts (S (connectionAttempts s)) s)
                  Hc Hl He).
    destruct (performAll (replicate k (ActEvent EvReconnect)) _)
      as [[u s2] o2].
    unfold final in *. cbn [fst snd] in *. rewrite IH.
    unfold setConnectionAttempts. cbn. f_equal. lia.
Qed.

Lemma afterRetries_state (k : nat) :
  afterRetries k
  = {| client := Some {| handle := 0; connected := false;
                         listening := true; ending := false |};
       isConnecting := true; isCleaningUp := false;
       connectionAttempts := S k;
       onConnectionChange := Some Hook.connectionCallback;
       onMessageReceived := Some Hook.messageCallback;
       connectCalls := 1 |}.
Proof.
  unfold afterRetries. cbn [performAll]. unfold mbind, M_bind.
  change (perform (ActConnect (Some Hook.connectionCallback)
                     (Some Hook.messageCallback) false) initialState)
    with (tt,
          {| client := Some {| handle := 0; connected := false;
                               listening := true; ending := false |};
             isConnecting := true; isCleaningUp := false;
             connectionAttempts := 1;
             onConnectionChange := Some Hook.connectionCallback;
             onMessageReceived := Some Hook.messageCallback;
             connectCalls := 1 |}, @nil Output).
  cbn beta iota zeta.
  pose proof (reconnects_counted k
                {| client := Some {| handle := 0; connected := false;
                                     listening := true; ending := false |};
                   isConnecting := true; isCleaningUp := false;
                   connectionAttempts := 1;
                   onConnectionChange := Some Hook.connectionCallback;
                   onMessageReceived := Some Hook.messageCallback;
                   connectCalls := 1 |} _ eq_refl eq_refl eq_refl) as Hk.
  destruct (performAll (replicate k (ActEvent EvReconnect)) _)
    as [[u s2] o2].
  unfold final in *. cbn [fst snd] in *. rewrite Hk.
  unfold setConnectionAttempts. cbn. f_equal. lia.
Qed.

Lemma event_keeps_client (e : ClientEvent) (n : nat) (s : State) :
  keepsClient n s -> e <> EvConnect ->
  keepsClient n (final (clientEvent e s))
  /\ connectionAttempts (final (clientEvent e s))
     = (connectionAttempts s + (if isReconnect e then 1 else 0))%nat
  /\ connectCalls (final (clientEvent e s)) = connectCalls s
  /\ Forall (fun o => isMaxAttemptsError o = false)
            (outputs (clientEvent e s)).
Proof.
  intros (Hcl & c & Hc & Hn & Hl & He) Hne.
  destruct s as [cl connecting cleaning attempts onC onM calls].
  destruct c as [hd conn lst en]. cbn in Hcl, Hc, Hn, Hl, He. subst.
  unfold keepsClient.
  destruct e as [|topic parses| | | | |]; [done|..]; run_session.
  - destruct parses; run_session; [destruct onM; run_session|].
    all: split; [split; [done|by eexists]|].
    all: split; [lia|]. all: split; [done|]. all: by repeat constructor.
  - split; [split; [done|by eexists]|].
    split; [lia|]. split; [done|]. by repeat constructor.
  - destruct onC; run_session.
    all: split; [split; [done|by eexists]|].
    all: split; [lia|]. all: split; [done|]. all: by repeat constructor.
  - split; [split; [done|by eexists]|].
    split; [lia|]. split; [done|]. by repeat constructor.
  - destruct onC; run_session.
    all: split; [split; [done|by eexists]|].
    all: split; [lia|]. all: split; [done|]. all: by repeat constructor.
  - split; [split; [done|by eexists]|].
    split; [lia|]. split; [done|]. by repeat constructor.
Qed.

Lemma reconnections_cons (e : ClientEvent) (evs : list ClientEvent) :
  reconnections (e :: evs)
  = ((if isReconnect e then 1 else 0) + reconnections evs)%nat.
Proof.
  unfold reconnections. rewrite filter_cons.
  destruct (isReconnect e); [by rewrite decide_True|by rewrite decide_False].
Qed.

Lemma events_keep_client (evs : list ClientEvent) (n : nat) (s : State) :
  keepsClient n s -> Forall (fun e => e <> EvConnect) evs ->
  keepsClient n (final (performAll (ActEvent <$> evs) s))
  /\ connectionAttempts (final (performAll (ActEvent <$> evs) s))
     = (connectionAttempts s + reconnections evs)%nat
  /\ connectCalls (final (performAll (ActEvent <$> evs) s)) = connectCalls s
  /\ Forall (fun o => isMaxAttemptsError o = false)
            (outputs (performAll (ActEvent <$> evs) s)).
Proof.
  revert s. induction evs as [|e evs IH]; intros s Hk Hall.
  - unfold final, outputs, reconnections. cbn.
    split; [done|]. split; [lia|]. split; [done|]. constructor.
  - apply Forall_cons in Hall as [He Hall].
    destruct (event_keeps_client e n s Hk He) as (Hk1 & Ha1 & Hc1 & Ho1).
    cbn [fmap list_fmap performAll perform]. unfold mbind, M_bind.
    destruct (clientEvent e s) as [[u s1] o1].
    unfold final, outputs in Hk1, Ha1, Hc1, Ho1.
    cbn [fst snd] in Hk1, Ha1, Hc1, Ho1.
    destruct (IH s1 Hk1 Hall) as (Hk2 & Ha2 & Hc2 & Ho2).
    change (list_fmap ClientEvent Action ActEvent evs)
      with (ActEvent <$> evs).
    destruct (performAll (ActEvent <$> evs) s1) as [[u2 s2] o2].
    unfold final, outputs in *. cbn [fst snd] in *.
    split; [done|]. split.
    { rewrite Ha2, Ha1, reconnections_cons. lia. }
    split; [congruence|]. by apply Forall_app.
Qed.

(** C8 fails on the code. The ceiling is tested in [connectMqtt] only,
    on the path without a client. While a client exists the transport
    library reconnects on its own and the session merely counts: however
    many reconnections the library begins, and whatever else it reports
    short of a successful connect, the client is kept with its handlers
    attached and no teardown asked for, every begun reconnection raises
    the counter by one, past the ceiling and without bound, the reaching
    of the ceiling is never reported, and a connect request hands back
    that same client without a word. *)
Theorem reconnections_pass_the_ceiling (s : State) (n : nat)
    (evs : list ClientEvent) :
  keepsClient n s ->
  Forall (fun e => e <> EvConnect) evs ->
  let r := performAll (ActEvent <$> evs) s in
  keepsClient n (final r)
  /\ connectionAttempts (final r)
     = (connectionAttempts s + reconnections evs)%nat
  /\ connectCalls (final r) = connectCalls s
  /\ Forall (fun o => isMaxAttemptsError o = false) (outputs r)
  /\ forall onConnect onMessage throws,
       result (connectMqtt onConnect onMessage throws (final r)) = Some n
       /\ connectionAttempts
            (final (connectMqtt onConnect onMessage throws (final r)))
          = connectionAttempts (final r)
       /\ Forall (fun o => isMaxAttemptsError o = false)
                 (outputs (connectMqtt onConnect onMessage throws (final r))).
Proof.
  intros Hk Hall r.
  destruct (events_keep_client evs n s Hk Hall) as (Hk' & Ha & Hc & Ho).
  fold r in Hk', Ha, Hc, Ho.
  split; [done|]. split; [done|]. split; [done|]. split; [done|].
  intros onConnect onMessage throws.
  destruct Hk' as (Hcl & c & Hcs & Hn & Hl & He).
  destruct (final r) as [cl connecting cleaning attempts onC onM calls].
  destruct c as [hd conn lst en]. cbn in Hcl, Hcs, Hn, Hl, He. subst.
  run_session.
  destruct conn; run_session; [|by repeat constructor].
  destruct onConnect, onC; run_session; by repeat constructor.
Qed.

End SessionOperations.

(* ===================================================================== *)
(** ** The hook's connection management and the client identifier *)
(* ===================================================================== *)

Section HookFacts.
Import Mqtt SessionState Hook.

(** X22. The manual reconnect of the hook. If the end callback of the
    teardown has not arrived when the one-second timer fires, the connect
    request is turned down and the session is left without a client once
    the callback does arrive. If it has arrived, a new transport is
    opened exactly when the attempt counter is below the ceiling; since a
    teardown does not reset the counter, after a connect request and [k]
    failed reconnections a manual reconnect goes through only for
    [k < 9]. *)
Theorem manual_reconnect (s : State) (c : MqttClient) (throws : bool) :
  client s = Some c ->
  (result (reconnect [] throws s) = None
   /\ client (final (clientEvent EvEnd (final (reconnect [] throws s)))) = None
   /\ connectCalls (final (clientEvent EvEnd (final (reconnect [] throws s))))
      = connectCalls s)
  /\ result (reconnect [ActEvent EvEnd] false s)
     = (if Nat.ltb (connectionAttempts s) MAX_RECONNECT_ATTEMPTS
        then Some (connectCalls s) else None)
  /\ forall k,
       result (reconnect [ActEvent EvEnd] false (afterRetries k))
       = (if Nat.ltb k 9 then Some 1%nat else None).
Proof.
  intros Hc.
  assert (Hin_time : forall s' c',
    client s' = Some c' ->
    result (reconnect [ActEvent EvEnd] false s')
    = (if Nat.ltb (connectionAttempts s') MAX_RECONNECT_ATTEMPTS
       then Some (connectCalls s') else None)).
  { intros [cl ic cu ca occ omr cc] c' Hc'. cbn in Hc'. subst cl.
    unfold reconnect, performAll, perform, disconnectMqtt, clientEvent, onEnd,
      connectMqtt, notifyConnection, get, modify, emit, skip, result,
      mbind, mret, M_bind, M_ret.
    cbn -[Nat.leb Nat.ltb].
    destruct occ; cbn -[Nat.leb Nat.ltb];
      destruct (Nat.leb_spec MAX_RECONNECT_ATTEMPTS ca),
               (Nat.ltb_spec ca MAX_RECONNECT_ATTEMPTS);
      try lia; done. }
  split; [|split].
  - destruct s as [cl ic cu ca occ omr cc]. cbn in Hc. subst cl.
    unfold reconnect, performAll, disconnectMqtt, clientEvent, onEnd,
      connectMqtt, notifyConnection, get, modify, emit, skip, result, final,
      mbind, mret, M_bind, M_ret.
    cbn. by repeat split.
  - by apply (Hin_time s c).
  - intros k. rewrite afterRetries_state.
    erewrite Hin_time by reflexivity. cbn [connectionAttempts connectCalls].
    unfold MAX_RECONNECT_ATTEMPTS.
    destruct (Nat.ltb_spec (S k) 10), (Nat.ltb_spec k 9); try lia; done.
Qed.

(** X23. The mount effect asks for the connection once at most: a
    disabled hook never does; the first enabled run makes one connect
    request, and no later run touches the session or reports anything,
    also when that one request got no client. *)
Theorem mount_effect_connects_once (runs : list (bool * bool)) (s : State) :
  mountEffects runs true s = (true, s, [])
  /\ (Forall (fun run => fst run = false) runs ->
      mountEffects runs false s = (false, s, []))
  /\ forall throws,
       mountEffects ((true, throws) :: runs) false s
       = (true,
          final (connectMqtt (Some connectionCallback) (Some messageCallback)
                   throws s),
          outputs (connectMqtt (Some connectionCallback)
                     (Some messageCallback) throws s)).
Proof.
  assert (Hdone : forall runs' s', mountEffects runs' true s' = (true, s', [])).
  { induction runs' as [|[enabled throws] runs' IH]; intros s'; [done|].
    cbn [mountEffects]. unfold mbind, M_bind, mountEffect.
    destruct enabled; cbn; by rewrite IH. }
  split; [apply Hdone|]. split.
  - revert s. induction runs as [|[enabled throws] runs IH]; intros s Hall;
      [done|].
    apply Forall_cons in Hall as [Hfalse Hall]. cbn in Hfalse. subst enabled.
    cbn [mountEffects]. unfold mbind, M_bind, mountEffect. cbn.
    by rewrite IH.
  - intros throws. cbn [mountEffects]. unfold mbind, M_bind, mountEffect.
    cbn [negb]. unfold mbind, M_bind, mret, M_ret, final, outputs.
    destruct (connectMqtt (Some connectionCallback) (Some messageCallback)
                throws s) as [[h s1] o1].
    cbn. rewrite Hdone. by rewrite !app_nil_r.
Qed.

End HookFacts.

Section ClientIdFacts.
Import ClientId.

(** X24. In the browser the client identifier is stable: the
    identifier returned is not empty and is kept in session storage under
    [mqtt_client_id], other stored items are left alone, and every later
    call returns the same identifier whatever the clock and the random
    source give. Once the hook's reconnect has removed the item, the next
    call makes a new identifier from the clock and random source of that
    call. *)
Theorem client_id_is_stable (items : gmap string string)
    (clock random clock' random' : string) :
  let id := fst (getStableClientId (Some items) clock random) in
  let storage := snd (getStableClientId (Some items) clock random) in
  id <> ""%string
  /\ (exists items', storage = Some items'
                     /\ items' !! storageKey = Some id
                     /\ forall key, key <> storageKey ->
                                    items' !! key = items !! key)
  /\ getStableClientId storage clock' random' = (id, storage)
  /\ fst (getStableClientId (removeClientId storage) clock' random')
     = ("mechasense-web-" ++ clock' ++ "-" ++ random')%string.
Proof.
  cbv zeta. unfold getStableClientId.
  destruct (items !! storageKey) as [clientId|] eqn:Hitem.
  - destruct (String.eqb_spec clientId "") as [->|Hne]; cbn [fst snd].
    + split; [done|]. split.
      { eexists. split; [done|]. split; [by rewrite lookup_insert_eq|].
        intros key Hkey. by rewrite lookup_insert_ne. }
      split.
      { by rewrite lookup_insert_eq. }
      cbn [removeClientId fmap option_fmap option_map].
      by rewrite lookup_delete_eq.
    + split; [done|]. split.
      { exists items. by repeat split. }
      split.
      { rewrite Hitem. by destruct (String.eqb_spec clientId ""). }
      cbn [removeClientId fmap option_fmap option_map].
      by rewrite lookup_delete_eq.
  - cbn [fst snd]. split; [done|]. split.
    { eexists. split; [done|]. split; [by rewrite lookup_insert_eq|].
      intros key Hkey. by rewrite lookup_insert_ne. }
    split.
    { by rewrite lookup_insert_eq. }
    cbn [removeClientId fmap option_fmap option_map].
    by rewrite lookup_delete_eq.
Qed.

End ClientIdFacts.

(* ===================================================================== *)
(** ** Dashboard *)
(* ===================================================================== *)

Section DashboardFacts.
Import Dashboard.

(** X25. The motor status shown for a health score: "Kritikal" exactly
    for a score that is present, not zero and below 60, "Perlu Inspeksi"
    exactly for a score from 60 up to but not including 80; a missing
    score and the score 0 both read as "Normal". *)
Theorem motor_status_of_score (healthScore : option Q) :
  (getMotorStatus healthScore = "Kritikal"
   <-> exists h, healthScore = Some h /\ ~ (h == 0)%Q /\ (h < 60)%Q)
  /\ (getMotorStatus healthScore = "Perlu Inspeksi"
      <-> exists h, healthScore = Some h /\ (60 <= h < 80)%Q)
  /\ (forall h, healthScore = Some h -> (h == 0)%Q ->
        getMotorStatus healthScore = "Normal")
  /\ (healthScore = None -> getMotorStatus healthScore = "Normal").
Proof.
  unfold getMotorStatus. destruct healthScore as [h|].
  2: { split; [split; [done|by intros (? & ? & _)]|].
       split; [split; [done|by intros (? & ? & _)]|]. by split. }
  destruct (Qeq_bool h 0) eqn:H0.
  { apply Qeq_bool_iff in H0.
    split; [split; [done|intros (h' & [= <-] & Hn & _); by destruct Hn]|].
    split; [split; [done|intros (h' & [= <-] & Hr); lra]|]. by split. }
  assert (Hn0 : ~ (h == 0)%Q).
  { intros Heq. apply Qeq_bool_iff in Heq. congruence. }
  destruct (Qle_bool 80 h) eqn:H80.
  { apply Qle_bool_iff in H80.
    split; [split; [done|intros (h' & [= <-] & _ & Hr); lra]|].
    split; [split; [done|intros (h' & [= <-] & Hr); lra]|].
    split; [|done]. intros h' [= <-] Heq. by destruct Hn0. }
  assert (Hn80 : (h < 80)%Q).
  { apply Qnot_le_lt. intros Hle. apply Qle_bool_iff in Hle. congruence. }
  destruct (Qle_bool 60 h) eqn:H60.
  { apply Qle_bool_iff in H60.
    split; [split; [done|intros (h' & [= <-] & _ & Hr); lra]|].
    split; [split; [intros _; by exists h|done]|].
    split; [|done]. intros h' [= <-] Heq. by destruct Hn0. }
  assert (Hn60 : (h < 60)%Q).
  { apply Qnot_le_lt. intros Hle. apply Qle_bool_iff in Hle. congruence. }
  split; [split; [intros _; by exists h|done]|].
  split; [split; [done|intros (h' & [= <-] & Hr); lra]|].
  split; [|done]. intros h' [= <-] Heq. by destruct Hn0.
Qed.

(** X26. The width of a temperature bar always lies between 0 and 100
    percent: a value that is not a number gives 0, a temperature of 0 or
    below gives 0, and 100 degrees or more gives the full width. *)
Theorem progress_width_clamped (t : option Q) :
  (0 <= progressWidth t <= 100)%Q
  /\ (t = None -> (progressWidth t == 0)%Q)
  /\ (forall x, t = Some x -> (x <= 0)%Q -> (progressWidth t == 0)%Q)
  /\ (forall x, t = Some x -> (100 <= x)%Q -> (progressWidth t == 100)%Q).
Proof.
  unfold progressWidth, Math_min2, Math_max2.
  assert (H100 : (JsNumber.binary64 100 == 100)%Q) by (by vm_compute).
  assert (H1 : (JsNumber.binary64 1 == 1)%Q) by (by vm_compute).
  split; [|split; [|split]].
  - set (e := JsNumber.mul _ 100).
    destruct (Qlt_le_dec e 0); destruct (Qlt_le_dec 100 _); lra.
  - intros ->. by vm_compute.
  - intros x -> Hx. change (safeTemp (Some x)) with x.
    assert (He : (JsNumber.mul (JsNumber.div x 100) 100 <= 0)%Q).
    { unfold JsNumber.mul, JsNumber.div.
      pose proof (binary64_nonpos x Hx) as Hbx.
      assert (Hq : (JsNumber.binary64 x / JsNumber.binary64 100 <= 0)%Q).
      { rewrite H100. apply Qle_shift_div_r; lra. }
      pose proof (binary64_nonpos _ (binary64_nonpos _ Hq)) as Hd.
      apply binary64_nonpos. rewrite H100 in Hd |- *. lra. }
    set (e := JsNumber.mul _ 100) in *.
    destruct (Qlt_le_dec e 0); destruct (Qlt_le_dec 100 _);
      apply Qle_antisym; lra.
  - intros x -> Hx. change (safeTemp (Some x)) with x.
    assert (He : (100 <= JsNumber.mul (JsNumber.div x 100) 100)%Q).
    { unfold JsNumber.mul, JsNumber.div.
      assert (Hbx : (100 <= JsNumber.binary64 x)%Q).
      { rewrite <- H100 at 1. apply binary64_mono; lra. }
      assert (Hq : (1 <= JsNumber.binary64 x / JsNumber.binary64 100)%Q).
      { rewrite H100. apply Qle_shift_div_l; lra. }
      assert (Hd : (1 <= JsNumber.binary64
                           (JsNumber.binary64
                              (JsNumber.binary64 x / JsNumber.binary64 100)))%Q).
      { rewrite binary64_idempotent. rewrite <- H1 at 1.
        apply binary64_mono; lra. }
      rewrite <- H100 at 1. apply binary64_mono; [lra|].
      rewrite H100 in Hd |- *. lra. }
    set (e := JsNumber.mul _ 100) in *.
    destruct (Qlt_le_dec e 0); destruct (Qlt_le_dec 100 _);
      apply Qle_antisym; lra.
Qed.

End DashboardFacts.

(* ===================================================================== *)
(** ** The properties above at concrete inputs *)
(* ===================================================================== *)

Section MoreWitnesses.
Import Scenarios MoreScenarios.

Lemma history_is_last_fifty_witness :
  AiCenter.onSensorValues threeSnapshots []
  = [ {| AiCenter.vibration_rms := 12 # 10;
         AiCenter.timestamp := 1700000000000 |};
      {| AiCenter.vibration_rms := 31 # 10; AiCenter.timestamp := 7 |} ].
Proof.
  destruct (history_is_last_fifty threeSnapshots []) as [Heq _];
    [simpl; lia|].
  rewrite Heq. reflexivity.
Defined.

Lemma answer_shape_witness :
  Predict.POST Q (fun _ => 100%Q) (inr oneReading)
    (Predict.FetchAnswers true 200 (inr goodDocument))
  = Predict.Success Q 100%Q (Some (PredictShape.predictionOf goodDocument))
      "available" None
  /\ Predict.POST Q (fun _ => 100%Q) (inr oneReading)
       (Predict.FetchAnswers true 200 (inr Predict.JNull))
     = Predict.Success Q 100%Q None "unavailable" None
  /\ exists message,
       Predict.POST Q (fun _ => 100%Q) (inr oneReading)
         (Predict.FetchAnswers true 200
            (inr (Predict.JObj [("classification"%string, Predict.JNull)])))
       = Predict.InternalServerError Q message.
Proof.
  split; [|split].
  - destruct (answer_shape Q (fun _ => 100%Q) oneReading 200 goodDocument)
      as (_ & Hgood & _); [simpl; lia|].
    apply Hgood; reflexivity.
  - destruct (answer_shape Q (fun _ => 100%Q) oneReading 200 Predict.JNull)
      as (Hfalsy & _ & _); [simpl; lia|].
    apply Hfalsy; reflexivity.
  - destruct (answer_shape Q (fun _ => 100%Q) oneReading 200
                (Predict.JObj [("classification"%string, Predict.JNull)]))
      as (_ & _ & Hbad); [simpl; lia|].
    apply Hbad; reflexivity.
Defined.

Lemma page_prediction_result_witness :
  AiCenter.runPrediction Q (fun _ => 100%Q) true
    (Predict.FetchAnswers true 200 (inr (Predict.JObj [])))
    [{| AiCenter.vibration_rms := 2.5%Q; AiCenter.timestamp := 1000 |}]
    None None
  = None.
Proof.
  destruct (page_prediction_result Q (fun _ => 100%Q) true
              (Predict.FetchAnswers true 200 (inr (Predict.JObj [])))
              [{| AiCenter.vibration_rms := 2.5%Q;
                  AiCenter.timestamp := 1000 |}]
              None None) as (_ & _ & _ & Hstale).
  apply (Hstale 200 (Predict.JObj []));
    [discriminate|reflexivity|reflexivity|reflexivity].
Defined.

Lemma service_failure_reported_witness :
  Predict.POST Q (fun _ => 100%Q) (inr oneReading)
    (Predict.FetchAnswers false 503
       (inr (Predict.JObj [("detail"%string, Predict.JStr "model not loaded")])))
  = Predict.Success Q 100%Q None "unavailable"
      (Some (Predict.ErrorDetail (Predict.JStr "model not loaded"))).
Proof.
  destruct (service_failure_reported Q (fun _ => 100%Q) oneReading)
    as (_ & _ & _ & Hdetail & _); [simpl; lia|].
  apply (Hdetail 503
           (Predict.JObj [("detail"%string, Predict.JStr "model not loaded")])).
  reflexivity.
Defined.

Lemma reconnections_pass_the_ceiling_witness :
  let r := Mqtt.performAll (Mqtt.ActEvent <$> retryCycles 11) firstAttempt in
  Mqtt.connectionAttempts (Mqtt.final r) = 12%nat
  /\ (Mqtt.MAX_RECONNECT_ATTEMPTS < 12)%nat
  /\ SessionState.keepsClient 0 (Mqtt.final r)
  /\ Forall (fun o => SessionState.isMaxAttemptsError o = false)
            (Mqtt.outputs r)
  /\ Mqtt.result (Mqtt.connectMqtt None None false (Mqtt.final r))
     = Some 0%nat.
Proof.
  destruct (reconnections_pass_the_ceiling firstAttempt 0 (retryCycles 11))
    as (Hkeep & Hattempts & _ & Hquiet & Hconnect).
  - split; [reflexivity|]. eexists. split; [reflexivity|].
    split; [reflexivity|]. split; reflexivity.
  - vm_compute. repeat (constructor; [discriminate|]). constructor.
  - split; [exact Hattempts|]. split; [vm_compute; lia|].
    split; [exact Hkeep|]. split; [exact Hquiet|].
    apply (Hconnect None None false).
Defined.

Lemma session_stays_consistent_witness :
  SessionState.consistent
    (Mqtt.final
       (Mqtt.performAll
          [Mqtt.ActConnect (Some 1%nat) None false;
           Mqtt.ActEvent Mqtt.EvConnect; Mqtt.ActDisconnect;
           Mqtt.ActConnect None None false; Mqtt.ActEvent Mqtt.EvClose;
           Mqtt.ActEvent Mqtt.EvEnd; Mqtt.ActConnect None None true]
          Mqtt.initialState)).
Proof.
  apply session_stays_consistent.
  split; [|split]; cbn.
  - split; [discriminate|]. intros (c & Hc & _). discriminate.
  - intros c Hc. discriminate.
  - discriminate.
Defined.

Lemma connect_then_acknowledge_witness :
  Mqtt.sessionConnected connectedSession
  /\ Mqtt.getMqttClient connectedSession = Some 0%nat
  /\ Mqtt.connectionAttempts connectedSession = 0%nat.
Proof.
  destruct (connect_then_acknowledge Mqtt.initialState (Some 1%nat)
              (Some 2%nat)) as (Hconn & Hclient & _ & Hattempts & _);
    [reflexivity|reflexivity|reflexivity|vm_compute; lia|].
  split; [exact Hconn|]. split; [exact Hclient|exact Hattempts].
Defined.

Lemma publish_when_connected_witness :
  Mqtt.result (Mqtt.sendOffSignalToPLC 1000999 false connectedSession) = true
  /\ List.filter Mqtt.isPublish
       (Mqtt.outputs (Mqtt.sendOffSignalToPLC 1000999 false connectedSession))
     = [Mqtt.Publish 0 Mqtt.PLC_CONTROL (Mqtt.OffPayload 1000)].
Proof.
  destruct (publish_when_connected connectedSession liveClient 1000999)
    as [_ Hoff]; [reflexivity|reflexivity|].
  destruct (Hoff false) as (Hres & _ & Hout).
  split; [exact Hres|exact Hout].
Defined.

Lemma teardown_blocks_until_end_witness :
  Mqtt.result (Mqtt.connectAll [(Some 3%nat, None); (None, None)]
                 (Mqtt.final (Mqtt.disconnectMqtt connectedSession)))
  = [None; None]
  /\ Mqtt.client
       (Mqtt.final (Mqtt.clientEvent Mqtt.EvEnd
                      (Mqtt.final (Mqtt.disconnectMqtt connectedSession))))
     = None.
Proof.
  destruct (teardown_blocks_until_end connectedSession liveClient
              [(Some 3%nat, None); (None, None)])
    as (_ & _ & Hend & _); [reflexivity|].
  split; [reflexivity|exact Hend].
Defined.

Lemma manual_reconnect_witness :
  Mqtt.result (Hook.reconnect [] false connectedSession) = None
  /\ Mqtt.result (Hook.reconnect [Mqtt.ActEvent Mqtt.EvEnd] false
                    connectedSession) = Some 1%nat
  /\ Mqtt.result (Hook.reconnect [Mqtt.ActEvent Mqtt.EvEnd] false
                    (SessionState.afterRetries 9)) = None.
Proof.
  destruct (manual_reconnect connectedSession liveClient false)
    as ((Hlate & _) & Hintime & Hretries); [reflexivity|].
  split; [exact Hlate|]. split; [exact Hintime|exact (Hretries 9%nat)].
Defined.

Lemma mount_effect_connects_once_witness :
  Hook.mountEffects [(false, false); (false, true)] false Mqtt.initialState
  = (false, Mqtt.initialState, []).
Proof.
  destruct (mount_effect_connects_once [(false, false); (false, true)]
              Mqtt.initialState) as (_ & Hdisabled & _).
  apply Hdisabled. repeat constructor.
Defined.

Lemma client_id_is_stable_witness :
  exists items',
    snd (ClientId.getStableClientId (Some storedItems) "lx1" "a3f9")
    = Some items'
    /\ items' !! ClientId.storageKey = Some "mechasense-web-lx1-a3f9"%string
    /\ items' !! "theme"%string = storedItems !! "theme"%string.
Proof.
  destruct (client_id_is_stable storedItems "lx1" "a3f9" "lx2" "77aa")
    as (_ & (items' & Hst & Hid & Hother) & _).
  exists items'. split; [exact Hst|]. split; [exact Hid|].
  apply Hother. discriminate.
Defined.

Lemma motor_status_of_score_witness :
  Dashboard.getMotorStatus (Some 0%Q) = "Normal"%string.
Proof.
  destruct (motor_status_of_score (Some 0%Q)) as (_ & _ & Hzero & _).
  apply (Hzero 0%Q); reflexivity.
Defined.

Lemma progress_width_clamped_witness :
  (Dashboard.progressWidth (Some 120%Q) == 100)%Q
  /\ (Dashboard.progressWidth None == 0)%Q.
Proof.
  destruct (progress_width_clamped (Some 120%Q)) as (_ & _ & _ & Hfull).
  destruct (progress_width_clamped None) as (_ & Hnone & _).
  split; [apply (Hfull 120%Q); [reflexivity|by vm_compute]|].
  by apply Hnone.
Defined.

End MoreWitnesses.
